(** * ng-spring-data-rest: the schema collection and reference-resolution pipeline

    A shallow embedding of [collectEntities], [collectSchemas],
    [preProcessSchemas], [removeTrivialTitles] and
    [resolveUrlStringReferences] of ng-spring-data-rest.js, and the properties
    of the specification that concern them; and of [doLogin],
    [authenticateWithCookies], [authenticateWithOAuth2] and the part of
    [doGenerate] that precedes the creation of the output directories, with
    further properties of all of these.

    Modelling conventions.
    - A document delivered by axios ([response.data]) is a JavaScript value
      built from JSON: [value].  An object is the list of its own properties
      in the order [Object.keys] enumerates them; a key occurs once in the
      list of an object, and the operations below read the first occurrence.
    - Numbers are carried as integers: the code never computes with a number
      of a document, it only tests truthiness and strict equality.
    - Strings are byte strings.  The code searches for the ASCII character
      [#] and takes the prefix before it, which is the same prefix in UTF-8
      and in UTF-16.  The characters of a string, which the code reaches only
      when a document holds a string where a mapping is expected, are its
      bytes; that is exact for ASCII strings.
    - Property reads name own properties only.  The names the code reads
      ([_links], [href], [alps], [descriptors], [properties], [definitions],
      [$ref], [title], [type], [format], [name], [rt], [access_token], and
      keys obtained from
      [Object.keys]) are not members of [Object.prototype],
      [Array.prototype] or [String.prototype].
    - A schema document is an object with an identity: the code mutates it in
      place and compares schemas with [!==].  Schema documents live in a
      [heap], and the code passes locations around.  The values nested in a
      document are trees and are not shared.
    - [console.log] is not modelled; [console.error] followed by
      [process.exit] is the outcome [Exit].  A run that throws or ends the
      process leaves no state behind: the outcomes [Throw] and [Exit] carry
      no heap. *)

From Stdlib Require Import ZArith Lia Ascii.
From stdpp Require Import base list strings pretty.

#[local] Open Scope string_scope.
#[local] Open Scope Z_scope.

(** ** JavaScript values *)

#[local] Set Warnings "-register-all".

Inductive value : Type :=
| VUndefined
| VNull
| VBool (b : bool)
| VNum (n : Z)
| VStr (s : string)
| VArr (elems : list value)
| VObj (fields : list (string * value)).

(** The own properties of an object, in [Object.keys] order. *)
Abbreviation props := (list (string * value)).

(** Induction over values that reaches the elements of arrays and the values
    of object properties. *)
Section ValueInduction.
Variable P : value → Prop.
Hypothesis Hundefined : P VUndefined.
Hypothesis Hnull : P VNull.
Hypothesis Hbool : ∀ b, P (VBool b).
Hypothesis Hnum : ∀ n, P (VNum n).
Hypothesis Hstr : ∀ s, P (VStr s).
Hypothesis Harr : ∀ elems, Forall P elems → P (VArr elems).
Hypothesis Hobj : ∀ fields, Forall (λ kv, P kv.2) fields → P (VObj fields).

Fixpoint value_nested_ind (v : value) : P v :=
  match v with
  | VUndefined => Hundefined
  | VNull => Hnull
  | VBool b => Hbool b
  | VNum n => Hnum n
  | VStr s => Hstr s
  | VArr elems =>
      Harr elems
        ((fix all (l : list value) : Forall P l :=
            match l with
            | [] => Forall_nil_2 P
            | e :: l' => Forall_cons_2 P e l' (value_nested_ind e) (all l')
            end) elems)
  | VObj fields =>
      Hobj fields
        ((fix all (l : props) : Forall (λ kv, P kv.2) l :=
            match l with
            | [] => Forall_nil_2 _
            | kv :: l' =>
                Forall_cons_2 (λ kv, P kv.2) kv l' (value_nested_ind kv.2) (all l')
            end) fields)
  end.
End ValueInduction.

(** ** Outcomes of a run *)

Inductive result (A : Type) : Type :=
| Ok (a : A)
    (** normal completion *)
| Throw
    (** a JavaScript exception is thrown; every exception of the modelled code
        is a [TypeError] *)
| Exit (code : Z) (stderr : string)
    (** [console.error(stderr); process.exit(code)] *)
| Stuck.
    (** no run of the program is in this state: a location that is not in the
        heap, or a named property written to an array *)
Arguments Ok {A} a.
Arguments Throw {A}.
Arguments Exit {A} code stderr.
Arguments Stuck {A}.

#[global] Instance result_ret : MRet result := λ A a, Ok a.
#[global] Instance result_bind : MBind result := λ A B f m,
  match m with
  | Ok a => f a
  | Throw => Throw
  | Exit code stderr => Exit code stderr
  | Stuck => Stuck
  end.
#[global] Instance result_fmap : FMap result := λ A B f m,
  match m with
  | Ok a => Ok (f a)
  | Throw => Throw
  | Exit code stderr => Exit code stderr
  | Stuck => Stuck
  end.

(** [promise.catch(() => handler)]: the handler runs when the promise is
    rejected by an exception.  [process.exit] inside the promise has already
    ended the process. *)
Definition catch {A} (m handler : result A) : result A :=
  match m with
  | Throw => handler
  | _ => m
  end.

(** [array.map(f)] and [for (x of array) f(x)] where [f] may throw. *)
Fixpoint mapM {A B} (f : A → result B) (l : list A) : result (list B) :=
  match l with
  | [] => Ok []
  | a :: l' => b ← f a; bs ← mapM f l'; Ok (b :: bs)
  end.

(** [array.filter(p)] where [p] may throw. *)
Fixpoint filterM {A} (p : A → result bool) (l : list A) : result (list A) :=
  match l with
  | [] => Ok []
  | a :: l' => b ← p a; r ← filterM p l'; Ok (if b : bool then a :: r else r)
  end.

(** [array.find(p)] where [p] may throw: the first element that satisfies
    [p], with the position at which it was found, or [None] for [undefined]. *)
Fixpoint findM {A} (p : A → result bool) (l : list A) (i : nat)
  : result (option (nat * A)) :=
  match l with
  | [] => Ok None
  | a :: l' => b ← p a; if b : bool then Ok (Some (i, a)) else findM p l' (S i)
  end.

(** ** Own properties *)

(** [o[k]] as an own-property lookup: [None] when [o] has no property [k]. *)
Fixpoint field (k : string) (o : props) : option value :=
  match o with
  | [] => None
  | (k', v) :: o' => if String.eqb k' k then Some v else field k o'
  end.

(** The value read from [o[k]]: [undefined] when the property is absent. *)
Definition own (o : props) (k : string) : value :=
  default VUndefined (field k o).

(** [o[k] = v]: overwrites the property in place, or adds it after the
    existing ones ([k] is never an array index in the modelled code). *)
Fixpoint set_field (k : string) (v : value) (o : props) : props :=
  match o with
  | [] => [(k, v)]
  | (k', v') :: o' =>
      if String.eqb k' k then (k', v) :: o' else (k', v') :: set_field k v o'
  end.

(** [delete o[k]]. *)
Fixpoint delete_field (k : string) (o : props) : props :=
  match o with
  | [] => []
  | (k', v') :: o' =>
      if String.eqb k' k then delete_field k o' else (k', v') :: delete_field k o'
  end.

(** The elements of an array as properties named by their indices, which
    start at [i]. *)
Fixpoint indexed_from (i : nat) (l : list value) : props :=
  match l with
  | [] => []
  | v :: l' => (pretty i, v) :: indexed_from (S i) l'
  end.
Definition indexed (l : list value) : props := indexed_from 0 l.

(** The characters of a string, each a string of length one. *)
Fixpoint chars (s : string) : list value :=
  match s with
  | EmptyString => []
  | String c s' => VStr (String c EmptyString) :: chars s'
  end.

(** The own enumerable properties of a value, in [Object.keys] order. *)
Definition own_entries (v : value) : props :=
  match v with
  | VObj o => o
  | VArr l => indexed l
  | VStr s => indexed (chars s)
  | _ => []
  end.

(** [Object.keys(v)]. *)
Definition Object_keys (v : value) : result (list string) :=
  match v with
  | VUndefined | VNull => Throw
  | _ => Ok (own_entries v).*1
  end.

(** [v[k]] and [v.k]. *)
Definition get (v : value) (k : string) : result value :=
  match v with
  | VUndefined | VNull => Throw
  | VObj o => Ok (own o k)
  | VArr l =>
      Ok (if String.eqb k "length" then VNum (Z.of_nat (length l))
          else own (indexed l) k)
  | VStr s =>
      Ok (if String.eqb k "length" then VNum (Z.of_nat (String.length s))
          else own (indexed (chars s)) k)
  | VBool _ | VNum _ => Ok VUndefined
  end.

(** [k in v]. *)
Definition has_property (k : string) (v : value) : result bool :=
  match v with
  | VObj o => Ok (bool_decide (is_Some (field k o)))
  | VArr l =>
      Ok (String.eqb k "length" || bool_decide (is_Some (field k (indexed l))))
  | _ => Throw
  end.

(** [v.k = x] in strict mode, for a name [k] that is not an array index: a
    primitive value takes no property, and an array with a named property is
    not a value of the model. *)
Definition set_prop (v : value) (k : string) (x : value) : result value :=
  match v with
  | VObj o => Ok (VObj (set_field k x o))
  | VArr _ => Stuck
  | _ => Throw
  end.

(** [delete v.k] in strict mode, for a name [k] that is not an array index
    and not [length]. *)
Definition delete_prop (v : value) (k : string) : result value :=
  match v with
  | VUndefined | VNull => Throw
  | VObj o => Ok (VObj (delete_field k o))
  | _ => Ok v
  end.

(** Truthiness, as tested by [!v], [v || w] and [if (v)]. *)
Definition truthy (v : value) : bool :=
  match v with
  | VUndefined | VNull => false
  | VBool b => b
  | VNum n => negb (n =? 0)
  | VStr s => negb (String.eqb s "")
  | VArr _ | VObj _ => true
  end.

(** [a === b].  Two objects or arrays are strictly equal when they are the
    same object; the code compares values of separately parsed documents, or
    a value with a string, so two objects are never the same. *)
Definition strict_eq (a b : value) : bool :=
  match a, b with
  | VUndefined, VUndefined | VNull, VNull => true
  | VBool x, VBool y => Bool.eqb x y
  | VNum x, VNum y => x =? y
  | VStr x, VStr y => String.eqb x y
  | _, _ => false
  end.

(** ** Entity Discovery *)

(** [{name: k, href: ...}]. *)
Record EntityDescriptor : Type := { name : string; href : value }.

(** The callback of [.then] in [collectEntities]. *)
Definition collectEntities_then (data : value) : result (list EntityDescriptor) :=
  has_links ← has_property "_links" data;
  if negb has_links then
    Exit 4 "Response does not contain _links element. Could not collect entities."
  else
    links ← get data "_links";
    keys ← Object_keys links;
    mapM (λ k, link ← get links k;
               h ← get link "href";
               Ok {| name := k; href := h |})
         (List.filter (λ k, negb (String.eqb k "self")) keys).

(** ** Schema Normalizer *)

(** [removeTrivialTitles(object)], returning [object] as the call leaves it.
    [removeTrivialTitles_property] is the body of the loop for one
    [property = object[key]].  The elements of an array are its properties;
    the characters of a string are primitive values, which the body of the
    loop reads without effect.  The two statements of the body touch
    different fields of [property]; the recursion comes first here, where it
    is structural, and [removeTrivialTitles_property_obj] below gives the body
    in the order of the source. *)
Fixpoint removeTrivialTitles (object : value) {struct object} : result value :=
  match object with
  | VUndefined | VNull => Throw
  | VObj fields =>
      VObj <$>
        (fix each (l : props) : result props :=
           match l with
           | [] => Ok []
           | (key, property) :: l' =>
               property' ← removeTrivialTitles_property property;
               rest ← each l';
               Ok ((key, property') :: rest)
           end) fields
  | VArr elems =>
      VArr <$>
        (fix each (l : list value) : result (list value) :=
           match l with
           | [] => Ok []
           | property :: l' =>
               property' ← removeTrivialTitles_property property;
               rest ← each l';
               Ok (property' :: rest)
           end) elems
  | VBool _ | VNum _ | VStr _ => Ok object
  end
with removeTrivialTitles_property (property : value) {struct property}
  : result value :=
  match property with
  | VUndefined | VNull => Throw
  | VObj fields =>
      (* [if (property.properties) removeTrivialTitles(property.properties)]:
         the value of the property [properties] is mutated where it is *)
      fields' ←
        (fix descend (l : props) : result props :=
           match l with
           | [] => Ok []
           | (k, v) :: l' =>
               if String.eqb k "properties" then
                 if truthy v then
                   v' ← removeTrivialTitles v; Ok ((k, v') :: l')
                 else Ok ((k, v) :: l')
               else rest ← descend l'; Ok ((k, v) :: rest)
           end) fields;
      (* [if (!property['$ref']) delete property.title] *)
      Ok (VObj (if truthy (own fields "$ref") then fields'
                else delete_field "title" fields'))
  | VBool _ | VNum _ | VStr _ | VArr _ => Ok property
  end.

(** The loops of [removeTrivialTitles] by name: over the properties of an
    object, over the elements of an array, and the step into
    [property.properties]. *)
Fixpoint removeTrivialTitles_props (l : props) : result props :=
  match l with
  | [] => Ok []
  | (key, property) :: l' =>
      property' ← removeTrivialTitles_property property;
      rest ← removeTrivialTitles_props l';
      Ok ((key, property') :: rest)
  end.

Fixpoint removeTrivialTitles_elems (l : list value) : result (list value) :=
  match l with
  | [] => Ok []
  | property :: l' =>
      property' ← removeTrivialTitles_property property;
      rest ← removeTrivialTitles_elems l';
      Ok (property' :: rest)
  end.

Fixpoint removeTrivialTitles_descend (l : props) : result props :=
  match l with
  | [] => Ok []
  | (k, v) :: l' =>
      if String.eqb k "properties" then
        if truthy v then
          v' ← removeTrivialTitles v; Ok ((k, v') :: l')
        else Ok ((k, v) :: l')
      else rest ← removeTrivialTitles_descend l'; Ok ((k, v) :: rest)
  end.

(** The options [noAdditionalProperties] and [noTrivialTypes], as the code
    tests them. *)
Record config : Type :=
  { noAdditionalProperties : bool; noTrivialTypes : bool }.

(** Locations of schema documents, and the heap that holds the documents. *)
Abbreviation loc := nat.
Abbreviation heap := (list props).

(** A statement that mutates the object at [l]. *)
Definition modify (h : heap) (l : loc) (f : props → result props) : result heap :=
  match h !! l with
  | None => Stuck
  | Some o => o' ← f o; Ok (<[l := o']> h)
  end.

(** [removeTrivialTitles(schema[key] || {})]: the value of [schema[key]] is
    mutated where it is; the object [{}] is a fresh one. *)
Definition removeTrivialTitles_of (key : string) (schema : props) : result props :=
  let object := own schema key in
  if truthy object then
    object' ← removeTrivialTitles object; Ok (set_field key object' schema)
  else
    _ ← removeTrivialTitles (VObj []); Ok schema.

(** The body of the loop of [preProcessSchemas] for one [schema]. *)
Definition preProcessSchemas_body (config : config) (schema : loc) (h : heap)
  : result heap :=
  h1 ← (if noAdditionalProperties config then
          modify h schema
            (λ o, Ok (set_field "additionalProperties" (VBool false) o))
        else Ok h);
  if noTrivialTypes config then
    h2 ← modify h1 schema (removeTrivialTitles_of "properties");
    modify h2 schema (removeTrivialTitles_of "definitions")
  else Ok h1.

Fixpoint preProcessSchemas (schemas : list loc) (config : config) (h : heap)
  : result heap :=
  match schemas with
  | [] => Ok h
  | schema :: rest =>
      h' ← preProcessSchemas_body config schema h;
      preProcessSchemas rest config h'
  end.

(** The mutations of one schema document by the body of the loop of
    [preProcessSchemas]. *)
Definition preProcessSchema (config : config) (schema : props) : result props :=
  let schema1 :=
    if noAdditionalProperties config
    then set_field "additionalProperties" (VBool false) schema
    else schema in
  if noTrivialTypes config then
    schema2 ← removeTrivialTitles_of "properties" schema1;
    removeTrivialTitles_of "definitions" schema2
  else Ok schema1.

(** The property that the keys [k1; ...; kn] name below the map [object]:
    [object[k1].properties[k2]. ... .properties[kn]]. *)
Fixpoint property_at (object : value) (path : list string) : option value :=
  match object, path with
  | VObj o, [k] => field k o
  | VObj o, k :: path' =>
      match field k o with
      | Some (VObj fields) => p ← field "properties" fields; property_at p path'
      | _ => None
      end
  | _, _ => None
  end.

(** ** Reference Resolver *)

(** [s.lastIndexOf(c)] for a character [c]: [-1] when [c] does not occur. *)
Fixpoint lastIndexOf_from (c : Ascii.ascii) (s : string) (i last : Z) : Z :=
  match s with
  | EmptyString => last
  | String a s' =>
      lastIndexOf_from c s' (i + 1) (if Ascii.eqb a c then i else last)
  end.
Definition lastIndexOf (c : Ascii.ascii) (s : string) : Z :=
  lastIndexOf_from c s 0 (-1).

(** [s.substr(start, length)] for [0 <= start]: a negative [length] gives the
    empty string. *)
Definition substr (s : string) (start length : Z) : string :=
  String.substring (Z.to_nat start) (Z.to_nat length) s.

(** [referencedHref.substr(0, referencedHref.lastIndexOf('#'))]: only a
    string has the method [substr]. *)
Definition strip_fragment (referencedHref : value) : result string :=
  match referencedHref with
  | VStr s => Ok (substr s 0 (lastIndexOf "#"%char s))
  | _ => Throw
  end.

(** [array.find(p)] on a value of a document: only an array has the method
    [find]; the result is [undefined] when no element satisfies [p]. *)
Definition array_find (p : value → result bool) (array : value) : result value :=
  match array with
  | VArr l =>
      found ← findM p l 0;
      Ok (match found with Some (_, d) => d | None => VUndefined end)
  | _ => Throw
  end.

(** [array.indexOf(x)] for the result [x] of [array.find]: the position of
    the object that was found ([find] stops at the first position that holds
    it), and [-1] for [undefined]. *)
Definition indexOf_found {A} (found : option (nat * A)) : Z :=
  match found with
  | Some (i, _) => Z.of_nat i
  | None => -1
  end.

(** [array[i]]: [None] for [undefined]. *)
Definition array_at {A} (array : list A) (i : Z) : option A :=
  if i <? 0 then None else array !! Z.to_nat i.

(** [for (x of l) st = f(st, x)] and [l.forEach(...)] where the body may
    throw. *)
Fixpoint foldM {A S} (f : S → A → result S) (st : S) (l : list A) : result S :=
  match l with
  | [] => Ok st
  | a :: l' => st' ← f st a; foldM f st' l'
  end.

(** [property.type === 'string' && property.format === 'uri']. *)
Definition is_uri_string (property : value) : result bool :=
  type ← get property "type";
  if strict_eq type (VStr "string") then
    format ← get property "format"; Ok (strict_eq format (VStr "uri"))
  else Ok false.

(** The container [properties] with the object [properties[k]] in the state
    [property]. *)
Definition put_entry (properties : value) (k : string) (property : value) : value :=
  match properties with
  | VObj o => VObj (set_field k property o)
  | VArr l => VArr (set_field k property (indexed l)).*2
  | _ => properties
  end.

(** A statement that mutates the object [property = properties[k]], where
    [properties = schema.properties]: the mutation is one of the schema in
    the heap. *)
Definition modify_property (h : heap) (schema : loc) (k : string)
    (f : value → result value) : result heap :=
  modify h schema (λ s,
    let properties := own s "properties" in
    property ← get properties k;
    property' ← f property;
    Ok (set_field "properties" (put_entry properties k property') s)).

(** [entities.find(e => e.href === referencedHref)] for the [referencedHref]
    that the descriptor named [k] gives:
    [entityDescriptors.find(d => d.name === k).rt], cut before its last [#]. *)
Definition referencedEntity_of (entityDescriptors : value)
    (entities : list EntityDescriptor) (k : string)
  : result (option (nat * EntityDescriptor)) :=
  d ← array_find (λ d, n ← get d "name"; Ok (strict_eq n (VStr k)))
         entityDescriptors;
  referencedHref ← get d "rt";
  referencedHref ← strip_fragment referencedHref;
  findM (λ e, Ok (strict_eq (href e) (VStr referencedHref))) entities 0.

(** The callback of [relevantPropertyNames.forEach]; the state is the heap
    and the array [referencedSchemas]. *)
Definition resolve_property (entityDescriptors : value) (schema : loc)
    (entities : list EntityDescriptor) (schemas : list loc)
    (st : heap * list loc) (k : string) : result (heap * list loc) :=
  let '(h, referencedSchemas) := st in
  (* property.type = 'object'; delete property.format; *)
  h ← modify_property h schema k (λ property,
         property ← set_prop property "type" (VStr "object");
         delete_prop property "format");
  referencedEntity ← referencedEntity_of entityDescriptors entities k;
  (* schemas[entities.indexOf(referencedEntity)] *)
  let referencedSchema := array_at schemas (indexOf_found referencedEntity) in
  (* property.title = referencedSchema.title; *)
  match referencedSchema with
  | None => Throw
  | Some referencedSchema =>
      match h !! referencedSchema with
      | None => Stuck
      | Some o =>
          h ← modify_property h schema k (λ property,
                 set_prop property "title" (own o "title"));
          Ok (h, if decide (referencedSchema ≠ schema)
                 then (referencedSchemas ++ [referencedSchema])%list
                 else referencedSchemas)
      end
  end.

(** [response.data.alps.descriptors.find(d => d.href === entity.href).descriptors]. *)
Definition entityDescriptors_of (data : value) (entity : EntityDescriptor)
  : result value :=
  alps ← get data "alps";
  descriptors ← get alps "descriptors";
  found ← array_find (λ d, dh ← get d "href"; Ok (strict_eq dh (href entity)))
             descriptors;
  get found "descriptors".

(** [Object.keys(properties).filter(k => properties[k].type === 'string' &&
    properties[k].format === 'uri')]. *)
Definition relevantPropertyNames_of (properties : value) : result (list string) :=
  keys ← Object_keys properties;
  filterM (λ k, property ← get properties k; is_uri_string property) keys.

(** The callback of [.then] in [resolveUrlStringReferences]. *)
Definition resolveUrlStringReferences_then (data : value)
    (entity : EntityDescriptor) (schema : loc)
    (entities : list EntityDescriptor) (schemas : list loc) (h : heap)
  : result (heap * list loc) :=
  entityDescriptors ← entityDescriptors_of data entity;
  match h !! schema with
  | None => Stuck
  | Some s =>
      relevantPropertyNames ← relevantPropertyNames_of (own s "properties");
      foldM (resolve_property entityDescriptors schema entities schemas)
            (h, []) relevantPropertyNames
  end.

(** The fields of a property after the callback of [forEach], when the
    referenced schema has the title [title]. *)
Definition resolved_property (title : value) (fields : props) : props :=
  set_field "title" title
    (delete_field "format" (set_field "type" (VStr "object") fields)).

(** [schemas[entities.indexOf(referencedEntity)]] for the property [k]:
    [None] when a lookup on the way fails. *)
Definition referencedSchema_of (entityDescriptors : value)
    (entities : list EntityDescriptor) (schemas : list loc) (k : string)
  : option loc :=
  match referencedEntity_of entityDescriptors entities k with
  | Ok found => array_at schemas (indexOf_found found)
  | _ => None
  end.

(** The heap [h] after mutations that leave the schema [s] at [schema] with
    the value [properties] of [schema.properties]. *)
Definition heap_with_properties (h : heap) (schema : loc) (s : props)
    (properties : value) : heap :=
  <[schema := set_field "properties" properties s]> h.

(** A run that completes or throws: it does not end the process and is not
    stuck. *)
Definition returns_or_throws {A} (r : result A) : Prop :=
  match r with
  | Ok _ | Throw => True
  | Exit _ _ | Stuck => False
  end.

(** ** The requests *)

Section Http.
(** The upstream server and the network: [axios_get w url accept] is
    [axiosInstance.get(url, {headers: {'Accept': accept}})] issued in the
    state [w]; the promise is fulfilled with [response.data] or rejected. *)
Context {world : Type}.
Variable axios_get : world → value → option string → world * option value.

Definition collectEntities (w : world) : world * result (list EntityDescriptor) :=
  let '(w', response) := axios_get w (VStr "profile") None in
  (w', match response with
       | Some data =>
           catch (collectEntities_then data)
                 (Exit 3 "Collecting entities failed.")
       | None => Exit 3 "Collecting entities failed."
       end).

(** The loop of [collectSchemas]; [schemas] is the array built so far. *)
Fixpoint collectSchemas_loop (w : world) (entities : list EntityDescriptor)
    (schemas : list value) : world * result (list value) :=
  match entities with
  | [] => (w, Ok schemas)
  | entity :: rest =>
      let '(w', response) :=
        axios_get w (href entity) (Some "application/schema+json") in
      match response with
      | Some data => collectSchemas_loop w' rest (schemas ++ [data])%list
      | None =>
          (w', Exit 4 ("Could not collect schema for '" +:+ name entity +:+ "'."))
      end
  end.

Definition collectSchemas (w : world) (entities : list EntityDescriptor)
  : world * result (list value) :=
  collectSchemas_loop w entities [].

Definition resolveUrlStringReferences (w : world) (entity : EntityDescriptor)
    (schema : loc) (entities : list EntityDescriptor) (schemas : list loc) (h : heap)
  : world * result (heap * list loc) :=
  let '(w', response) :=
    axios_get w (href entity) (Some "application/alps+json") in
  let failed :=
    Exit 4 ("Could not collect schema references for '" +:+ name entity +:+ "'.") in
  (w', match response with
       | Some data =>
           catch (resolveUrlStringReferences_then
                    data entity schema entities schemas h) failed
       | None => failed
       end).

(** The requests of a run of the collector, one after the other: [ws] are
    the states of the server before, between and after the requests; the
    request number [i] goes to the [href] of the entity number [i] and is
    fulfilled with the document number [i] of [schemas]. *)
Definition fetched_in_order (w : world) (entities : list EntityDescriptor)
    (ws : list world) (schemas : list value) (w' : world) : Prop :=
  length ws = S (length entities) ∧
  ws !! 0%nat = Some w ∧
  ws !! length entities = Some w' ∧
  length schemas = length entities ∧
  ∀ (i : nat) entity, entities !! i = Some entity →
    ∃ wi wi' data,
      ws !! i = Some wi ∧ ws !! S i = Some wi' ∧
      axios_get wi (href entity) (Some "application/schema+json")
        = (wi', Some data) ∧
      schemas !! i = Some data.
End Http.

(** ** Further notions for the Normalizer and the Resolver *)

(** A value that holds no [null] and no [undefined], at any depth. *)
Fixpoint null_free (v : value) : bool :=
  match v with
  | VUndefined | VNull => false
  | VBool _ | VNum _ | VStr _ => true
  | VArr elems =>
      (fix all (l : list value) : bool :=
         match l with
         | [] => true
         | e :: l' => null_free e && all l'
         end) elems
  | VObj fields =>
      (fix all (l : props) : bool :=
         match l with
         | [] => true
         | (_, e) :: l' => null_free e && all l'
         end) fields
  end.

Fixpoint null_free_props (l : props) : bool :=
  match l with
  | [] => true
  | (_, e) :: l' => null_free e && null_free_props l'
  end.

Fixpoint null_free_elems (l : list value) : bool :=
  match l with
  | [] => true
  | e :: l' => null_free e && null_free_elems l'
  end.

(** The character [c] occurs in [s]. *)
Fixpoint occurs (c : Ascii.ascii) (s : string) : bool :=
  match s with
  | EmptyString => false
  | String a s' => Ascii.eqb a c || occurs c s'
  end.

(** ** Authentication *)

(** The command line options that the login reads. *)
Record options : Type :=
  { authMethod : value;
    authEndpoint : value;
    username : value;
    password : value;
    oauthFlow : value;
    clientId : value;
    clientPassword : value }.

Section Login.
(** [axios_post w url data config] is [axiosInstance.post(url, data, config)]
    issued in the state [w], fulfilled with [response.data] or rejected;
    [config] is [undefined] when the call gives none.  [qs_stringify] is
    [qs.stringify] of the library qs, applied to an object literal.
    [set_authorization w v] is the state after
    [axiosInstance.defaults.headers.common['Authorization'] = v]. *)
Context {world : Type}.
Variable axios_get : world → value → option string → world * option value.
Variable axios_post : world → value → value → value → world * option value.
Variable qs_stringify : props → string.
Variable set_authorization : world → value → world.

(** The promise that [authenticateWithCookies] returns. *)
Definition authenticateWithCookies (w : world)
    (authEndpoint username password : value) : world * option value :=
  axios_post w authEndpoint
    (VStr (qs_stringify [("username", username); ("password", password)]))
    VUndefined.

(** The promise that [authenticateWithOAuth2] returns, [None] when it returns
    [undefined]: the [switch] has the one case ['PASSWORD']. *)
Definition authenticateWithOAuth2 (w : world)
    (flow authEndpoint username password client clientPassword : value)
  : option (world * option value) :=
  if strict_eq flow (VStr "PASSWORD") then
    Some (axios_post w authEndpoint
            (VStr (qs_stringify [("grant_type", VStr "password");
                                 ("username", username);
                                 ("password", password);
                                 ("client_id", client);
                                 ("client_secret", clientPassword)]))
            (VObj [("headers",
                    VObj [("Content-Type",
                           VStr "application/x-www-form-urlencoded")]);
                   ("auth", VObj [("username", client);
                                  ("password", clientPassword)])]))
  else None.

(** [await doLogin(options)]: [Throw] when [doLogin] throws or the promise it
    returns is rejected.  Without a matching [case] the function returns
    [undefined], and [undefined.then] throws. *)
Definition doLogin (w : world) (options : options) : world * result unit :=
  if strict_eq (authMethod options) (VStr "COOKIE") then
    let '(w', response) :=
      authenticateWithCookies w (authEndpoint options) (username options)
        (password options) in
    (w', match response with Some _ => Ok tt | None => Throw end)
  else if strict_eq (authMethod options) (VStr "OAUTH2") then
    match authenticateWithOAuth2 w (oauthFlow options) (authEndpoint options)
            (username options) (password options) (clientId options)
            (clientPassword options) with
    | None => (w, Throw)
    | Some (w', None) => (w', Throw)
    | Some (w', Some data) =>
        match get data "access_token" with
        | Ok access_token => (set_authorization w' access_token, Ok tt)
        | _ => (w', Throw)
        end
    end
  else (w, Ok tt).

(** [doGenerate] up to the collection of the schemas, that is, before it
    creates the output directories: the login, [collectEntities] and
    [collectSchemas]. *)
Definition doGenerate_collect (w : world) (options : options)
  : world * result (list EntityDescriptor * list value) :=
  let '(w1, login) :=
    if negb (strict_eq (authMethod options) (VStr "NONE")) then
      let '(w1, login) := doLogin w options in
      (w1, catch login (Exit 5 "Authentication failed."))
    else (w, Ok tt) in
  match login with
  | Ok _ =>
      let '(w2, collected) := collectEntities axios_get w1 in
      match collected with
      | Ok entities =>
          let '(w3, jsonSchemas) := collectSchemas axios_get w2 entities in
          (w3, (λ schemas, (entities, schemas)) <$> jsonSchemas)
      | Throw => (w2, Throw)
      | Exit code stderr => (w2, Exit code stderr)
      | Stuck => (w2, Stuck)
      end
  | Throw => (w1, Throw)
  | Exit code stderr => (w1, Exit code stderr)
  | Stuck => (w1, Stuck)
  end.
End Login.

(** A value without its [title] members: the property [title] is removed
    from every object, at any depth. *)
Fixpoint erase_titles (v : value) : value :=
  match v with
  | VArr elems =>
      VArr ((fix each (l : list value) : list value :=
               match l with
               | [] => []
               | e :: l' => erase_titles e :: each l'
               end) elems)
  | VObj fields =>
      VObj ((fix each (l : props) : props :=
               match l with
               | [] => []
               | (k, e) :: l' =>
                   if String.eqb k "title" then each l'
                   else (k, erase_titles e) :: each l'
               end) fields)
  | _ => v
  end.

Fixpoint erase_titles_props (l : props) : props :=
  match l with
  | [] => []
  | (k, e) :: l' =>
      if String.eqb k "title" then erase_titles_props l'
      else (k, erase_titles e) :: erase_titles_props l'
  end.

Fixpoint erase_titles_elems (l : list value) : list value :=
  match l with
  | [] => []
  | e :: l' => erase_titles e :: erase_titles_elems l'
  end.

(** ** Positions in a document *)

(** The member [k] of a value: an own property of an object, an element of
    an array. *)
Definition member (v : value) (k : string) : option value :=
  match v with
  | VObj o => field k o
  | VArr l => field k (indexed l)
  | _ => None
  end.

(** The value that the keys and indices of [path] lead to, from [v]. *)
Fixpoint value_at (v : value) (path : list string) : option value :=
  match path with
  | [] => Some v
  | k :: path' => c ← member v k; value_at c path'
  end.

(** Where a position lies with respect to the descent of
    [removeTrivialTitles]: it is a map that the loop iterates over; or a
    member of such a map, a property that the loop visits; or the [title] of
    such a property, or below it; or it lies elsewhere, where the descent
    does not come. *)
Inductive position : Type :=
| Map
| Property
| Title
| Elsewhere.

(** The position that [path] leads to, from a map that the loop iterates
    over when [in_map] is set, from a property that it visits otherwise: the
    loop visits the members of the map, and goes on with the [properties] of
    a member. *)
Fixpoint position_of (in_map : bool) (path : list string) : position :=
  match path with
  | [] => if in_map then Map else Property
  | k :: path' =>
      if in_map then position_of false path'
      else if String.eqb k "title" then Title
      else if String.eqb k "properties" then position_of true path'
      else Elsewhere
  end.

(** The position that [path] leads to from a schema: [preProcessSchemas]
    iterates over the [properties] and the [definitions] of the schema. *)
Definition position_in_schema (path : list string) : position :=
  match path with
  | [] => Elsewhere
  | k :: path' =>
      if String.eqb k "properties" || String.eqb k "definitions"
      then position_of true path'
      else Elsewhere
  end.

(** ** The first element of a list with a property *)

(** [a], at the position [i], is the first element of [l] that satisfies
    [P]: what [l.find(P)] designates. *)
Definition first_such {A} (P : A → Prop) (l : list A) (i : nat) (a : A) : Prop :=
  l !! i = Some a ∧ P a ∧
  ∀ (i' : nat) a', (i' < i)%nat → l !! i' = Some a' → ¬ P a'.

(** ** Example documents *)

(** The scenario of the specification: the entities [books] and [authors]. *)
Definition example_profile : value :=
  VObj [("_links",
         VObj [("self", VObj [("href", VStr "/api")]);
               ("books", VObj [("href", VStr "/api/books")]);
               ("authors", VObj [("href", VStr "/api/authors")])])].

Definition example_entities : list EntityDescriptor :=
  [ {| name := "books"; href := VStr "/api/books" |};
    {| name := "authors"; href := VStr "/api/authors" |} ].

Definition example_books_properties : props :=
  [("name", VObj [("title", VStr "Name"); ("type", VStr "string")]);
   ("author", VObj [("title", VStr "Author"); ("type", VStr "string");
                    ("format", VStr "uri")]);
   ("editor", VObj [("type", VStr "string"); ("format", VStr "uri")]);
   ("sequel", VObj [("type", VStr "string"); ("format", VStr "uri")])].

Definition example_books : props :=
  [("title", VStr "Book"); ("type", VStr "object");
   ("properties", VObj example_books_properties)].

Definition example_authors : props :=
  [("title", VStr "Author"); ("type", VStr "object");
   ("properties",
    VObj [("name", VObj [("title", VStr "Name"); ("type", VStr "string")])])].

Definition example_alps_books : value :=
  VObj [("alps",
         VObj [("version", VStr "1.0");
               ("descriptors",
                VArr [VObj [("id", VStr "book-representation");
                            ("href", VStr "/api/books");
                            ("descriptors",
                             VArr [VObj [("name", VStr "name")];
                                   VObj [("name", VStr "author");
                                         ("rt", VStr "/api/authors#author-representation")];
                                   VObj [("name", VStr "editor");
                                         ("rt", VStr "/api/authors#author-representation")];
                                   VObj [("name", VStr "sequel");
                                         ("rt", VStr "/api/books#book-representation")]])]])])].

(** The answer for [authors] names the entity with a trailing slash. *)
Definition example_alps_authors : value :=
  VObj [("alps",
         VObj [("version", VStr "1.0");
               ("descriptors",
                VArr [VObj [("id", VStr "author-representation");
                            ("href", VStr "/api/authors/");
                            ("descriptors",
                             VArr [VObj [("name", VStr "name")]])]])])].

(** A server that answers the requests of the scenario and rejects every
    other one; it has no state. *)
Definition example_server (w : unit) (url : value) (accept : option string)
  : unit * option value :=
  (w, match url, accept with
      | VStr u, None =>
          if String.eqb u "profile" then Some example_profile else None
      | VStr u, Some a =>
          if String.eqb a "application/schema+json" then
            if String.eqb u "/api/books" then Some (VObj example_books)
            else if String.eqb u "/api/authors" then Some (VObj example_authors)
            else None
          else if String.eqb a "application/alps+json" then
            if String.eqb u "/api/books" then Some example_alps_books
            else if String.eqb u "/api/authors" then Some example_alps_authors
            else None
          else None
      | _, _ => None
      end).


Definition example_books_entity : EntityDescriptor :=
  {| name := "books"; href := VStr "/api/books" |}.

Definition example_authors_entity : EntityDescriptor :=
  {| name := "authors"; href := VStr "/api/authors" |}.

(** The schema of [books] after its references are resolved. *)
Definition example_books_resolved : props :=
  [("title", VStr "Book"); ("type", VStr "object");
   ("properties",
    VObj [("name", VObj [("title", VStr "Name"); ("type", VStr "string")]);
          ("author", VObj [("title", VStr "Author"); ("type", VStr "object")]);
          ("editor", VObj [("type", VStr "object"); ("title", VStr "Author")]);
          ("sequel", VObj [("type", VStr "object"); ("title", VStr "Book")])])].

(** Schemas for the Normalizer: a property whose [$ref] is the empty string,
    a property with a reference, and a definition with nested properties. *)
Definition example_empty_ref : props :=
  [("properties",
    VObj [("owner", VObj [("$ref", VStr ""); ("title", VStr "Owner")])])].

Definition example_with_ref : props :=
  [("title", VStr "Pet");
   ("properties",
    VObj [("name", VObj [("title", VStr "Name"); ("type", VStr "string")]);
          ("owner", VObj [("$ref", VStr "#/definitions/person");
                          ("title", VStr "Owner")])])].


Definition strip_titles : config :=
  {| noAdditionalProperties := false; noTrivialTypes := true |}.

(** ** Further example documents *)

(** The links of [example_profile]. *)
Definition example_links : props :=
  [("self", VObj [("href", VStr "/api")]);
   ("books", VObj [("href", VStr "/api/books")]);
   ("authors", VObj [("href", VStr "/api/authors")])].

(** A schema with a property whose schema is [null]. *)
Definition example_null_property : props :=
  [("title", VStr "Pet"); ("properties", VObj [("name", VNull)])].

Definition no_additional : config :=
  {| noAdditionalProperties := true; noTrivialTypes := false |}.

(** The schema of [authors] after the Normalizer has stripped its titles. *)
Definition example_authors_stripped : props :=
  [("title", VStr "Author"); ("type", VStr "object");
   ("properties", VObj [("name", VObj [("type", VStr "string")])])].

(** The affordance descriptors of [books], where the [rt] of [author] has no
    fragment. *)
Definition example_alps_no_fragment : value :=
  VObj [("alps",
         VObj [("descriptors",
                VArr [VObj [("href", VStr "/api/books");
                            ("descriptors",
                             VArr [VObj [("name", VStr "name")];
                                   VObj [("name", VStr "author");
                                         ("rt", VStr "/api/authors")]])]])])].

(** The descriptors that [example_alps_books] lists for [books]. *)
Definition example_books_descriptors : value :=
  VArr [VObj [("name", VStr "name")];
        VObj [("name", VStr "author");
              ("rt", VStr "/api/authors#author-representation")];
        VObj [("name", VStr "editor");
              ("rt", VStr "/api/authors#author-representation")];
        VObj [("name", VStr "sequel");
              ("rt", VStr "/api/books#book-representation")]].

(** A login over OAuth2, and a token endpoint that answers every request to
    [/oauth/token] with the same token. *)
Definition example_options : options :=
  {| authMethod := VStr "OAUTH2";
     authEndpoint := VStr "/oauth/token";
     username := VStr "alice";
     password := VStr "secret";
     oauthFlow := VStr "PASSWORD";
     clientId := VStr "app";
     clientPassword := VStr "app-secret" |}.

Definition example_options_implicit : options :=
  {| authMethod := VStr "OAUTH2";
     authEndpoint := VStr "/oauth/token";
     username := VStr "alice";
     password := VStr "secret";
     oauthFlow := VStr "IMPLICIT";
     clientId := VStr "app";
     clientPassword := VStr "app-secret" |}.

Definition example_options_basic : options :=
  {| authMethod := VStr "BASIC";
     authEndpoint := VStr "/login";
     username := VStr "alice";
     password := VStr "secret";
     oauthFlow := VUndefined;
     clientId := VUndefined;
     clientPassword := VUndefined |}.

Definition example_token_endpoint (w : unit) (url data config : value)
  : unit * option value :=
  (w, match url with
      | VStr u =>
          if String.eqb u "/oauth/token"
          then Some (VObj [("access_token", VStr "t0k3n")])
          else None
      | _ => None
      end).

(** A form encoding of an object literal with string values. *)
Fixpoint example_qs_stringify (o : props) : string :=
  match o with
  | [] => ""
  | (k, v) :: rest =>
      let pair := k +:+ "=" +:+ match v with VStr s => s | _ => "" end in
      match rest with
      | [] => pair
      | _ => pair +:+ "&" +:+ example_qs_stringify rest
      end
  end.

Definition example_set_authorization (w : unit) (v : value) : unit := w.

(** A schema with a reference below [items], and one whose [properties] is
    an array. *)
Definition example_items_ref : props :=
  [("title", VStr "Shelter");
   ("properties",
    VObj [("pets",
           VObj [("title", VStr "Pets"); ("type", VStr "array");
                 ("items",
                  VObj [("type", VStr "object");
                        ("properties",
                         VObj [("owner",
                                VObj [("$ref", VStr "#/definitions/person");
                                      ("title", VStr "Owner")])])])])])].

Definition example_items_ref_stripped : props :=
  [("title", VStr "Shelter");
   ("properties",
    VObj [("pets",
           VObj [("type", VStr "array");
                 ("items",
                  VObj [("type", VStr "object");
                        ("properties",
                         VObj [("owner",
                                VObj [("$ref", VStr "#/definitions/person");
                                      ("title", VStr "Owner")])])])])])].




(** * Properties *)

(** ** Outcomes *)

Lemma bind_Ok {A B} (m : result A) (f : A → result B) b :
  m ≫= f = Ok b ↔ ∃ a, m = Ok a ∧ f a = Ok b.
Proof.
  destruct m; simpl; split; try done; try (by intros (? & ? & ?)).
  - eauto.
  - by intros (? & [= ->] & ?).
Qed.

Lemma fmap_Ok {A B} (m : result A) (f : A → B) b :
  f <$> m = Ok b ↔ ∃ a, m = Ok a ∧ b = f a.
Proof.
  destruct m; simpl; split; try done; try (by intros (? & ? & ?)).
  - intros [= <-]. eauto.
  - by intros (? & [= ->] & ->).
Qed.

(** ** Own properties *)

Lemma field_set_field_eq k v o : field k (set_field k v o) = Some v.
Proof.
  induction o as [|[k' v'] o IH]; simpl.
  - by rewrite String.eqb_refl.
  - destruct (String.eqb_spec k' k) as [->|Hne]; simpl.
    + by rewrite String.eqb_refl.
    + by destruct (String.eqb_spec k' k).
Qed.

Lemma field_set_field_ne k k' v o :
  k ≠ k' → field k' (set_field k v o) = field k' o.
Proof.
  intros Hne. induction o as [|[k0 v0] o IH]; simpl.
  - by destruct (String.eqb_spec k k').
  - destruct (String.eqb_spec k0 k) as [->|Hne0]; simpl.
    + by destruct (String.eqb_spec k k').
    + by rewrite IH.
Qed.

Lemma field_delete_field_eq k o : field k (delete_field k o) = None.
Proof.
  induction o as [|[k' v'] o IH]; simpl; [done|].
  destruct (String.eqb_spec k' k) as [->|Hne]; simpl; [done|].
  by destruct (String.eqb_spec k' k).
Qed.

Lemma field_delete_field_ne k k' o :
  k ≠ k' → field k' (delete_field k o) = field k' o.
Proof.
  intros Hne. induction o as [|[k0 v0] o IH]; simpl; [done|].
  destruct (String.eqb_spec k0 k) as [->|Hne0]; simpl.
  - by destruct (String.eqb_spec k k').
  - by rewrite IH.
Qed.

Lemma field_Some_elem k v o : field k o = Some v → (k, v) ∈ o.
Proof.
  induction o as [|[k' v'] o IH]; simpl; [done|].
  destruct (String.eqb_spec k' k) as [->|Hne].
  - intros [= ->]. left.
  - intros Hf. right. auto.
Qed.

Lemma field_is_Some_key k o : k ∈ o.*1 → is_Some (field k o).
Proof.
  induction o as [|[k' v'] o IH]; simpl.
  - by intros ?%elem_of_nil.
  - intros Hin. destruct (String.eqb_spec k' k) as [->|Hne]; [eauto|].
    apply IH. by apply elem_of_cons in Hin as [->|Hin].
Qed.

(** ** Schema Normalizer: the identity *)

(** C10. With both configuration flags false, [preProcessSchemas] leaves the
    heap, and so every schema document, as it is: nothing is added, removed
    or rewritten. *)
Theorem preProcessSchemas_flags_off (schemas : list loc) (h : heap) :
  preProcessSchemas schemas
    {| noAdditionalProperties := false; noTrivialTypes := false |} h = Ok h.
Proof.
  induction schemas as [|schema rest IH]; simpl; [done|].
  unfold preProcessSchemas_body; simpl. exact IH.
Qed.

(** ** Entity Discovery *)

Lemma filter_keys (p : string → bool) (links : props) :
  List.filter p links.*1 = (List.filter (λ kv, p kv.1) links).*1.
Proof.
  induction links as [|[k v] links IH]; csimpl; [done|].
  destruct (p k); csimpl; by rewrite IH.
Qed.

Lemma collect_links (links : props) (keys : list string) :
  Forall (λ kv, kv.2 ≠ VNull ∧ kv.2 ≠ VUndefined) links →
  keys ⊆ links.*1 →
  ∃ entities,
    mapM (λ k, link ← get (VObj links) k;
               h ← get link "href";
               Ok {| name := k; href := h |}) keys = Ok entities ∧
    name <$> entities = keys ∧
    ∀ (i : nat) e, entities !! i = Some e →
      ∃ link, field (name e) links = Some link ∧ get link "href" = Ok (href e).
Proof.
  intros Hlinks. induction keys as [|k keys IH]; intros Hsub.
  - exists []. split_and!; [done..|]. intros i e. by rewrite lookup_nil.
  - destruct IH as (entities & Hmap & Hnames & Hhrefs).
    { intros x Hx. apply Hsub. by right. }
    assert (is_Some (field k links)) as [link Hlink].
    { apply field_is_Some_key, Hsub. left. }
    assert (∃ x, get link "href" = Ok x) as [x Hx].
    { apply field_Some_elem in Hlink.
      rewrite Forall_forall in Hlinks. destruct (Hlinks _ Hlink) as [Hn Hu].
      destruct link; simpl in *; eauto; done. }
    exists ({| name := k; href := x |} :: entities). split_and!.
    + cbn [mapM]. rewrite Hmap. simpl. unfold own. rewrite Hlink. simpl.
      by rewrite Hx.
    + csimpl. by rewrite Hnames.
    + intros [|i] e; simpl.
      * intros [= <-]. simpl. eauto.
      * apply Hhrefs.
Qed.

(** C4. For a profile document whose [_links] is a mapping of relation
    names to links, [collectEntities] produces one EntityDescriptor per link
    whose relation name is not [self]: as many descriptors as there are such
    links, named by the relation names in the order of the document, each
    with the [href] of its link. *)
Theorem collectEntities_non_self_links {world : Type}
    (axios_get : world → value → option string → world * option value)
    (w w' : world) (o links : props) :
  axios_get w (VStr "profile") None = (w', Some (VObj o)) →
  field "_links" o = Some (VObj links) →
  Forall (λ kv, kv.2 ≠ VNull ∧ kv.2 ≠ VUndefined) links →
  ∃ entities,
    collectEntities axios_get w = (w', Ok entities) ∧
    length entities
      = length (List.filter (λ kv, negb (String.eqb kv.1 "self")) links) ∧
    name <$> entities
      = (List.filter (λ kv, negb (String.eqb kv.1 "self")) links).*1 ∧
    ∀ (i : nat) e, entities !! i = Some e →
      ∃ link, field (name e) links = Some link ∧ get link "href" = Ok (href e).
Proof.
  intros Hget Hlinks Hwf.
  destruct (collect_links links
              (List.filter (λ k, negb (String.eqb k "self")) links.*1) Hwf)
    as (entities & Hmap & Hnames & Hhrefs).
  { intros k Hk. apply list_elem_of_In, filter_In in Hk as [Hk _].
    by apply list_elem_of_In. }
  rewrite filter_keys in Hnames.
  exists entities. split_and!; [| | done..].
  2: { by rewrite <- (length_fmap name), Hnames, length_fmap. }
  unfold collectEntities. rewrite Hget. f_equal.
  assert (has_property "_links" (VObj o) = Ok true) as Hhas.
  { simpl. by rewrite Hlinks. }
  assert (get (VObj o) "_links" = Ok (VObj links)) as Hget_links.
  { simpl. unfold own. by rewrite Hlinks. }
  unfold collectEntities_then. rewrite Hhas. cbn [mbind result_bind negb].
  rewrite Hget_links. cbn [mbind result_bind Object_keys own_entries].
  by rewrite Hmap.
Qed.

(** ** Schema Collector *)

Section CollectorProperties.
Context {world : Type}.
Variable axios_get : world → value → option string → world * option value.

Lemma collectSchemas_loop_fetched w entities acc w' schemas :
  collectSchemas_loop axios_get w entities acc = (w', Ok schemas) ↔
  ∃ ws ds, schemas = (acc ++ ds)%list ∧
           fetched_in_order axios_get w entities ws ds w'.
Proof.
  revert w acc. induction entities as [|e rest IH]; intros w acc; simpl.
  - split.
    + intros [= <- <-]. exists [w], []. rewrite app_nil_r.
      split; [done|]. by split_and!.
    + intros (ws & ds & -> & Hlen & H0 & Hn & Hds & _). simpl in *.
      destruct ds; [|done]. rewrite app_nil_r. congruence.
  - destruct (axios_get w (href e) (Some "application/schema+json"))
      as [w1 [data|]] eqn:Hreq.
    + rewrite IH. split.
      * intros (ws & ds & -> & Hlen & H0 & Hn & Hds & Hall).
        exists (w :: ws), (data :: ds). split; [by rewrite <- app_assoc|].
        split_and!; simpl; try done; try congruence.
        intros [|i] entity; simpl.
        -- intros [= <-]. exists w, w1, data. by split_and!.
        -- apply Hall.
      * intros (ws & ds & -> & Hlen & H0 & Hn & Hds & Hall).
        destruct (Hall 0%nat e eq_refl) as (wi & wi' & d0 & Hwi & Hwi' & Hreq' & Hd0).
        destruct ws as [|x ws]; [done|]. destruct ds as [|d ds]; [done|].
        simpl in *. simplify_eq.
        assert (wi' = w1 ∧ d0 = data) as [-> ->] by (split; congruence).
        exists ws, ds. split; [by rewrite <- app_assoc|].
        split_and!; try done; try congruence.
        intros i entity Hi. apply (Hall (S i) entity Hi).
    + split; [done|].
      intros (ws & ds & -> & Hlen & H0 & Hn & Hds & Hall).
      destruct (Hall 0%nat e eq_refl) as (wi & wi' & d0 & Hwi & Hwi' & Hreq' & Hd0).
      congruence.
Qed.

(** C3. [collectSchemas] returns a list of schemas exactly when the
    requests, issued one after the other to the [href] of each entity in
    the order of the input list, all succeed; the list returned then has
    the length of the entity list, and the schema at index [i] is the
    document fetched from the [href] of the entity at index [i]. *)
Theorem collectSchemas_positional w entities w' schemas :
  collectSchemas axios_get w entities = (w', Ok schemas) ↔
  ∃ ws, fetched_in_order axios_get w entities ws schemas w'.
Proof.
  unfold collectSchemas. rewrite collectSchemas_loop_fetched. split.
  - intros (ws & ds & -> & Hfetched). eauto.
  - intros (ws & Hfetched). by exists ws, schemas.
Qed.
End CollectorProperties.

(** ** Schema Normalizer: the shape of [removeTrivialTitles] *)

Lemma own_set_field_eq k v o : own (set_field k v o) k = v.
Proof. unfold own. by rewrite field_set_field_eq. Qed.

Lemma own_set_field_ne k k' v o : k ≠ k' → own (set_field k v o) k' = own o k'.
Proof. intros. unfold own. by rewrite field_set_field_ne. Qed.

Lemma own_delete_field_ne k k' o : k ≠ k' → own (delete_field k o) k' = own o k'.
Proof. intros. unfold own. by rewrite field_delete_field_ne. Qed.

Lemma delete_field_set_field k k' v o :
  k ≠ k' → delete_field k (set_field k' v o) = set_field k' v (delete_field k o).
Proof.
  intros Hne. induction o as [|[k0 v0] o IH]; simpl.
  - by destruct (String.eqb_spec k' k) as [->|_].
  - destruct (String.eqb_spec k0 k') as [->|Hne0]; simpl.
    + destruct (String.eqb_spec k' k) as [->|_]; [done|]. simpl.
      by rewrite String.eqb_refl.
    + destruct (String.eqb_spec k0 k) as [->|Hne1]; [done|]. simpl.
      destruct (String.eqb_spec k0 k'); [done|]. by rewrite IH.
Qed.

Lemma delete_field_idemp k o : delete_field k (delete_field k o) = delete_field k o.
Proof.
  induction o as [|[k0 v0] o IH]; simpl; [done|].
  destruct (String.eqb_spec k0 k) as [->|Hne]; [done|]. simpl.
  destruct (String.eqb_spec k0 k); [done|]. by rewrite IH.
Qed.

Lemma set_field_idemp k v w o : set_field k v (set_field k w o) = set_field k v o.
Proof.
  induction o as [|[k0 v0] o IH]; simpl.
  - by rewrite String.eqb_refl.
  - destruct (String.eqb_spec k0 k) as [->|Hne]; simpl.
    + by rewrite String.eqb_refl.
    + destruct (String.eqb_spec k0 k); [done|]. by rewrite IH.
Qed.

Lemma set_field_same k v o : field k o = Some v → set_field k v o = o.
Proof.
  induction o as [|[k0 v0] o IH]; simpl; [done|].
  destruct (String.eqb_spec k0 k) as [->|Hne].
  - by intros [= ->].
  - intros Hf. by rewrite IH.
Qed.

Lemma truthy_own_field o k : truthy (own o k) = true → field k o = Some (own o k).
Proof. unfold own. by destruct (field k o). Qed.

Lemma removeTrivialTitles_descend_eq (fields : props) :
  removeTrivialTitles_descend fields =
    if truthy (own fields "properties") then
      sub ← removeTrivialTitles (own fields "properties");
      Ok (set_field "properties" sub fields)
    else Ok fields.
Proof.
  induction fields as [|[k v] fields IH]; [done|].
  cbn [removeTrivialTitles_descend set_field]. unfold own in *.
  cbn [field]. destruct (String.eqb_spec k "properties") as [->|Hne].
  - simpl. by destruct (truthy v).
  - rewrite IH. destruct (truthy (default VUndefined (field "properties" fields)));
      [|done].
    by destruct (removeTrivialTitles _).
Qed.

(** The body of the loop of [removeTrivialTitles] on an object, statement by
    statement: [if (!property['$ref']) delete property.title;
    if (property.properties) removeTrivialTitles(property.properties)]. *)
Lemma removeTrivialTitles_property_obj (fields : props) :
  removeTrivialTitles_property (VObj fields) =
    let property :=
      if truthy (own fields "$ref") then fields
      else delete_field "title" fields in
    if truthy (own property "properties") then
      sub ← removeTrivialTitles (own property "properties");
      Ok (VObj (set_field "properties" sub property))
    else Ok (VObj property).
Proof.
  change (removeTrivialTitles_property (VObj fields)) with
    (fields' ← removeTrivialTitles_descend fields;
     Ok (VObj (if truthy (own fields "$ref") then fields'
               else delete_field "title" fields'))).
  rewrite removeTrivialTitles_descend_eq. cbv zeta.
  destruct (truthy (own fields "$ref")).
  - destruct (truthy (own fields "properties")); [|done].
    by destruct (removeTrivialTitles _).
  - rewrite own_delete_field_ne by done.
    destruct (truthy (own fields "properties")); [|done].
    destruct (removeTrivialTitles _); simpl; try done.
    by rewrite delete_field_set_field.
Qed.

Lemma removeTrivialTitles_obj (fields : props) :
  removeTrivialTitles (VObj fields) = VObj <$> removeTrivialTitles_props fields.
Proof. reflexivity. Qed.

Lemma removeTrivialTitles_arr (elems : list value) :
  removeTrivialTitles (VArr elems) = VArr <$> removeTrivialTitles_elems elems.
Proof. reflexivity. Qed.

Lemma removeTrivialTitles_truthy object object' :
  removeTrivialTitles object = Ok object' → truthy object' = truthy object.
Proof.
  destruct object; try done; try (by intros [= <-]).
  - rewrite removeTrivialTitles_arr, fmap_Ok. by intros (? & _ & ->).
  - rewrite removeTrivialTitles_obj, fmap_Ok. by intros (? & _ & ->).
Qed.

(** ** Schema Normalizer: idempotence *)

Lemma removeTrivialTitles_props_Ok l l' :
  removeTrivialTitles_props l = Ok l' ↔
  Forall2 (λ kv kv', kv'.1 = kv.1 ∧ removeTrivialTitles_property kv.2 = Ok kv'.2)
          l l'.
Proof.
  revert l'. induction l as [|[k p] l IH]; intros l'; simpl.
  - split; [intros [= <-]; constructor | by inversion 1].
  - rewrite bind_Ok. split.
    + intros (p' & Hp & Hrest). apply bind_Ok in Hrest as (r & Hr & [= <-]).
      constructor; [done | by apply IH].
    + inversion 1 as [|? [k' p'] ? r [Hk Hp] Hr]; simpl in *; subst.
      exists p'. split; [done|]. apply IH in Hr. by rewrite Hr.
Qed.

Lemma removeTrivialTitles_elems_Ok l l' :
  removeTrivialTitles_elems l = Ok l' ↔
  Forall2 (λ p p', removeTrivialTitles_property p = Ok p') l l'.
Proof.
  revert l'. induction l as [|p l IH]; intros l'; simpl.
  - split; [intros [= <-]; constructor | by inversion 1].
  - rewrite bind_Ok. split.
    + intros (p' & Hp & Hrest). apply bind_Ok in Hrest as (r & Hr & [= <-]).
      constructor; [done | by apply IH].
    + inversion 1 as [|? p' ? r Hp Hr]; subst.
      exists p'. split; [done|]. apply IH in Hr. by rewrite Hr.
Qed.

Lemma removeTrivialTitles_idemp_both (v : value) :
  (∀ v', removeTrivialTitles v = Ok v' → removeTrivialTitles v' = Ok v') ∧
  (∀ v', removeTrivialTitles_property v = Ok v' →
         removeTrivialTitles_property v' = Ok v').
Proof.
  induction v as [| | b | n | s | elems IH | fields IH] using value_nested_ind;
    try (split; intros v'; simpl; by intros [= <-]); try done.
  - split; [|by intros v' [= <-]].
    intros v'. rewrite removeTrivialTitles_arr, fmap_Ok.
    intros (l' & Hl & ->). rewrite removeTrivialTitles_arr, fmap_Ok.
    exists l'. split; [|done].
    apply removeTrivialTitles_elems_Ok in Hl. apply removeTrivialTitles_elems_Ok.
    induction Hl as [|p p' l l' Hp Hl IHl]; [constructor|].
    apply Forall_cons in IH as [[_ IHp] IH]. constructor; auto.
  - split.
    + intros v'. rewrite removeTrivialTitles_obj, fmap_Ok.
      intros (l' & Hl & ->). rewrite removeTrivialTitles_obj, fmap_Ok.
      exists l'. split; [|done].
      apply removeTrivialTitles_props_Ok in Hl. apply removeTrivialTitles_props_Ok.
      induction Hl as [|[k p] [k' p'] l l' [Hk Hp] Hl IHl]; [constructor|].
      apply Forall_cons in IH as [[_ IHp] IH]. constructor; auto.
    + intros v'. rewrite removeTrivialTitles_property_obj. cbv zeta.
      set (property := if truthy (own fields "$ref") then fields
                       else delete_field "title" fields).
      assert (own property "$ref" = own fields "$ref") as Href.
      { unfold property. destruct (truthy _); [done|].
        by rewrite own_delete_field_ne. }
      assert ((if truthy (own fields "$ref") then property
               else delete_field "title" property) = property) as Hproperty.
      { unfold property. destruct (truthy _); [done|].
        by rewrite delete_field_idemp. }
      assert (own property "properties" = own fields "properties") as Hsub.
      { unfold property. destruct (truthy _); [done|].
        by rewrite own_delete_field_ne. }
      destruct (truthy (own property "properties")) eqn:Htruthy.
      * rewrite bind_Ok. intros (sub & Hrec & [= <-]).
        rewrite removeTrivialTitles_property_obj. cbv zeta.
        rewrite own_set_field_ne, Href by done.
        assert ((if truthy (own fields "$ref")
                 then set_field "properties" sub property
                 else delete_field "title" (set_field "properties" sub property))
                = set_field "properties" sub property) as ->.
        { destruct (truthy (own fields "$ref")); [done|].
          rewrite delete_field_set_field by done.
          revert Hproperty. by destruct (truthy (own fields "$ref")); intros ->. }
        rewrite own_set_field_eq.
        rewrite (removeTrivialTitles_truthy _ _ Hrec), Htruthy.
        assert (removeTrivialTitles sub = Ok sub) as ->.
        { rewrite Hsub in Htruthy, Hrec.
          apply truthy_own_field, field_Some_elem in Htruthy.
          rewrite Forall_forall in IH. by apply (IH _ Htruthy). }
        simpl. by rewrite set_field_idemp.
      * intros [= <-]. rewrite removeTrivialTitles_property_obj. cbv zeta.
        by rewrite Href, Hproperty, Htruthy.
Qed.

Lemma removeTrivialTitles_idemp object object' :
  removeTrivialTitles object = Ok object' → removeTrivialTitles object' = Ok object'.
Proof. apply removeTrivialTitles_idemp_both. Qed.

Lemma removeTrivialTitles_of_field_ne key k schema schema' :
  removeTrivialTitles_of key schema = Ok schema' → key ≠ k →
  field k schema' = field k schema.
Proof.
  unfold removeTrivialTitles_of. destruct (truthy (own schema key)).
  - rewrite bind_Ok. intros (object' & _ & [= <-]) Hne.
    by rewrite field_set_field_ne.
  - by intros [= <-].
Qed.

Lemma removeTrivialTitles_of_idemp key schema schema' :
  removeTrivialTitles_of key schema = Ok schema' →
  removeTrivialTitles_of key schema' = Ok schema'.
Proof.
  unfold removeTrivialTitles_of.
  destruct (truthy (own schema key)) eqn:Htruthy.
  - rewrite bind_Ok. intros (object' & Hrec & [= <-]).
    rewrite own_set_field_eq, (removeTrivialTitles_truthy _ _ Hrec), Htruthy.
    rewrite (removeTrivialTitles_idemp _ _ Hrec). simpl.
    by rewrite set_field_idemp.
  - intros [= <-]. by rewrite Htruthy.
Qed.

Lemma removeTrivialTitles_of_fixed_set key k v schema :
  removeTrivialTitles_of key schema = Ok schema → key ≠ k →
  removeTrivialTitles_of key (set_field k v schema) = Ok (set_field k v schema).
Proof.
  unfold removeTrivialTitles_of. intros Hfixed Hne.
  rewrite own_set_field_ne by done.
  destruct (truthy (own schema key)); [|done].
  apply bind_Ok in Hfixed as (object' & Hrec & [= Hset]). rewrite Hrec. simpl.
  rewrite set_field_same; [done|].
  rewrite field_set_field_ne by done.
  by rewrite <- Hset, field_set_field_eq.
Qed.

Lemma removeTrivialTitles_of_fixed_after key key' schema schema' :
  removeTrivialTitles_of key schema = Ok schema → key ≠ key' →
  removeTrivialTitles_of key' schema = Ok schema' →
  removeTrivialTitles_of key schema' = Ok schema'.
Proof.
  intros Hfixed Hne. unfold removeTrivialTitles_of at 1.
  destruct (truthy (own schema key')).
  - rewrite bind_Ok. intros (object' & _ & [= <-]).
    by apply removeTrivialTitles_of_fixed_set.
  - by intros [= <-].
Qed.

Lemma removeTrivialTitles_both_idemp schema schema' :
  (schema2 ← removeTrivialTitles_of "properties" schema;
   removeTrivialTitles_of "definitions" schema2) = Ok schema' →
  (schema2 ← removeTrivialTitles_of "properties" schema';
   removeTrivialTitles_of "definitions" schema2) = Ok schema'.
Proof.
  rewrite bind_Ok. intros (schema2 & Hproperties & Hdefinitions).
  apply removeTrivialTitles_of_idemp in Hproperties.
  assert ("properties" ≠ "definitions") as Hne by discriminate.
  rewrite (removeTrivialTitles_of_fixed_after _ _ _ _ Hproperties Hne Hdefinitions).
  simpl. by apply removeTrivialTitles_of_idemp in Hdefinitions.
Qed.

Lemma removeTrivialTitles_both_field_ne k schema schema' :
  (schema2 ← removeTrivialTitles_of "properties" schema;
   removeTrivialTitles_of "definitions" schema2) = Ok schema' →
  "properties" ≠ k → "definitions" ≠ k →
  field k schema' = field k schema.
Proof.
  rewrite bind_Ok. intros (schema2 & Hproperties & Hdefinitions) Hp Hd.
  rewrite (removeTrivialTitles_of_field_ne _ _ _ _ Hdefinitions) by done.
  by rewrite (removeTrivialTitles_of_field_ne _ _ _ _ Hproperties).
Qed.

Lemma preProcessSchema_idemp config schema schema' :
  preProcessSchema config schema = Ok schema' →
  preProcessSchema config schema' = Ok schema'.
Proof.
  unfold preProcessSchema.
  destruct (noAdditionalProperties config), (noTrivialTypes config); cbv zeta.
  - intros Hstrip. rewrite (set_field_same _ _ schema').
    + by apply removeTrivialTitles_both_idemp in Hstrip.
    + rewrite (removeTrivialTitles_both_field_ne "additionalProperties" _ _ Hstrip)
        by discriminate.
      by rewrite field_set_field_eq.
  - intros [= <-]. by rewrite set_field_idemp.
  - apply removeTrivialTitles_both_idemp.
  - done.
Qed.

Lemma modify_Ok h l f h' :
  modify h l f = Ok h' ↔
  ∃ o o', h !! l = Some o ∧ f o = Ok o' ∧ h' = <[l := o']> h.
Proof.
  unfold modify. destruct (h !! l) as [o|]; split.
  - rewrite bind_Ok. intros (o' & Hf & [= <-]). eauto.
  - intros (? & o' & [= <-] & Hf & ->). by rewrite Hf.
  - done.
  - by intros (? & ? & ? & _).
Qed.

Lemma modify_modify (h : heap) (l : loc) (f g : props → result props) :
  (h1 ← modify h l f; modify h1 l g) = modify h l (λ o, o1 ← f o; g o1).
Proof.
  unfold modify. destruct (h !! l) as [o|] eqn:Hl; [|done].
  destruct (f o) as [o1| | |]; simpl; try done.
  rewrite list_lookup_insert_eq by (by eapply lookup_lt_Some).
  destruct (g o1); simpl; try done. by rewrite list_insert_insert_eq.
Qed.

(** The body of the loop of [preProcessSchemas] mutates the one document at
    [schema]. *)
Lemma preProcessSchemas_body_eq config schema h :
  preProcessSchemas_body config schema h =
    if noAdditionalProperties config || noTrivialTypes config
    then modify h schema (preProcessSchema config)
    else Ok h.
Proof.
  unfold preProcessSchemas_body, preProcessSchema.
  destruct (noAdditionalProperties config), (noTrivialTypes config);
    cbn [orb]; cbv zeta.
  - unfold modify. destruct (h !! schema) as [o|] eqn:Hschema; [|done].
    assert (schema < length h)%nat as Hlt by (by eapply lookup_lt_Some).
    cbn [mbind result_bind]. rewrite list_lookup_insert_eq by done.
    destruct (removeTrivialTitles_of "properties" _) as [schema2| | |];
      cbn [mbind result_bind]; try done.
    rewrite list_lookup_insert_eq by (by rewrite length_insert).
    destruct (removeTrivialTitles_of "definitions" _) as [schema3| | |];
      cbn [mbind result_bind]; try done.
    by rewrite !list_insert_insert_eq.
  - cbn [mbind result_bind]. unfold modify. by destruct (h !! schema).
  - cbn [mbind result_bind]. by rewrite modify_modify.
  - done.
Qed.

Lemma preProcessSchemas_body_idemp config schema h h' :
  preProcessSchemas_body config schema h = Ok h' →
  preProcessSchemas_body config schema h' = Ok h'.
Proof.
  rewrite !preProcessSchemas_body_eq. destruct (_ || _); [|by intros [= <-]].
  rewrite modify_Ok. intros (o & o' & Ho & Hf & ->).
  apply modify_Ok. exists o', o'. split_and!.
  - apply list_lookup_insert_eq. by eapply lookup_lt_Some.
  - by eapply preProcessSchema_idemp.
  - by rewrite list_insert_insert_eq.
Qed.

Lemma preProcessSchemas_body_fixed_after config l l' h h' :
  preProcessSchemas_body config l h = Ok h →
  preProcessSchemas_body config l' h = Ok h' →
  preProcessSchemas_body config l h' = Ok h'.
Proof.
  rewrite !preProcessSchemas_body_eq. destruct (_ || _); [|by intros _ [= <-]].
  rewrite !modify_Ok. intros (o & o' & Ho & Hf & Hh) (q & q' & Hq & Hg & ->).
  assert (o' = o) as ->.
  { apply (f_equal (.!! l)) in Hh.
    rewrite list_lookup_insert_eq in Hh by (by eapply lookup_lt_Some).
    congruence. }
  destruct (decide (l = l')) as [<-|Hne].
  - assert (q = o) as -> by congruence. assert (q' = o) as -> by congruence.
    exists o, o. split_and!; [|done|by rewrite list_insert_insert_eq].
    apply list_lookup_insert_eq. by eapply lookup_lt_Some.
  - exists o, o. split_and!; [by rewrite list_lookup_insert_ne|done|].
    symmetry. apply list_insert_id. by rewrite list_lookup_insert_ne.
Qed.

Lemma preProcessSchemas_keeps_fixed config schemas l h h' :
  preProcessSchemas schemas config h = Ok h' →
  preProcessSchemas_body config l h = Ok h →
  preProcessSchemas_body config l h' = Ok h'.
Proof.
  revert h. induction schemas as [|schema rest IH]; intros h; simpl.
  - by intros [= <-].
  - rewrite bind_Ok. intros (h1 & Hbody & Hrest) Hfixed.
    eauto using preProcessSchemas_body_fixed_after.
Qed.

Lemma preProcessSchemas_all_fixed config schemas h h' :
  preProcessSchemas schemas config h = Ok h' →
  Forall (λ l, preProcessSchemas_body config l h' = Ok h') schemas.
Proof.
  revert h. induction schemas as [|schema rest IH]; intros h; simpl.
  - constructor.
  - rewrite bind_Ok. intros (h1 & Hbody & Hrest). constructor; [|eauto].
    eauto using preProcessSchemas_keeps_fixed, preProcessSchemas_body_idemp.
Qed.

Lemma preProcessSchemas_fixed config schemas h :
  Forall (λ l, preProcessSchemas_body config l h = Ok h) schemas →
  preProcessSchemas schemas config h = Ok h.
Proof.
  induction 1 as [|schema rest Hbody _ IH]; simpl; [done|].
  by rewrite Hbody.
Qed.

(** C5. The Normalizer is idempotent: for every list of schemas, every
    configuration and every heap, running [preProcessSchemas] and then
    running it again has the outcome of running it once.  (A run that throws
    ends the program, the second run then does not take place.) *)
Theorem preProcessSchemas_idempotent (schemas : list loc) (config : config)
    (h : heap) :
  preProcessSchemas schemas config h ≫= preProcessSchemas schemas config
  = preProcessSchemas schemas config h.
Proof.
  destruct (preProcessSchemas schemas config h) as [h'| | |] eqn:Hrun;
    simpl; try done.
  by apply preProcessSchemas_fixed, (preProcessSchemas_all_fixed _ _ h).
Qed.

(** ** Schema Normalizer: which titles are deleted *)

Lemma removeTrivialTitles_props_field l l' k p :
  removeTrivialTitles_props l = Ok l' → field k l = Some p →
  ∃ p', removeTrivialTitles_property p = Ok p' ∧ field k l' = Some p'.
Proof.
  rewrite removeTrivialTitles_props_Ok.
  induction 1 as [|[k0 p0] [k0' p0'] l l' [Hk Hp] _ IH]; simpl in *; [done|].
  subst k0'. destruct (String.eqb_spec k0 k) as [->|Hne].
  - intros [= ->]. eauto.
  - apply IH.
Qed.


Lemma removeTrivialTitles_property_fields fields p' :
  removeTrivialTitles_property (VObj fields) = Ok p' →
  ∃ fields', p' = VObj fields' ∧
    field "title" fields'
      = (if truthy (own fields "$ref") then field "title" fields else None) ∧
    ∀ k, k ≠ "title" → k ≠ "properties" → field k fields' = field k fields.
Proof.
  rewrite removeTrivialTitles_property_obj. cbv zeta.
  set (property := if truthy (own fields "$ref") then fields
                   else delete_field "title" fields).
  assert (field "title" property
          = (if truthy (own fields "$ref") then field "title" fields else None))
    as Htitle.
  { unfold property. destruct (truthy _); [done|]. apply field_delete_field_eq. }
  assert (∀ k, k ≠ "title" → field k property = field k fields) as Hother.
  { intros k Hk. unfold property. destruct (truthy _); [done|].
    by rewrite field_delete_field_ne. }
  destruct (truthy (own property "properties")).
  - rewrite bind_Ok. intros (sub & _ & [= <-]). eexists. split; [done|]. split.
    + by rewrite field_set_field_ne.
    + intros k Hk Hk'. rewrite field_set_field_ne by done. auto.
  - intros [= <-]. eauto.
Qed.

Lemma preProcessSchemas_other config schemas h h' (l : loc) :
  preProcessSchemas schemas config h = Ok h' → l ∉ schemas →
  h' !! l = h !! l.
Proof.
  revert h. induction schemas as [|schema rest IH]; intros h; simpl.
  - by intros [= <-].
  - rewrite bind_Ok, preProcessSchemas_body_eq.
    intros (h1 & Hbody & Hrest) [Hne Hnotin]%not_elem_of_cons.
    rewrite (IH _ Hrest Hnotin). destruct (_ || _); [|by injection Hbody as <-].
    apply modify_Ok in Hbody as (o & o' & _ & _ & ->).
    by rewrite list_lookup_insert_ne.
Qed.

Lemma preProcessSchema_flags_off config schema :
  noAdditionalProperties config || noTrivialTypes config = false →
  preProcessSchema config schema = Ok schema.
Proof.
  unfold preProcessSchema.
  by destruct (noAdditionalProperties config), (noTrivialTypes config).
Qed.

(** After [preProcessSchemas], a schema of the list is in the state in which
    the body of the loop leaves it. *)
Lemma preProcessSchemas_lookup config schemas h h' (l : loc) s :
  preProcessSchemas schemas config h = Ok h' → l ∈ schemas → h !! l = Some s →
  ∃ s', preProcessSchema config s = Ok s' ∧ h' !! l = Some s'.
Proof.
  revert h s. induction schemas as [|schema rest IH]; intros h s; simpl.
  { by intros _ ?%elem_of_nil. }
  rewrite bind_Ok, preProcessSchemas_body_eq.
  intros (h1 & Hbody & Hrest) Hin Hs.
  assert (∃ s1, h1 !! l = Some s1 ∧
                (s1 = s ∨ (schema = l ∧ preProcessSchema config s = Ok s1)))
    as (s1 & Hs1 & Hcase).
  { destruct (_ || _); [|injection Hbody as <-; eauto].
    apply modify_Ok in Hbody as (o & o' & Ho & Hf & ->).
    destruct (decide (schema = l)) as [->|Hne].
    - exists o'. rewrite list_lookup_insert_eq by (by eapply lookup_lt_Some).
      split; [done|]. right. split; [done|]. congruence.
    - exists s. rewrite list_lookup_insert_ne by done. eauto. }
  destruct (decide (l ∈ rest)) as [Hrest_in|Hrest_notin].
  - destruct (IH _ _ Hrest Hrest_in Hs1) as (s' & Hs' & Hl').
    destruct Hcase as [->|[_ Hfirst]]; [eauto|].
    exists s'. split; [|done].
    rewrite (preProcessSchema_idemp _ _ _ Hfirst) in Hs'. congruence.
  - rewrite (preProcessSchemas_other _ _ _ _ _ Hrest Hrest_notin), Hs1.
    exists s1. split; [|done]. destruct Hcase as [->|[_ Hfirst]]; [|done].
    apply elem_of_cons in Hin as [->|?]; [|done].
    destruct (_ || _) eqn:Hflags.
    + apply modify_Ok in Hbody as (o & o' & Ho & Hf & ->).
      rewrite list_lookup_insert_eq in Hs1 by (by eapply lookup_lt_Some).
      congruence.
    + by apply preProcessSchema_flags_off.
Qed.



Lemma preProcessSchema_field config schema schema' k :
  preProcessSchema config schema = Ok schema' →
  k ≠ "properties" → k ≠ "definitions" → k ≠ "additionalProperties" →
  field k schema' = field k schema.
Proof.
  unfold preProcessSchema. intros Hrun Hp Hd Ha. cbv zeta in Hrun.
  assert (field k (if noAdditionalProperties config
                   then set_field "additionalProperties" (VBool false) schema
                   else schema) = field k schema) as Hfirst.
  { destruct (noAdditionalProperties config); [|done].
    by rewrite field_set_field_ne. }
  destruct (noTrivialTypes config); [|by injection Hrun as <-].
  by rewrite (removeTrivialTitles_both_field_ne _ _ _ Hrun).
Qed.

(** C6, as stated, fails for a property whose [$ref] is the empty string: the
    property has a [$ref] field, and the Normalizer deletes its title. *)
Lemma preProcessSchemas_empty_ref_title_deleted :
  property_at (own example_empty_ref "properties") ["owner"]
    = Some (VObj [("$ref", VStr ""); ("title", VStr "Owner")]) ∧
  field "$ref" [("$ref", VStr ""); ("title", VStr "Owner")] = Some (VStr "") ∧
  field "title" [("$ref", VStr ""); ("title", VStr "Owner")]
    = Some (VStr "Owner") ∧
  ∃ s', preProcessSchemas [0%nat] strip_titles [example_empty_ref] = Ok [s'] ∧
        property_at (own s' "properties") ["owner"]
          = Some (VObj [("$ref", VStr "")]) ∧
        field "title" [("$ref", VStr "")] = None.
Proof. split_and!; try reflexivity. eexists. by split_and!. Qed.




(** ** Reference Resolver: reading the documents *)

(** No array index is spelled [type]. *)
Lemma pretty_N_go_not_t (x : N) (s : string) :
  (∀ s', s ≠ String "t" s') → ∀ s', pretty_N_go x s ≠ String "t" s'.
Proof.
  revert s. induction (N.lt_wf_0 x) as [x _ IH]; intros s Hs.
  destruct (decide (x = 0)%N) as [->|Hpos]; [by rewrite pretty_N_go_0|].
  rewrite pretty_N_go_step by lia. apply IH; [apply N.div_lt; lia|].
  intros s'. unfold pretty_N_char. by repeat case_match.
Qed.

Lemma pretty_nat_not_type (i : nat) : pretty i ≠ "type".
Proof.
  unfold pretty, pretty_nat, pretty, pretty_N. case_decide; [done|].
  by apply pretty_N_go_not_t.
Qed.

Lemma field_indexed_type (l : list value) : field "type" (indexed l) = None.
Proof.
  unfold indexed. generalize 0%nat as i.
  induction l as [|v l IH]; intros i; [done|]. cbn [indexed_from field].
  destruct (String.eqb_spec (pretty i) "type") as [Heq|_]; [|apply IH].
  by apply pretty_nat_not_type in Heq.
Qed.

Lemma is_uri_string_obj (property : value) :
  is_uri_string property = Ok true → ∃ fields, property = VObj fields.
Proof.
  unfold is_uri_string.
  destruct property as [| | | | s | elems | fields]; try done; [| |eauto].
  - cbn [get mbind result_bind]. replace (String.eqb "type" "length") with false by done.
    unfold own. by rewrite field_indexed_type.
  - cbn [get mbind result_bind]. replace (String.eqb "type" "length") with false by done.
    unfold own. by rewrite field_indexed_type.
Qed.

Lemma filterM_Ok {A} (p : A → result bool) l r :
  filterM p l = Ok r →
  (∀ x, x ∈ r ↔ x ∈ l ∧ p x = Ok true) ∧ Forall (λ x, ∃ b, p x = Ok b) l.
Proof.
  revert r. induction l as [|a l IH]; intros r; simpl.
  - intros [= <-]. split; [|constructor]. intros x. rewrite elem_of_nil. tauto.
  - rewrite bind_Ok. intros (b & Hb & Hrest).
    apply bind_Ok in Hrest as (r' & Hr' & [= <-]).
    destruct (IH _ Hr') as [Hmem Hall]. split; [|constructor; eauto].
    intros x. destruct b.
    + rewrite !elem_of_cons, Hmem. split; [|tauto].
      intros [->|[? ?]]; [by split; [left|]|tauto].
    + rewrite elem_of_cons, Hmem. split; [tauto|].
      intros [[->|?] ?]; [congruence|tauto].
Qed.

Lemma findM_Some {A} (p : A → result bool) l (i j : nat) a :
  findM p l i = Ok (Some (j, a)) →
  (i ≤ j)%nat ∧ l !! (j - i)%nat = Some a ∧ p a = Ok true.
Proof.
  revert i. induction l as [|x l IH]; intros i; simpl; [done|].
  rewrite bind_Ok. intros ([|] & Hx & Hrest).
  - injection Hrest as <- <-. rewrite Nat.sub_diag. by split_and!; [lia|..].
  - apply IH in Hrest as (Hle & Hl & Ha). split_and!; [lia| |done].
    assert (j - i = S (j - S i))%nat as -> by lia. done.
Qed.

(** The entity that a property refers to is at the position that [indexOf]
    reports. *)
Lemma referencedEntity_of_position entityDescriptors entities k (j : nat) E :
  referencedEntity_of entityDescriptors entities k = Ok (Some (j, E)) →
  entities !! j = Some E.
Proof.
  unfold referencedEntity_of. rewrite bind_Ok. intros (d & _ & Hrest).
  apply bind_Ok in Hrest as (rt & _ & Hrest).
  apply bind_Ok in Hrest as (referencedHref & _ & Hfind).
  apply findM_Some in Hfind as (_ & Hj & _). by rewrite Nat.sub_0_r in Hj.
Qed.

Lemma array_at_indexOf_found {A B} (array : list A) (found : option (nat * B)) a :
  array_at array (indexOf_found found) = Some a ↔
  ∃ j b, found = Some (j, b) ∧ array !! j = Some a.
Proof.
  unfold array_at, indexOf_found. destruct found as [[j b]|].
  - destruct (Z.ltb_spec (Z.of_nat j) 0) as [?|_]; [lia|]. rewrite Nat2Z.id. split.
    + eauto.
    + by intros (? & ? & [= <- <-] & ?).
  - simpl. split; [done|]. by intros (? & ? & ? & _).
Qed.

(** ** Reference Resolver: the container [schema.properties] *)

Lemma indexed_from_snd i l : (indexed_from i l).*2 = l.
Proof.
  revert i. induction l as [|v l IH]; intros i; csimpl; [done|]. by rewrite IH.
Qed.

Lemma set_field_indexed_from i l k w :
  is_Some (field k (indexed_from i l)) →
  ∃ l', set_field k w (indexed_from i l) = indexed_from i l' ∧
        length l' = length l.
Proof.
  revert i. induction l as [|v l IH]; intros i; cbn [indexed_from field set_field].
  - by intros [? ?].
  - destruct (String.eqb_spec (pretty i) k) as [<-|Hne].
    + intros _. by exists (w :: l).
    + intros Hsome. destruct (IH _ Hsome) as (l' & Hl' & Hlen).
      exists (v :: l'). cbn [indexed_from]. rewrite Hl'. simpl. by rewrite Hlen.
Qed.

Lemma put_entry_arr l k w :
  is_Some (field k (indexed l)) →
  ∃ l', put_entry (VArr l) k w = VArr l' ∧
        indexed l' = set_field k w (indexed l) ∧ length l' = length l.
Proof.
  intros Hsome. destruct (set_field_indexed_from 0 l k w Hsome) as (l' & Hl' & Hlen).
  exists l'. split_and!; [|done..].
  unfold put_entry, indexed. by rewrite Hl', indexed_from_snd.
Qed.

Lemma field_indexed_chars i s k v :
  field k (indexed_from i (chars s)) = Some v → ∃ c, v = VStr c.
Proof.
  revert i. induction s as [|c s IH]; intros i; cbn [chars indexed_from field];
    [done|].
  destruct (String.eqb (pretty i) k); [|apply IH]. intros [= <-]. eauto.
Qed.

(** A container whose property [k] is an object is an object, or an array
    with the index [k]. *)
Lemma get_obj_container container k fields :
  get container k = Ok (VObj fields) →
  (∃ ps, container = VObj ps ∧ field k ps = Some (VObj fields)) ∨
  (∃ l, container = VArr l ∧ String.eqb k "length" = false ∧
        field k (indexed l) = Some (VObj fields)).
Proof.
  destruct container as [| | | | s | l | ps]; cbn [get]; try done.
  - destruct (String.eqb k "length"); [done|]. unfold own.
    destruct (field k (indexed (chars s))) as [v|] eqn:Hfield; [|done].
    apply field_indexed_chars in Hfield as [c ->]. done.
  - destruct (String.eqb k "length"); [done|]. unfold own.
    destruct (field k (indexed l)) as [v|] eqn:Hfield; [|done].
    intros [= ->]. right. eauto.
  - unfold own. destruct (field k ps) as [v|] eqn:Hfield; [|done].
    intros [= ->]. left. eauto.
Qed.

Lemma get_put_entry_eq container k fields v :
  get container k = Ok (VObj fields) → get (put_entry container k v) k = Ok v.
Proof.
  intros [(ps & -> & Hfield)|(l & -> & Hlength & Hfield)]%get_obj_container.
  - cbn [put_entry get]. by rewrite own_set_field_eq.
  - destruct (put_entry_arr l k v) as (l' & -> & Hl' & _); [eauto|].
    cbn [get]. by rewrite Hlength, Hl', own_set_field_eq.
Qed.

Lemma get_put_entry_ne container k fields v k' :
  get container k = Ok (VObj fields) → k ≠ k' →
  get (put_entry container k v) k' = get container k'.
Proof.
  intros [(ps & -> & Hfield)|(l & -> & Hlength & Hfield)]%get_obj_container Hne.
  - cbn [put_entry get]. by rewrite own_set_field_ne.
  - destruct (put_entry_arr l k v) as (l' & -> & Hl' & Hlen); [eauto|].
    cbn [get]. by rewrite Hlen, Hl', own_set_field_ne.
Qed.

Lemma put_entry_put_entry container k fields v w :
  get container k = Ok (VObj fields) →
  put_entry (put_entry container k v) k w = put_entry container k w.
Proof.
  intros [(ps & -> & Hfield)|(l & -> & Hlength & Hfield)]%get_obj_container.
  - cbn [put_entry]. by rewrite set_field_idemp.
  - destruct (put_entry_arr l k v) as (l' & -> & Hl' & Hlen); [eauto|].
    unfold put_entry. by rewrite Hl', set_field_idemp.
Qed.

(** ** Reference Resolver: the callback of [forEach] *)

Lemma set_field_keys k v ps :
  is_Some (field k ps) → (set_field k v ps).*1 = ps.*1.
Proof.
  induction ps as [|[k0 v0] ps IH]; cbn [field set_field]; [by intros [? ?]|].
  destruct (String.eqb_spec k0 k) as [->|Hne]; [done|].
  intros Hsome. csimpl. by rewrite IH.
Qed.

Lemma own_entries_put_entry container k fields v :
  get container k = Ok (VObj fields) →
  (own_entries (put_entry container k v)).*1 = (own_entries container).*1.
Proof.
  intros [(ps & -> & Hfield)|(l & -> & Hlength & Hfield)]%get_obj_container.
  - cbn [put_entry own_entries]. apply set_field_keys. eauto.
  - destruct (put_entry_arr l k v) as (l' & -> & Hl' & _); [eauto|].
    cbn [own_entries]. rewrite Hl'. apply set_field_keys. eauto.
Qed.

Lemma resolved_property_fields title fields :
  field "type" (resolved_property title fields) = Some (VStr "object") ∧
  field "format" (resolved_property title fields) = None ∧
  field "title" (resolved_property title fields) = Some title.
Proof.
  unfold resolved_property. split_and!.
  - rewrite field_set_field_ne, field_delete_field_ne by done.
    apply field_set_field_eq.
  - rewrite field_set_field_ne by done. apply field_delete_field_eq.
  - apply field_set_field_eq.
Qed.

Section ResolverStep.
Variable entityDescriptors : value.
Variable schema : loc.
Variable entities : list EntityDescriptor.
Variable schemas : list loc.
Variable h0 : heap.
Variable s0 : props.
Hypothesis Hschema : h0 !! schema = Some s0.

Lemma heap_with_properties_schema properties :
  heap_with_properties h0 schema s0 properties !! schema
    = Some (set_field "properties" properties s0).
Proof.
  unfold heap_with_properties. apply list_lookup_insert_eq.
  by eapply lookup_lt_Some.
Qed.

Lemma heap_with_properties_title properties (l : loc) o :
  heap_with_properties h0 schema s0 properties !! l = Some o →
  ∃ sE, h0 !! l = Some sE ∧ own o "title" = own sE "title".
Proof.
  destruct (decide (l = schema)) as [->|Hne].
  - rewrite heap_with_properties_schema. intros [= <-]. exists s0.
    split; [done|]. by rewrite own_set_field_ne.
  - unfold heap_with_properties. rewrite list_lookup_insert_ne by done. eauto.
Qed.

Lemma heap_with_properties_initial properties :
  field "properties" s0 = Some properties →
  heap_with_properties h0 schema s0 properties = h0.
Proof.
  intros Hfield. unfold heap_with_properties. rewrite set_field_same by done.
  by apply list_insert_id.
Qed.

Lemma modify_property_with properties k f :
  modify_property (heap_with_properties h0 schema s0 properties) schema k f =
    property ← get properties k;
    property' ← f property;
    Ok (heap_with_properties h0 schema s0 (put_entry properties k property')).
Proof.
  unfold modify_property, modify. rewrite heap_with_properties_schema.
  rewrite own_set_field_eq. destruct (get properties k) as [property| | |];
    cbn [mbind result_bind]; try done.
  destruct (f property) as [property'| | |]; cbn [mbind result_bind]; try done.
  unfold heap_with_properties. by rewrite list_insert_insert_eq, set_field_idemp.
Qed.

Lemma resolve_property_Ok properties refs k h' refs' :
  resolve_property entityDescriptors schema entities schemas
    (heap_with_properties h0 schema s0 properties, refs) k = Ok (h', refs') →
  ∃ fields j E lE sE,
    get properties k = Ok (VObj fields) ∧
    referencedEntity_of entityDescriptors entities k = Ok (Some (j, E)) ∧
    schemas !! j = Some lE ∧
    h0 !! lE = Some sE ∧
    h' = heap_with_properties h0 schema s0
           (put_entry properties k
              (VObj (resolved_property (own sE "title") fields))) ∧
    refs' = (refs ++ if decide (lE ≠ schema) then [lE] else [])%list.
Proof.
  unfold resolve_property. rewrite modify_property_with, bind_Ok.
  intros (h1 & Hfirst & Hrest).
  apply bind_Ok in Hfirst as (property & Hget & Hfirst).
  apply bind_Ok in Hfirst as (property1 & Hmutate & [= <-]).
  apply bind_Ok in Hmutate as (property2 & Htype & Hformat).
  destruct property as [| | | | | |fields]; try done.
  injection Htype as <-. injection Hformat as <-.
  apply bind_Ok in Hrest as (found & Hfound & Hrest).
  destruct (array_at schemas (indexOf_found found)) as [lE|] eqn:Hat; [|done].
  apply array_at_indexOf_found in Hat as (j & E & -> & Hj).
  destruct (heap_with_properties _ _ _ _ !! lE) as [o|] eqn:Ho; [|done].
  apply heap_with_properties_title in Ho as (sE & HsE & Htitle).
  rewrite modify_property_with in Hrest.
  erewrite get_put_entry_eq in Hrest by done.
  cbn [mbind result_bind set_prop] in Hrest. injection Hrest as <- <-.
  erewrite put_entry_put_entry by done.
  exists fields, j, E, lE, sE. rewrite Htitle. split_and!; try done.
  by destruct (decide (lE ≠ schema)); [|rewrite app_nil_r].
Qed.

Lemma referencedSchema_of_Some k (j : nat) E lE :
  referencedEntity_of entityDescriptors entities k = Ok (Some (j, E)) →
  schemas !! j = Some lE →
  referencedSchema_of entityDescriptors entities schemas k = Some lE.
Proof.
  intros Hfound Hj. unfold referencedSchema_of. rewrite Hfound.
  apply array_at_indexOf_found. eauto.
Qed.

(** The outcome of [forEach] over the names [ks]: the container
    [schema.properties] keeps its keys and the properties that are not named;
    every property that is named is resolved; the referenced schemas other
    than [schema] are recorded, one for each name, in the order of the
    names. *)
Lemma resolve_properties_Ok ks properties refs h' refs' :
  foldM (resolve_property entityDescriptors schema entities schemas)
        (heap_with_properties h0 schema s0 properties, refs) ks
    = Ok (h', refs') →
  ∃ properties',
    h' = heap_with_properties h0 schema s0 properties' ∧
    refs' = (refs ++ List.filter (λ l, bool_decide (l ≠ schema))
                       (omap (referencedSchema_of entityDescriptors entities
                                                  schemas) ks))%list ∧
    (own_entries properties').*1 = (own_entries properties).*1 ∧
    (∀ ps, properties = VObj ps → ∃ ps', properties' = VObj ps') ∧
    (∀ k, k ∉ ks → get properties' k = get properties k) ∧
    (∀ k, k ∈ ks →
       ∃ fields' j E lE sE,
         get properties' k = Ok (VObj fields') ∧
         referencedEntity_of entityDescriptors entities k = Ok (Some (j, E)) ∧
         schemas !! j = Some lE ∧
         h0 !! lE = Some sE ∧
         field "type" fields' = Some (VStr "object") ∧
         field "format" fields' = None ∧
         field "title" fields' = Some (own sE "title")).
Proof.
  revert properties refs. induction ks as [|k ks IH]; intros properties refs.
  - intros [= <- <-]. exists properties. rewrite app_nil_r.
    split_and!; try done; [eauto|]. by intros k ?%elem_of_nil.
  - cbn [foldM]. rewrite bind_Ok. intros ([h1 refs1] & Hstep & Hrest).
    apply resolve_property_Ok in Hstep
      as (fields & j & E & lE & sE & Hget & Hfound & Hj & HsE & -> & ->).
    apply IH in Hrest as (properties' & -> & -> & Hkeys & Hobj & Hother & Hnamed).
    exists properties'. split_and!.
    + done.
    + change (omap ?f (k :: ks)) with
        (match f k with Some y => y :: omap f ks | None => omap f ks end).
      rewrite (referencedSchema_of_Some _ _ _ _ Hfound Hj). cbn [List.filter].
      rewrite <- app_assoc. destruct (decide (lE ≠ schema)).
      * by rewrite bool_decide_eq_true_2.
      * by rewrite bool_decide_eq_false_2.
    + rewrite Hkeys. by eapply own_entries_put_entry.
    + intros ps ->. by eapply Hobj.
    + intros k' [Hne Hnotin]%not_elem_of_cons. rewrite Hother by done.
      by eapply get_put_entry_ne.
    + intros k' Hin. destruct (decide (k' ∈ ks)) as [Hks|Hks]; [by apply Hnamed|].
      apply elem_of_cons in Hin as [->|?]; [|done].
      rewrite Hother by done. erewrite get_put_entry_eq by done.
      destruct (resolved_property_fields (own sE "title") fields)
        as (Htype & Hformat & Htitle).
      by exists (resolved_property (own sE "title") fields), j, E, lE, sE.
Qed.
End ResolverStep.

(** ** Reference Resolver: postcondition and frame *)

Lemma catch_Ok {A} (m handler : result A) a :
  (∀ a', handler ≠ Ok a') → catch m handler = Ok a → m = Ok a.
Proof. intros Hhandler. destruct m; simpl; try done. intros ?. by destruct (Hhandler a). Qed.

Lemma relevantPropertyNames_of_Ok properties ks :
  relevantPropertyNames_of properties = Ok ks →
  properties ≠ VUndefined ∧
  ∀ k, k ∈ ks ↔
       k ∈ (own_entries properties).*1 ∧
       ∃ property, get properties k = Ok property ∧
                   is_uri_string property = Ok true.
Proof.
  unfold relevantPropertyNames_of. rewrite bind_Ok. intros (keys & Hkeys & Hfilter).
  split; [by intros ->|].
  assert (keys = (own_entries properties).*1) as ->.
  { destruct properties; by inversion Hkeys. }
  apply filterM_Ok in Hfilter as [Hmem _]. intros k. rewrite Hmem.
  by rewrite bind_Ok.
Qed.

(** What a normal completion of the callback of [.then] says. *)
Lemma resolveUrlStringReferences_then_Ok data entity schema entities schemas
    h h' refs :
  resolveUrlStringReferences_then data entity schema entities schemas h
    = Ok (h', refs) →
  ∃ entityDescriptors s properties ks properties',
    entityDescriptors_of data entity = Ok entityDescriptors ∧
    h !! schema = Some s ∧
    field "properties" s = Some properties ∧
    relevantPropertyNames_of properties = Ok ks ∧
    foldM (resolve_property entityDescriptors schema entities schemas)
          (heap_with_properties h schema s properties, []) ks = Ok (h', refs) ∧
    h' = heap_with_properties h schema s properties'.
Proof.
  unfold resolveUrlStringReferences_then. rewrite bind_Ok.
  intros (entityDescriptors & Hdescriptors & Hrest).
  destruct (h !! schema) as [s|] eqn:Hs; [|done].
  apply bind_Ok in Hrest as (ks & Hks & Hfold).
  assert (field "properties" s = Some (own s "properties")) as Hfield.
  { apply relevantPropertyNames_of_Ok in Hks as [Hundefined _].
    unfold own in *. by destruct (field "properties" s). }
  rewrite <- (heap_with_properties_initial schema h s Hs _ Hfield) in Hfold at 1.
  destruct (resolve_properties_Ok _ _ _ _ h s Hs _ _ _ _ _ Hfold)
    as (properties' & Hh' & _).
  by exists entityDescriptors, s, (own s "properties"), ks, properties'.
Qed.

Lemma own_obj_field ps k fields :
  own ps k = VObj fields → field k ps = Some (VObj fields).
Proof. unfold own. destruct (field k ps); simpl; [by intros ->|done]. Qed.

Lemma field_key k v (ps : props) : field k ps = Some v → k ∈ ps.*1.
Proof.
  intros Hfield%field_Some_elem. apply list_elem_of_fmap. by exists (k, v).
Qed.

Section ResolverProperties.
Context {world : Type}.
Variable axios_get : world → value → option string → world * option value.

Lemma resolveUrlStringReferences_Ok w entity schema entities schemas h w' h' refs :
  resolveUrlStringReferences axios_get w entity schema entities schemas h
    = (w', Ok (h', refs)) →
  ∃ data,
    axios_get w (href entity) (Some "application/alps+json") = (w', Some data) ∧
    resolveUrlStringReferences_then data entity schema entities schemas h
      = Ok (h', refs).
Proof.
  unfold resolveUrlStringReferences.
  destruct (axios_get w (href entity) _) as [w1 [data|]]; [|done].
  intros [= <- Hcatch]. exists data. split; [done|].
  by apply catch_Ok in Hcatch.
Qed.

(** The list that a call returns: for each property of type [string] and
    format [uri], in the order of the schema, the schema it refers to, unless
    that is the schema being resolved.  Nothing removes a schema that is
    recorded twice. *)
Lemma resolveUrlStringReferences_returned w entity schema entities schemas
    h w' h' refs :
  resolveUrlStringReferences axios_get w entity schema entities schemas h
    = (w', Ok (h', refs)) →
  ∃ data entityDescriptors s properties ks,
    axios_get w (href entity) (Some "application/alps+json") = (w', Some data) ∧
    entityDescriptors_of data entity = Ok entityDescriptors ∧
    h !! schema = Some s ∧
    field "properties" s = Some properties ∧
    relevantPropertyNames_of properties = Ok ks ∧
    refs = List.filter (λ l, bool_decide (l ≠ schema))
             (omap (referencedSchema_of entityDescriptors entities schemas) ks).
Proof.
  intros (data & Hget & Hthen)%resolveUrlStringReferences_Ok.
  apply resolveUrlStringReferences_then_Ok in Hthen
    as (eD & s & properties & ks & _ & HeD & Hs & Hproperties & Hks & Hfold & _).
  apply (resolve_properties_Ok _ _ _ _ h s Hs) in Hfold
    as (properties' & _ & -> & _).
  by exists data, eD, s, properties, ks.
Qed.

(** C2. Frame condition of the Reference Resolver.  After a call that
    returns, the schema has the same property names in the same order, and
    every property that is not of type [string] with format [uri] is the
    value that it was. *)
Theorem resolveUrlStringReferences_frame
    (w w' : world) (entity : EntityDescriptor) (schema : loc)
    (entities : list EntityDescriptor) (schemas : list loc) (h h' : heap)
    (refs : list loc) (s ps : props) :
  resolveUrlStringReferences axios_get w entity schema entities schemas h
    = (w', Ok (h', refs)) →
  h !! schema = Some s →
  field "properties" s = Some (VObj ps) →
  ∃ s' ps',
    h' !! schema = Some s' ∧
    field "properties" s' = Some (VObj ps') ∧
    ps'.*1 = ps.*1 ∧
    ∀ k p, field k ps = Some p → is_uri_string p ≠ Ok true →
           field k ps' = Some p.
Proof.
  intros Hrun Hs Hps.
  apply resolveUrlStringReferences_Ok in Hrun as (data & _ & Hthen).
  apply resolveUrlStringReferences_then_Ok in Hthen
    as (eD & s1 & properties & ks & _ & _ & Hs1 & Hproperties & Hks & Hfold & _).
  assert (s1 = s) as -> by congruence.
  assert (properties = VObj ps) as -> by congruence.
  apply (resolve_properties_Ok _ _ _ _ h s Hs) in Hfold
    as (properties' & -> & _ & Hkeys & Hobj & Hother & _).
  destruct (Hobj ps eq_refl) as [ps' ->]. cbn [own_entries] in Hkeys.
  exists (set_field "properties" (VObj ps') s), ps'. split_and!.
  - by apply heap_with_properties_schema.
  - apply field_set_field_eq.
  - done.
  - intros k p Hp Huri.
    assert (k ∉ ks) as Hk.
    { apply relevantPropertyNames_of_Ok in Hks as [_ Hks]. rewrite Hks.
      intros (_ & p' & Hp' & Huri'). cbn [get] in Hp'. unfold own in Hp'.
      rewrite Hp in Hp'. simpl in Hp'. congruence. }
    specialize (Hother k Hk). cbn [get] in Hother. injection Hother as Hother.
    assert (is_Some (field k ps')) as [p' Hp'].
    { apply field_is_Some_key. rewrite Hkeys. by eapply field_key. }
    unfold own in Hother. rewrite Hp, Hp' in Hother. simpl in Hother.
    by rewrite Hp', Hother.
Qed.
End ResolverProperties.

(** ** Reference Resolver: how a run ends *)

Lemma returns_or_throws_bind {A B} (m : result A) (f : A → result B) :
  returns_or_throws m → (∀ a, m = Ok a → returns_or_throws (f a)) →
  returns_or_throws (m ≫= f).
Proof. destruct m; simpl; auto. Qed.

Lemma returns_or_throws_get v k : returns_or_throws (get v k).
Proof. by destruct v. Qed.

Lemma returns_or_throws_findM {A} (p : A → result bool) l i :
  (∀ a, returns_or_throws (p a)) → returns_or_throws (findM p l i).
Proof.
  intros Hp. revert i. induction l as [|a l IH]; intros i; simpl; [done|].
  apply returns_or_throws_bind; [done|]. intros [|] _; [done|apply IH].
Qed.

Lemma returns_or_throws_filterM {A} (p : A → result bool) l :
  (∀ a, returns_or_throws (p a)) → returns_or_throws (filterM p l).
Proof.
  intros Hp. induction l as [|a l IH]; simpl; [done|].
  apply returns_or_throws_bind; [done|]. intros b _.
  by apply returns_or_throws_bind.
Qed.

Lemma returns_or_throws_array_find p array :
  (∀ d, returns_or_throws (p d)) → returns_or_throws (array_find p array).
Proof.
  intros Hp. destruct array; try done. simpl.
  apply returns_or_throws_bind; [by apply returns_or_throws_findM|done].
Qed.

Lemma returns_or_throws_is_uri_string property :
  returns_or_throws (is_uri_string property).
Proof.
  unfold is_uri_string.
  apply returns_or_throws_bind; [apply returns_or_throws_get|]. intros type _.
  destruct (strict_eq type (VStr "string")); [|done].
  apply returns_or_throws_bind; [apply returns_or_throws_get|done].
Qed.

Lemma returns_or_throws_referencedEntity_of entityDescriptors entities k :
  returns_or_throws (referencedEntity_of entityDescriptors entities k).
Proof.
  unfold referencedEntity_of. apply returns_or_throws_bind.
  { apply returns_or_throws_array_find. intros d.
    apply returns_or_throws_bind; [apply returns_or_throws_get|done]. }
  intros d _. apply returns_or_throws_bind; [apply returns_or_throws_get|].
  intros rt _. apply returns_or_throws_bind; [by destruct rt|].
  intros referencedHref _. by apply returns_or_throws_findM.
Qed.

Lemma returns_or_throws_entityDescriptors_of data entity :
  returns_or_throws (entityDescriptors_of data entity).
Proof.
  unfold entityDescriptors_of.
  apply returns_or_throws_bind; [apply returns_or_throws_get|]. intros alps _.
  apply returns_or_throws_bind; [apply returns_or_throws_get|].
  intros descriptors _. apply returns_or_throws_bind.
  { apply returns_or_throws_array_find. intros d.
    apply returns_or_throws_bind; [apply returns_or_throws_get|done]. }
  intros found _. apply returns_or_throws_get.
Qed.

Lemma returns_or_throws_relevantPropertyNames_of properties :
  returns_or_throws (relevantPropertyNames_of properties).
Proof.
  unfold relevantPropertyNames_of.
  apply returns_or_throws_bind; [by destruct properties|]. intros keys _.
  apply returns_or_throws_filterM. intros k.
  apply returns_or_throws_bind; [apply returns_or_throws_get|].
  intros property _. apply returns_or_throws_is_uri_string.
Qed.

Section ResolverEnds.
Variable entityDescriptors : value.
Variable schema : loc.
Variable entities : list EntityDescriptor.
Variable schemas : list loc.
Variable h0 : heap.
Variable s0 : props.
Hypothesis Hschema : h0 !! schema = Some s0.
Hypothesis Hschemas : Forall (λ l : loc, is_Some (h0 !! l)) schemas.

Lemma returns_or_throws_resolve_property properties refs k fields :
  get properties k = Ok (VObj fields) →
  returns_or_throws
    (resolve_property entityDescriptors schema entities schemas
       (heap_with_properties h0 schema s0 properties, refs) k).
Proof.
  intros Hget. unfold resolve_property.
  rewrite (modify_property_with schema h0 s0 Hschema), Hget.
  cbn [mbind result_bind set_prop delete_prop].
  apply returns_or_throws_bind; [apply returns_or_throws_referencedEntity_of|].
  intros found _.
  destruct (array_at schemas (indexOf_found found)) as [lE|] eqn:Hat; [|done].
  apply array_at_indexOf_found in Hat as (j & E & -> & Hj).
  assert (is_Some (heap_with_properties h0 schema s0
                     (put_entry properties k
                        (VObj (delete_field "format"
                                 (set_field "type" (VStr "object") fields))))
                   !! lE)) as [o ->].
  { destruct (decide (lE = schema)) as [->|Hne].
    - rewrite (heap_with_properties_schema schema h0 s0 Hschema). eauto.
    - unfold heap_with_properties. rewrite list_lookup_insert_ne by done.
      rewrite Forall_forall in Hschemas. apply Hschemas.
      by eapply list_elem_of_lookup_2. }
  rewrite (modify_property_with schema h0 s0 Hschema).
  erewrite get_put_entry_eq by done. done.
Qed.

Lemma returns_or_throws_resolve_properties ks properties refs :
  (∀ k, k ∈ ks → ∃ fields, get properties k = Ok (VObj fields)) →
  returns_or_throws
    (foldM (resolve_property entityDescriptors schema entities schemas)
           (heap_with_properties h0 schema s0 properties, refs) ks).
Proof.
  revert properties refs. induction ks as [|k ks IH]; intros properties refs Hks;
    cbn [foldM]; [done|].
  destruct (Hks k) as [fields Hget]; [left|].
  apply returns_or_throws_bind;
    [by eapply returns_or_throws_resolve_property|].
  intros [h1 refs1] Hstep.
  apply (resolve_property_Ok _ _ _ _ h0 s0 Hschema) in Hstep
    as (fields' & j & E & lE & sE & Hget' & _ & _ & _ & -> & _).
  apply IH. intros k' Hk'. destruct (decide (k = k')) as [<-|Hne].
  - erewrite get_put_entry_eq by done. eauto.
  - erewrite get_put_entry_ne by done. apply Hks. by right.
Qed.
End ResolverEnds.

Lemma returns_or_throws_resolveUrlStringReferences_then data entity schema
    entities schemas h :
  is_Some (h !! schema) →
  Forall (λ l : loc, is_Some (h !! l)) schemas →
  returns_or_throws
    (resolveUrlStringReferences_then data entity schema entities schemas h).
Proof.
  intros [s Hs] Hschemas. unfold resolveUrlStringReferences_then.
  apply returns_or_throws_bind; [apply returns_or_throws_entityDescriptors_of|].
  intros entityDescriptors _. rewrite Hs.
  apply returns_or_throws_bind; [apply returns_or_throws_relevantPropertyNames_of|].
  intros ks Hks. apply relevantPropertyNames_of_Ok in Hks as [Hundefined Hks].
  assert (field "properties" s = Some (own s "properties")) as Hfield.
  { unfold own in *. by destruct (field "properties" s). }
  rewrite <- (heap_with_properties_initial schema h s Hs _ Hfield) at 1.
  apply returns_or_throws_resolve_properties; [done..|].
  intros k (_ & property & Hget & Huri)%Hks.
  apply is_uri_string_obj in Huri as [fields ->]. eauto.
Qed.


(** ** The scenario of the specification *)

Example preProcessSchemas_scenario :
  preProcessSchemas [0%nat; 1%nat]
    {| noAdditionalProperties := true; noTrivialTypes := true |}
    [example_with_ref; example_authors]
  = Ok [[("title", VStr "Pet");
         ("properties",
          VObj [("name", VObj [("type", VStr "string")]);
                ("owner", VObj [("$ref", VStr "#/definitions/person");
                                ("title", VStr "Owner")])]);
         ("additionalProperties", VBool false)];
        [("title", VStr "Author"); ("type", VStr "object");
         ("properties", VObj [("name", VObj [("type", VStr "string")])]);
         ("additionalProperties", VBool false)]].
Proof. reflexivity. Qed.

Lemma collectEntities_non_self_links_witness :
  ∃ entities,
    collectEntities example_server tt = (tt, Ok entities) ∧
    length entities
      = length (List.filter (λ kv, negb (String.eqb kv.1 "self"))
                  [("self", VObj [("href", VStr "/api")]);
                   ("books", VObj [("href", VStr "/api/books")]);
                   ("authors", VObj [("href", VStr "/api/authors")])]) ∧
    name <$> entities
      = (List.filter (λ kv, negb (String.eqb kv.1 "self"))
           [("self", VObj [("href", VStr "/api")]);
            ("books", VObj [("href", VStr "/api/books")]);
            ("authors", VObj [("href", VStr "/api/authors")])]).*1 ∧
    ∀ (i : nat) e, entities !! i = Some e →
      ∃ link,
        field (name e)
          [("self", VObj [("href", VStr "/api")]);
           ("books", VObj [("href", VStr "/api/books")]);
           ("authors", VObj [("href", VStr "/api/authors")])] = Some link ∧
        get link "href" = Ok (href e).
Proof.
  apply (collectEntities_non_self_links example_server tt tt
           [("_links",
             VObj [("self", VObj [("href", VStr "/api")]);
                   ("books", VObj [("href", VStr "/api/books")]);
                   ("authors", VObj [("href", VStr "/api/authors")])])]).
  - reflexivity.
  - reflexivity.
  - repeat constructor; discriminate.
Defined.

Example collectEntities_scenario :
  collectEntities example_server tt = (tt, Ok example_entities).
Proof. reflexivity. Qed.

Example collectSchemas_scenario :
  collectSchemas example_server tt example_entities
    = (tt, Ok [VObj example_books; VObj example_authors]).
Proof. reflexivity. Qed.

Example resolveUrlStringReferences_scenario :
  resolveUrlStringReferences example_server tt example_books_entity 0%nat
    example_entities [0%nat; 1%nat] [example_books; example_authors]
    = (tt, Ok ([example_books_resolved; example_authors], [1%nat; 1%nat])).
Proof. reflexivity. Qed.

Lemma resolveUrlStringReferences_frame_witness :
  ∃ s' ps',
    [example_books_resolved; example_authors] !! 0%nat = Some s' ∧
    field "properties" s' = Some (VObj ps') ∧
    ps'.*1 = example_books_properties.*1 ∧
    ∀ k p,
      field k example_books_properties = Some p →
      is_uri_string p ≠ Ok true → field k ps' = Some p.
Proof.
  apply (resolveUrlStringReferences_frame example_server tt tt
           example_books_entity 0%nat example_entities [0%nat; 1%nat]
           [example_books; example_authors]
           [example_books_resolved; example_authors] [1%nat; 1%nat]
           example_books example_books_properties).
  - reflexivity.
  - reflexivity.
  - reflexivity.
Defined.

(** * Further properties *)

(** ** Array indices *)

(** The decimal numeral of an index starts with a digit. *)
Lemma pretty_N_go_head (c : Ascii.ascii) (x : N) (s : string) :
  (∀ n, pretty_N_char n ≠ c) →
  (∀ s', s ≠ String c s') → ∀ s', pretty_N_go x s ≠ String c s'.
Proof.
  intros Hdigit. revert s. induction (N.lt_wf_0 x) as [x _ IH]; intros s Hs.
  destruct (decide (x = 0)%N) as [->|Hpos]; [by rewrite pretty_N_go_0|].
  rewrite pretty_N_go_step by lia. apply IH; [apply N.div_lt; lia|].
  intros s' [= Hc _]. by apply Hdigit in Hc.
Qed.

Lemma pretty_nat_head (c : Ascii.ascii) (i : nat) (s' : string) :
  (∀ n, pretty_N_char n ≠ c) → pretty i ≠ String c s'.
Proof.
  intros Hdigit. unfold pretty, pretty_nat, pretty, pretty_N. case_decide.
  - intros [= Hc _]. by apply (Hdigit 0%N).
  - by apply pretty_N_go_head.
Qed.

Lemma field_indexed_from_name (c : Ascii.ascii) (s' : string) i l :
  (∀ n, pretty_N_char n ≠ c) → field (String c s') (indexed_from i l) = None.
Proof.
  intros Hdigit. revert i. induction l as [|v l IH]; intros i; [done|].
  cbn [indexed_from field].
  destruct (String.eqb_spec (pretty i) (String c s')) as [Heq|_]; [|apply IH].
  by apply pretty_nat_head in Heq.
Qed.

Lemma underscore_not_digit n : pretty_N_char n ≠ "_"%char.
Proof. unfold pretty_N_char. by repeat case_match. Qed.

(** ** Entity Discovery: how a run ends *)

Lemma mapM_Ok {A B} (f : A → result B) l l' :
  mapM f l = Ok l' ↔ Forall2 (λ a b, f a = Ok b) l l'.
Proof.
  revert l'. induction l as [|a l IH]; intros l'; simpl.
  - split; [intros [= <-]; constructor | by inversion 1].
  - rewrite bind_Ok. split.
    + intros (b & Hb & Hrest). apply bind_Ok in Hrest as (bs & Hbs & [= <-]).
      constructor; [done | by apply IH].
    + inversion 1 as [|? b ? bs Hb Hbs]; subst. exists b. split; [done|].
      apply IH in Hbs. by rewrite Hbs.
Qed.

Lemma returns_or_throws_mapM {A B} (f : A → result B) l :
  (∀ a, returns_or_throws (f a)) → returns_or_throws (mapM f l).
Proof.
  intros Hf. induction l as [|a l IH]; simpl; [done|].
  apply returns_or_throws_bind; [done|]. intros b _.
  by apply returns_or_throws_bind.
Qed.

(** The part of the callback of [collectEntities] after the test for
    [_links]. *)
Lemma returns_or_throws_collect_links data :
  returns_or_throws
    (links ← get data "_links";
     keys ← Object_keys links;
     mapM (λ k, link ← get links k;
                h ← get link "href";
                Ok {| name := k; href := h |})
          (List.filter (λ k, negb (String.eqb k "self")) keys)).
Proof.
  apply returns_or_throws_bind; [apply returns_or_throws_get|]. intros links _.
  apply returns_or_throws_bind; [by destruct links|]. intros keys _.
  apply returns_or_throws_mapM. intros k.
  apply returns_or_throws_bind; [apply returns_or_throws_get|]. intros link _.
  apply returns_or_throws_bind; [apply returns_or_throws_get|done].
Qed.

Lemma has_property_links_false data :
  has_property "_links" data = Ok false ↔
  (∃ o, data = VObj o ∧ field "_links" o = None) ∨ (∃ l, data = VArr l).
Proof.
  split.
  - destruct data as [| | | | | l | o]; try done; [eauto|].
    simpl. intros [= Hfield%bool_decide_eq_false]. left. exists o.
    split; [done|]. destruct (field "_links" o); [|done].
    destruct Hfield. eauto.
  - intros [(o & -> & Hfield)|(l & ->)]; simpl.
    + by rewrite Hfield.
    + unfold indexed.
      rewrite (field_indexed_from_name "_" "links" 0 l underscore_not_digit).
      done.
Qed.

Section DiscoveryEnds.
Context {world : Type}.
Variable axios_get : world → value → option string → world * option value.

(** X1. [collectEntities] ends the run with exit code 4 and the message about
    the missing [_links] element exactly when the profile request is
    fulfilled with an object that has no [_links] property, or with an
    array. *)
Theorem collectEntities_missing_links (w w' : world) :
  collectEntities axios_get w
    = (w', Exit 4 "Response does not contain _links element. Could not collect entities.")
  ↔ ∃ data,
      axios_get w (VStr "profile") None = (w', Some data) ∧
      ((∃ o, data = VObj o ∧ field "_links" o = None) ∨ (∃ l, data = VArr l)).
Proof.
  unfold collectEntities.
  destruct (axios_get w (VStr "profile") None) as [w1 [data|]]; split.
  - intros [= <- Hcatch]. exists data. split; [done|].
    apply has_property_links_false. unfold collectEntities_then in Hcatch.
    destruct (has_property "_links" data) as [[|]| | |] eqn:Hhas; try done;
      [|by destruct data..].
    pose proof (returns_or_throws_collect_links data) as Hrest.
    cbn [mbind result_bind negb] in Hcatch. revert Hcatch Hrest.
    by destruct (_ ≫= _).
  - intros (? & [= <- <-] & Hdata). apply has_property_links_false in Hdata.
    unfold collectEntities_then. by rewrite Hdata.
  - done.
  - by intros (? & ? & _).
Qed.

(** X2. [collectEntities] lets no exception escape: it returns the entities
    or ends the run with exit code 3 or 4.  It ends the run with code 3 when
    the profile request is rejected, and also when the request is fulfilled
    with [null] or with a value that is not an object: a string (a page that
    is not JSON), a number or a boolean. *)
Theorem collectEntities_ends (w : world) :
  let outcome := (collectEntities axios_get w).2 in
  let response := (axios_get w (VStr "profile") None).2 in
  ((∃ entities, outcome = Ok entities) ∨
   outcome = Exit 3 "Collecting entities failed." ∨
   outcome = Exit 4 "Response does not contain _links element. Could not collect entities.") ∧
  (response = None → outcome = Exit 3 "Collecting entities failed.") ∧
  (∀ data, response = Some data →
           (∀ o, data ≠ VObj o) → (∀ l, data ≠ VArr l) →
           outcome = Exit 3 "Collecting entities failed.").
Proof.
  cbv zeta. unfold collectEntities.
  destruct (axios_get w (VStr "profile") None) as [w1 [data|]]; cbn [snd].
  - split_and!; [|done|].
    + unfold collectEntities_then.
      destruct (has_property "_links" data) as [[|]| | |] eqn:Hhas;
        cbn [mbind result_bind negb catch]; [|eauto|eauto|by destruct data..].
      pose proof (returns_or_throws_collect_links data) as Hrest.
      destruct (_ ≫= _); cbn [catch]; try done; eauto.
    + intros ? [= <-] Hobj Harr.
      destruct data as [| | | | | l | o]; try done;
        [by destruct (Harr l)|by destruct (Hobj o)].
  - by split_and!; [right; left|..].
Qed.

(** X3. When the [_links] of the profile document is not a string (it is an
    object, in a document of the service), the entities that
    [collectEntities] returns are named by the keys of [_links] other than
    [self], in the order of [Object.keys]; no entity is named [self], and the
    [href] of an entity is the [href] of the link of its name, [undefined]
    when the link has none. *)
Theorem collectEntities_names (w w' : world) (entities : list EntityDescriptor)
    (data links : value) :
  collectEntities axios_get w = (w', Ok entities) →
  axios_get w (VStr "profile") None = (w', Some data) →
  get data "_links" = Ok links →
  (∀ s, links ≠ VStr s) →
  name <$> entities
    = List.filter (λ k, negb (String.eqb k "self")) (own_entries links).*1 ∧
  Forall (λ e, name e ≠ "self") entities ∧
  Forall (λ e, ∃ link, get links (name e) = Ok link ∧
                       get link "href" = Ok (href e)) entities.
Proof.
  unfold collectEntities. intros Hrun Hget Hlinks _. rewrite Hget in Hrun.
  injection Hrun as Hcatch. apply catch_Ok in Hcatch; [|done].
  unfold collectEntities_then in Hcatch.
  apply bind_Ok in Hcatch as ([|] & _ & Hrest); [|done].
  cbn [negb] in Hrest. rewrite Hlinks in Hrest. cbn [mbind result_bind] in Hrest.
  apply bind_Ok in Hrest as (keys & Hkeys & Hmap).
  assert (keys = (own_entries links).*1) as ->.
  { destruct links; by inversion Hkeys. }
  split_and!.
  - apply mapM_Ok in Hmap.
    induction Hmap as [|k e ks es Hk _ IH]; [done|]. csimpl. rewrite IH.
    apply bind_Ok in Hk as (link & _ & Hk).
    by apply bind_Ok in Hk as (h & _ & [= <-]).
  - apply mapM_Ok in Hmap.
    assert (Forall (λ k, k ≠ "self")
              (List.filter (λ k, negb (String.eqb k "self"))
                           (own_entries links).*1)) as Hself.
    { apply Forall_forall. intros k [_ Hk]%list_elem_of_In%filter_In.
      intros ->. done. }
    induction Hmap as [|k e ks es Hk _ IH]; [done|].
    apply Forall_cons in Hself as [Hne Hself]. constructor; [|auto].
    apply bind_Ok in Hk as (link & _ & Hk).
    by apply bind_Ok in Hk as (h & _ & [= <-]).
  - apply mapM_Ok in Hmap.
    induction Hmap as [|k e ks es Hk _ IH]; [done|]. constructor; [|done].
    apply bind_Ok in Hk as (link & Hlink & Hk).
    apply bind_Ok in Hk as (h & Hh & [= <-]). eauto.
Qed.

(** X4. For a profile document whose [_links] is an object, [collectEntities]
    returns when no link other than [self] is [null] (or [undefined]); the
    link [self] is not read and may be [null].  When a link other than [self]
    is [null], the run ends with exit code 3. *)
Theorem collectEntities_null_links (w w' : world) (o links : props) :
  axios_get w (VStr "profile") None = (w', Some (VObj o)) →
  field "_links" o = Some (VObj links) →
  ((∀ k, k ∈ links.*1 → k ≠ "self" →
         own links k ≠ VNull ∧ own links k ≠ VUndefined) →
   ∃ entities, collectEntities axios_get w = (w', Ok entities)) ∧
  ((∃ k, k ∈ links.*1 ∧ k ≠ "self" ∧
         (own links k = VNull ∨ own links k = VUndefined)) →
   collectEntities axios_get w = (w', Exit 3 "Collecting entities failed.")).
Proof.
  intros Hget Hlinks.
  assert (collectEntities axios_get w
          = (w', catch (mapM (λ k, link ← get (VObj links) k;
                                   h ← get link "href";
                                   Ok {| name := k; href := h |})
                          (List.filter (λ k, negb (String.eqb k "self"))
                                       links.*1))
                       (Exit 3 "Collecting entities failed."))) as ->.
  { assert (has_property "_links" (VObj o) = Ok true) as Hhas.
    { simpl. by rewrite Hlinks. }
    assert (get (VObj o) "_links" = Ok (VObj links)) as Hget_links.
    { simpl. unfold own. by rewrite Hlinks. }
    unfold collectEntities. rewrite Hget. f_equal.
    unfold collectEntities_then. rewrite Hhas. cbn [mbind result_bind negb].
    by rewrite Hget_links. }
  split.
  - intros Hgood.
    assert (∀ ks, ks ⊆ List.filter (λ k, negb (String.eqb k "self")) links.*1 →
              ∃ entities,
                mapM (λ k, link ← get (VObj links) k;
                           h ← get link "href";
                           Ok {| name := k; href := h |}) ks = Ok entities)
      as Hall.
    { induction ks as [|k ks IH]; intros Hsub; [by exists []|].
      destruct IH as [entities Hentities].
      { intros x Hx. apply Hsub. by right. }
      assert (k ∈ List.filter (λ k, negb (String.eqb k "self")) links.*1)
        as [Hk Hself]%list_elem_of_In%filter_In by (apply Hsub; left).
      apply list_elem_of_In in Hk.
      destruct (Hgood k Hk) as [Hnull Hundefined].
      { intros ->. done. }
      assert (∃ h, get (own links k) "href" = Ok h) as [h Hh].
      { destruct (own links k); simpl; eauto; done. }
      exists ({| name := k; href := h |} :: entities).
      cbn [mapM]. rewrite Hentities. cbn [get mbind result_bind].
      by rewrite Hh. }
    destruct (Hall _ (reflexivity _)) as [entities ->]. eauto.
  - intros (k & Hk & Hself & Hbad).
    pose proof (returns_or_throws_mapM
                  (λ k, link ← get (VObj links) k;
                        h ← get link "href";
                        Ok {| name := k; href := h |})
                  (List.filter (λ k, negb (String.eqb k "self")) links.*1))
      as Hends.
    destruct (mapM _ _) as [entities| | |] eqn:Hmap; cbn [catch]; try done.
    + exfalso. apply mapM_Ok in Hmap.
      assert (k ∈ List.filter (λ k, negb (String.eqb k "self")) links.*1)
        as Hin.
      { apply list_elem_of_In, filter_In. split; [by apply list_elem_of_In|].
        by destruct (String.eqb_spec k "self"). }
      clear Hends. induction Hmap as [|k0 e ks es Hk0 _ IH];
        [by apply elem_of_nil in Hin|].
      apply elem_of_cons in Hin as [<-|Hin]; [|auto].
      cbn [get mbind result_bind] in Hk0.
      by destruct Hbad as [Hbad|Hbad]; rewrite Hbad in Hk0.
    + exfalso. apply Hends.
      * intros k0. apply returns_or_throws_bind; [done|]. intros link _.
        apply returns_or_throws_bind; [apply returns_or_throws_get|done].
    + exfalso. apply Hends.
      intros k0. apply returns_or_throws_bind; [done|]. intros link _.
      apply returns_or_throws_bind; [apply returns_or_throws_get|done].
Qed.
End DiscoveryEnds.

(** ** Schema Collector: failure and composition *)

Section CollectorEnds.
Context {world : Type}.
Variable axios_get : world → value → option string → world * option value.

Lemma collectSchemas_loop_acc w entities acc :
  collectSchemas_loop axios_get w entities acc =
    let '(w', r) := collectSchemas_loop axios_get w entities [] in
    (w', (λ schemas, (acc ++ schemas)%list) <$> r).
Proof.
  revert w acc. induction entities as [|e rest IH]; intros w acc; simpl.
  - by rewrite app_nil_r.
  - destruct (axios_get w (href e) (Some "application/schema+json"))
      as [w1 [data|]]; [|done].
    rewrite (IH w1 (acc ++ [data])%list), (IH w1 [data]).
    destruct (collectSchemas_loop axios_get w1 rest []) as [w' [schemas| | |]];
      simpl; try done.
    by rewrite <- app_assoc.
Qed.

Lemma collectSchemas_fetched w entities w' schemas :
  collectSchemas axios_get w entities = (w', Ok schemas) ↔
  ∃ ws, fetched_in_order axios_get w entities ws schemas w'.
Proof.
  unfold collectSchemas. rewrite collectSchemas_loop_fetched. split.
  - intros (ws & ds & -> & Hfetched). eauto.
  - intros (ws & Hfetched). by exists ws, schemas.
Qed.

(** X5. [collectSchemas] ends the run exactly when a request is rejected: at
    the first entity, in the order of the list, whose request is rejected,
    after the requests for the entities before it were fulfilled; it ends
    with exit code 4 and the message that names this entity, and issues no
    request for the entities after it. *)
Theorem collectSchemas_first_failure (w w' : world)
    (entities : list EntityDescriptor) (code : Z) (stderr : string) :
  collectSchemas axios_get w entities = (w', Exit code stderr) ↔
  ∃ (i : nat) entity ws schemas wi,
    entities !! i = Some entity ∧
    fetched_in_order axios_get w (take i entities) ws schemas wi ∧
    axios_get wi (href entity) (Some "application/schema+json") = (w', None) ∧
    code = 4 ∧
    stderr = "Could not collect schema for '" +:+ name entity +:+ "'.".
Proof.
  assert (∀ w,
    collectSchemas axios_get w entities = (w', Exit code stderr) ↔
    ∃ (i : nat) entity schemas wi,
      entities !! i = Some entity ∧
      collectSchemas axios_get w (take i entities) = (wi, Ok schemas) ∧
      axios_get wi (href entity) (Some "application/schema+json") = (w', None) ∧
      code = 4 ∧
      stderr = "Could not collect schema for '" +:+ name entity +:+ "'.")
    as Hloop.
  { clear w. induction entities as [|e rest IH]; intros w.
    - split; [done|]. by intros (i & entity & ? & ? & ? & _).
    - unfold collectSchemas in *. cbn [collectSchemas_loop].
      destruct (axios_get w (href e) (Some "application/schema+json"))
        as [w1 [data|]] eqn:Hreq.
      + rewrite collectSchemas_loop_acc.
        destruct (collectSchemas_loop axios_get w1 rest [])
          as [w2 r] eqn:Hrest. split.
        * intros [= <- Hr].
          assert (r = Exit code stderr) as -> by (by destruct r).
          apply IH in Hrest
            as (i & entity & schemas & wi & Hi & Hbefore & Hfail & -> & ->).
          exists (S i), entity, ([data] ++ schemas)%list, wi.
          split_and!; try done. cbn [take collectSchemas_loop].
          rewrite Hreq, collectSchemas_loop_acc. by rewrite Hbefore.
        * intros ([|i] & entity & schemas & wi & Hi & Hbefore & Hfail & -> & ->).
          { simpl in Hi, Hbefore. congruence. }
          simpl in Hi. cbn [take collectSchemas_loop] in Hbefore.
          rewrite Hreq, collectSchemas_loop_acc in Hbefore.
          destruct (collectSchemas_loop axios_get w1 (take i rest) [])
            as [w3 [before| | |]] eqn:Hbefore'; try done.
          injection Hbefore as -> _.
          assert (collectSchemas_loop axios_get w1 rest []
                  = (w', Exit 4 ("Could not collect schema for '"
                                 +:+ name entity +:+ "'."))) as Hexit.
          { apply IH. by exists i, entity, before, wi. }
          rewrite Hrest in Hexit. by injection Hexit as -> ->.
      + split.
        * intros [= <- <- <-]. exists 0%nat, e, [], w. by split_and!.
        * intros ([|i] & entity & schemas & wi & Hi & Hbefore & Hfail & -> & ->).
          -- simpl in Hi, Hbefore. injection Hi as <-. injection Hbefore as <- _.
             rewrite Hreq in Hfail. by injection Hfail as <-.
          -- cbn [take collectSchemas_loop] in Hbefore.
             by rewrite Hreq in Hbefore. }
  rewrite Hloop. split.
  - intros (i & entity & schemas & wi & Hi & Hbefore & Hrest).
    apply collectSchemas_fetched in Hbefore as [ws Hws].
    by exists i, entity, ws, schemas, wi.
  - intros (i & entity & ws & schemas & wi & Hi & Hbefore & Hrest).
    exists i, entity, schemas, wi. split; [done|]. split; [|done].
    apply collectSchemas_fetched. eauto.
Qed.

(** X6. Collecting the schemas of a list [l1 ++ l2] is collecting those of
    [l1] and then, from the state this leaves, those of [l2]: the result is
    the two lists of schemas one after the other, and a failure in [l1] ends
    the run before any request for [l2]. *)
Theorem collectSchemas_app (w : world) (l1 l2 : list EntityDescriptor) :
  collectSchemas axios_get w (l1 ++ l2) =
    match collectSchemas axios_get w l1 with
    | (w1, Ok schemas1) =>
        let '(w2, r) := collectSchemas axios_get w1 l2 in
        (w2, (λ schemas2, (schemas1 ++ schemas2)%list) <$> r)
    | failed => failed
    end.
Proof.
  unfold collectSchemas.
  assert (∀ w acc,
    collectSchemas_loop axios_get w (l1 ++ l2) acc =
      match collectSchemas_loop axios_get w l1 acc with
      | (w1, Ok schemas1) => collectSchemas_loop axios_get w1 l2 schemas1
      | failed => failed
      end) as Hloop.
  { clear w. induction l1 as [|e l1 IH]; intros w acc; simpl; [done|].
    by destruct (axios_get w (href e) (Some "application/schema+json"))
      as [w1 [data|]]. }
  rewrite Hloop.
  destruct (collectSchemas_loop axios_get w l1 []) as [w1 [schemas1| | |]];
    try done.
  apply collectSchemas_loop_acc.
Qed.
End CollectorEnds.

(** ** Schema Normalizer: failure and totality *)

Lemma null_free_props_field fields k v :
  null_free_props fields = true → field k fields = Some v → null_free v = true.
Proof.
  induction fields as [|[k0 v0] fields IH]; cbn [null_free_props field]; [done|].
  intros [Hv0 Hrest]%andb_prop. destruct (String.eqb k0 k); [|auto].
  by intros [= <-].
Qed.

Lemma null_free_props_set_field fields k v :
  null_free_props fields = true → null_free v = true →
  null_free_props (set_field k v fields) = true.
Proof.
  intros Hfields Hv. induction fields as [|[k0 v0] fields IH];
    cbn [null_free_props set_field].
  - by rewrite Hv.
  - cbn [null_free_props] in Hfields. apply andb_prop in Hfields as [Hv0 Hrest].
    destruct (String.eqb k0 k); cbn [null_free_props].
    + by rewrite Hv, Hrest.
    + by rewrite Hv0, IH.
Qed.

Lemma null_free_props_delete_field fields k :
  null_free_props fields = true → null_free_props (delete_field k fields) = true.
Proof.
  induction fields as [|[k0 v0] fields IH]; cbn [null_free_props delete_field];
    [done|].
  intros [Hv0 Hrest]%andb_prop. destruct (String.eqb k0 k); [auto|].
  cbn [null_free_props]. by rewrite Hv0, IH.
Qed.

Lemma null_free_truthy_own fields k :
  truthy (own fields k) = true → null_free_props fields = true →
  null_free (own fields k) = true.
Proof.
  intros Htruthy%truthy_own_field Hfields. by eapply null_free_props_field.
Qed.

(** On a value without [null], [removeTrivialTitles] and the body of its loop
    return, and what they return is without [null]. *)
Lemma removeTrivialTitles_null_free_both (v : value) :
  null_free v = true →
  (∃ v', removeTrivialTitles v = Ok v' ∧ null_free v' = true) ∧
  (∃ v', removeTrivialTitles_property v = Ok v' ∧ null_free v' = true).
Proof.
  induction v as [| | b | n | s | elems IH | fields IH] using value_nested_ind;
    try done; try (intros _; split; by eexists).
  - change (null_free (VArr elems)) with (null_free_elems elems). intros Hfree.
    split; [|by exists (VArr elems)].
    rewrite removeTrivialTitles_arr.
    assert (∃ l', removeTrivialTitles_elems elems = Ok l' ∧
                  null_free_elems l' = true) as (l' & -> & Hl').
    { induction elems as [|e elems IHelems]; [by exists []|].
      apply Forall_cons in IH as [IHe IH]. cbn [null_free_elems] in Hfree.
      apply andb_prop in Hfree as [He Hfree].
      destruct (IHe He) as [_ (e' & He' & Hfree')].
      destruct (IHelems IH Hfree) as (l' & Hl' & Hfreel').
      exists (e' :: l'). cbn [removeTrivialTitles_elems null_free_elems].
      by rewrite He', Hl', Hfree', Hfreel'. }
    by exists (VArr l').
  - change (null_free (VObj fields)) with (null_free_props fields). intros Hfree.
    split.
    + rewrite removeTrivialTitles_obj.
      assert (∃ l', removeTrivialTitles_props fields = Ok l' ∧
                    null_free_props l' = true) as (l' & -> & Hl').
      { clear -IH Hfree. induction fields as [|[k e] fields IHfields];
          [by exists []|].
        apply Forall_cons in IH as [IHe IH]. cbn [null_free_props] in Hfree.
        apply andb_prop in Hfree as [He Hfree].
        destruct (IHe He) as [_ (e' & He' & Hfree')]. simpl in He'.
        destruct (IHfields IH Hfree) as (l' & Hl' & Hfreel').
        exists ((k, e') :: l'). cbn [removeTrivialTitles_props null_free_props].
        by rewrite He', Hl', Hfree', Hfreel'. }
      by exists (VObj l').
    + rewrite removeTrivialTitles_property_obj. cbv zeta.
      set (property := if truthy (own fields "$ref") then fields
                       else delete_field "title" fields).
      assert (null_free_props property = true) as Hproperty.
      { unfold property. destruct (truthy _); [done|].
        by apply null_free_props_delete_field. }
      assert (own property "properties" = own fields "properties") as Hsub.
      { unfold property. destruct (truthy _); [done|].
        by rewrite own_delete_field_ne. }
      destruct (truthy (own property "properties")) eqn:Htruthy;
        [|by exists (VObj property)].
      assert (∃ sub, removeTrivialTitles (own property "properties") = Ok sub ∧
                     null_free sub = true) as (sub & -> & Hfreesub).
      { rewrite Hsub in *. rewrite Forall_forall in IH.
        pose proof (null_free_truthy_own _ _ Htruthy Hfree) as Hfreeown.
        apply truthy_own_field, field_Some_elem in Htruthy.
        by apply (IH _ Htruthy). }
      exists (VObj (set_field "properties" sub property)). split; [done|].
      by apply null_free_props_set_field.
Qed.

Lemma preProcessSchema_null_free config s :
  null_free_props s = true →
  ∃ s', preProcessSchema config s = Ok s' ∧ null_free_props s' = true.
Proof.
  intros Hfree. unfold preProcessSchema.
  set (s1 := if noAdditionalProperties config
             then set_field "additionalProperties" (VBool false) s else s).
  assert (null_free_props s1 = true) as Hs1.
  { unfold s1. destruct (noAdditionalProperties config); [|done].
    by apply null_free_props_set_field. }
  assert (∀ key o, null_free_props o = true →
            ∃ o', removeTrivialTitles_of key o = Ok o' ∧
                  null_free_props o' = true) as Hof.
  { intros key o Ho. unfold removeTrivialTitles_of.
    destruct (truthy (own o key)) eqn:Htruthy; [|by exists o].
    destruct (removeTrivialTitles_null_free_both (own o key))
      as [(object' & -> & Hobject') _]; [by apply null_free_truthy_own|].
    exists (set_field key object' o). split; [done|].
    by apply null_free_props_set_field. }
  cbv zeta. fold s1. destruct (noTrivialTypes config); [|by exists s1].
  destruct (Hof "properties" s1 Hs1) as (s2 & -> & Hs2).
  cbn [mbind result_bind]. by apply Hof.
Qed.

(** X7. On schema documents that are objects, the Normalizer cannot fail
    without a [null]: when every schema of the list is an object of the heap
    that holds no [null] (and no [undefined]) at any depth,
    [preProcessSchemas] returns, for every configuration.  (A document that
    is not an object, a string say, is outside this statement: the heap holds
    objects.) *)
Theorem preProcessSchemas_total (config : config) (schemas : list loc)
    (h : heap) :
  Forall (λ l : loc, ∃ s, h !! l = Some s ∧ null_free (VObj s) = true) schemas →
  ∃ h', preProcessSchemas schemas config h = Ok h'.
Proof.
  revert h. induction schemas as [|schema rest IH]; intros h Hall; [by exists h|].
  apply Forall_cons in Hall as [(s & Hs & Hfree) Hrest].
  change (null_free (VObj s)) with (null_free_props s) in Hfree.
  cbn [preProcessSchemas]. rewrite preProcessSchemas_body_eq.
  destruct (_ || _); [|cbn [mbind result_bind]; by apply IH].
  destruct (preProcessSchema_null_free config s Hfree) as (s' & Hs' & Hfree').
  unfold modify. rewrite Hs, Hs'. cbn [mbind result_bind]. apply IH.
  eapply Forall_impl; [exact Hrest|]. intros l (sl & Hsl & Hfreel).
  destruct (decide (l = schema)) as [->|Hne].
  - exists s'. split; [|done]. apply list_lookup_insert_eq.
    by eapply lookup_lt_Some.
  - exists sl. by rewrite list_lookup_insert_ne.
Qed.

Lemma returns_or_throws_fmap {A B} (f : A → B) (m : result A) :
  returns_or_throws m → returns_or_throws (f <$> m).
Proof. by destruct m. Qed.

Lemma returns_or_throws_removeTrivialTitles_both (v : value) :
  returns_or_throws (removeTrivialTitles v) ∧
  returns_or_throws (removeTrivialTitles_property v).
Proof.
  induction v as [| | b | n | s | elems IH | fields IH] using value_nested_ind;
    try done.
  - split; [|done]. rewrite removeTrivialTitles_arr.
    apply returns_or_throws_fmap. induction IH as [|e elems [_ He] _ IHelems];
      [done|].
    cbn [removeTrivialTitles_elems]. apply returns_or_throws_bind; [done|].
    intros e' _. by apply returns_or_throws_bind.
  - split.
    + rewrite removeTrivialTitles_obj. apply returns_or_throws_fmap.
      clear -IH. induction IH as [|[k e] fields [_ He] _ IHfields]; [done|].
      cbn [removeTrivialTitles_props]. apply returns_or_throws_bind; [done|].
      intros e' _. by apply returns_or_throws_bind.
    + rewrite removeTrivialTitles_property_obj. cbv zeta.
      set (property := if truthy (own fields "$ref") then fields
                       else delete_field "title" fields).
      assert (own property "properties" = own fields "properties") as Hsub.
      { unfold property. destruct (truthy _); [done|].
        by rewrite own_delete_field_ne. }
      destruct (truthy (own property "properties")) eqn:Htruthy; [|done].
      apply returns_or_throws_bind; [|done]. rewrite Hsub in *.
      apply truthy_own_field, field_Some_elem in Htruthy.
      rewrite Forall_forall in IH. by apply (IH _ Htruthy).
Qed.

Lemma returns_or_throws_preProcessSchema config s :
  returns_or_throws (preProcessSchema config s).
Proof.
  assert (∀ key o, returns_or_throws (removeTrivialTitles_of key o)) as Hof.
  { intros key o. unfold removeTrivialTitles_of. destruct (truthy _); [|done].
    apply returns_or_throws_bind; [|done].
    apply returns_or_throws_removeTrivialTitles_both. }
  unfold preProcessSchema. cbv zeta. destruct (noTrivialTypes config); [|done].
  by apply returns_or_throws_bind.
Qed.

Lemma returns_or_throws_preProcessSchemas config schemas h :
  Forall (λ l : loc, is_Some (h !! l)) schemas →
  returns_or_throws (preProcessSchemas schemas config h).
Proof.
  revert h. induction schemas as [|schema rest IH]; intros h Hall; [done|].
  apply Forall_cons in Hall as [[s Hs] Hrest].
  cbn [preProcessSchemas]. apply returns_or_throws_bind.
  - rewrite preProcessSchemas_body_eq. destruct (_ || _); [|done].
    unfold modify. rewrite Hs. apply returns_or_throws_bind; [|done].
    apply returns_or_throws_preProcessSchema.
  - intros h1 Hbody. apply IH. eapply Forall_impl; [exact Hrest|].
    intros l Hl. rewrite preProcessSchemas_body_eq in Hbody.
    destruct (_ || _); [|by injection Hbody as <-].
    apply modify_Ok in Hbody as (o & o' & _ & _ & ->).
    apply lookup_lt_is_Some. rewrite length_insert.
    by apply lookup_lt_is_Some.
Qed.

Lemma removeTrivialTitles_null_property (fields : props) k v :
  (k, v) ∈ fields → v = VNull ∨ v = VUndefined →
  removeTrivialTitles (VObj fields) = Throw.
Proof.
  intros Hin Hnull.
  pose proof (proj1 (returns_or_throws_removeTrivialTitles_both (VObj fields)))
    as Hends.
  destruct (removeTrivialTitles (VObj fields)) as [v'| | |] eqn:Hrun; try done.
  exfalso. rewrite removeTrivialTitles_obj in Hrun.
  apply fmap_Ok in Hrun as (l' & Hprops & _).
  apply removeTrivialTitles_props_Ok in Hprops. clear Hends.
  induction Hprops as [|kv kv' l l' [_ Hkv] _ IH]; [by apply elem_of_nil in Hin|].
  apply elem_of_cons in Hin as [<-|Hin]; [|auto].
  simpl in Hkv. by destruct Hnull as [-> | ->].
Qed.

(** X8. A property schema that is [null] makes the Normalizer throw: with the
    strip-trivial-titles flag enabled, when a schema of the list has a
    [properties] or [definitions] object with a [null] property, and the
    schemas of the list are in the heap, [preProcessSchemas] throws a
    [TypeError], which nothing catches. *)
Theorem preProcessSchemas_null_property (config : config) (schemas : list loc)
    (h : heap) (schema : loc) (s ps : props) (root k : string) :
  noTrivialTypes config = true →
  Forall (λ l : loc, is_Some (h !! l)) schemas →
  schema ∈ schemas →
  h !! schema = Some s →
  root = "properties" ∨ root = "definitions" →
  field root s = Some (VObj ps) →
  (k, VNull) ∈ ps →
  preProcessSchemas schemas config h = Throw.
Proof.
  intros Hflag Hall Hin Hs Hroot Hps Hnull.
  pose proof (returns_or_throws_preProcessSchemas config schemas h Hall) as Hends.
  destruct (preProcessSchemas schemas config h) as [h'| | |] eqn:Hrun; try done.
  exfalso. clear Hends.
  destruct (preProcessSchemas_lookup _ _ _ _ _ _ Hrun Hin Hs) as (s' & Hs' & _).
  unfold preProcessSchema in Hs'. rewrite Hflag in Hs'. cbv zeta in Hs'.
  apply bind_Ok in Hs' as (s2 & Hproperties & Hdefinitions).
  set (s1 := if noAdditionalProperties config
             then set_field "additionalProperties" (VBool false) s
             else s) in *.
  assert (field root s1 = Some (VObj ps)) as Hps1.
  { unfold s1. destruct (noAdditionalProperties config); [|done].
    rewrite field_set_field_ne; [done|]. by destruct Hroot as [-> | ->]. }
  assert (∀ o, field root o = Some (VObj ps) →
               ∀ o', removeTrivialTitles_of root o = Ok o' → False) as Hthrows.
  { intros o Ho o'. unfold removeTrivialTitles_of, own. rewrite Ho. simpl.
    rewrite bind_Ok. intros (object' & Hobject' & _).
    change (removeTrivialTitles (VObj ps) = Ok object') in Hobject'.
    rewrite (removeTrivialTitles_null_property ps k VNull) in Hobject'; eauto.
    done. }
  destruct Hroot as [-> | ->].
  - by eapply Hthrows.
  - eapply (Hthrows s2); [|done].
    by rewrite (removeTrivialTitles_of_field_ne _ _ _ _ Hproperties).
Qed.

(** ** Schema Normalizer: what a run changes *)

(** X9. With the no-additional-properties flag enabled, after
    [preProcessSchemas] every schema of the list has [additionalProperties]
    set to [false], whatever it was; when the other flag is off this is the
    only change to the schema: the property is overwritten where it is, or
    added after the existing ones. *)
Theorem preProcessSchemas_additionalProperties (config : config)
    (schemas : list loc) (h h' : heap) (schema : loc) (s : props) :
  noAdditionalProperties config = true →
  preProcessSchemas schemas config h = Ok h' →
  schema ∈ schemas →
  h !! schema = Some s →
  ∃ s',
    h' !! schema = Some s' ∧
    field "additionalProperties" s' = Some (VBool false) ∧
    (noTrivialTypes config = false →
     s' = set_field "additionalProperties" (VBool false) s).
Proof.
  intros Hflag Hrun Hin Hs.
  destruct (preProcessSchemas_lookup _ _ _ _ _ _ Hrun Hin Hs) as (s' & Hs' & Hl).
  exists s'. split; [done|]. unfold preProcessSchema in Hs'.
  rewrite Hflag in Hs'. cbv zeta in Hs'.
  destruct (noTrivialTypes config).
  - split; [|done].
    rewrite (removeTrivialTitles_both_field_ne "additionalProperties" _ _ Hs')
      by discriminate.
    apply field_set_field_eq.
  - injection Hs' as <-. split; [apply field_set_field_eq|done].
Qed.

Lemma preProcessSchemas_body_swap config l1 l2 h h1 h2 :
  preProcessSchemas_body config l1 h = Ok h1 →
  preProcessSchemas_body config l2 h1 = Ok h2 →
  ∃ h1', preProcessSchemas_body config l2 h = Ok h1' ∧
         preProcessSchemas_body config l1 h1' = Ok h2.
Proof.
  destruct (noAdditionalProperties config || noTrivialTypes config) eqn:Hflags.
  - assert (∀ l h, preProcessSchemas_body config l h
                   = modify h l (preProcessSchema config)) as Hbody.
    { intros l h0. by rewrite preProcessSchemas_body_eq, Hflags. }
    rewrite !Hbody.
    intros (o1 & o1' & Ho1 & Hf1 & ->)%modify_Ok
           (o2 & o2' & Ho2 & Hf2 & ->)%modify_Ok.
    destruct (decide (l1 = l2)) as [<-|Hne].
    + rewrite list_lookup_insert_eq in Ho2 by (by eapply lookup_lt_Some).
      injection Ho2 as <-. exists (<[l1:=o1']> h). rewrite !Hbody.
      split; apply modify_Ok.
      * by exists o1, o1'.
      * exists o1', o2'. split_and!; [|done..].
        apply list_lookup_insert_eq. by eapply lookup_lt_Some.
    + rewrite list_lookup_insert_ne in Ho2 by done.
      exists (<[l2:=o2']> h). rewrite !Hbody. split; apply modify_Ok.
      * by exists o2, o2'.
      * exists o1, o1'. rewrite list_lookup_insert_ne by done.
        split_and!; [done..|]. by apply list_insert_insert_ne.
  - assert (∀ l h, preProcessSchemas_body config l h = Ok h) as Hbody.
    { intros l h0. by rewrite preProcessSchemas_body_eq, Hflags. }
    rewrite !Hbody. intros [= <-] [= <-]. exists h. by rewrite !Hbody.
Qed.

(** X10. The Normalizer does not depend on the order of the list: when
    [preProcessSchemas] returns for a list of schemas, it returns the same
    heap for every permutation of the list. *)
Theorem preProcessSchemas_permutation (config : config)
    (schemas schemas' : list loc) (h h' : heap) :
  schemas ≡ₚ schemas' →
  preProcessSchemas schemas config h = Ok h' →
  preProcessSchemas schemas' config h = Ok h'.
Proof.
  intros Hperm. revert h h'.
  induction Hperm as [|x l l' _ IH|x y l|l l' l'' _ IH1 _ IH2]; intros h h'.
  - done.
  - cbn [preProcessSchemas]. rewrite !bind_Ok.
    intros (h1 & Hbody & Hrest). eauto.
  - cbn [preProcessSchemas]. rewrite bind_Ok. intros (h1 & Hy & Hrest).
    apply bind_Ok in Hrest as (h2 & Hx & Hrest).
    destruct (preProcessSchemas_body_swap _ _ _ _ _ _ Hy Hx)
      as (h1' & Hx' & Hy').
    by rewrite Hx'; cbn [mbind result_bind]; rewrite Hy'.
  - eauto.
Qed.

Lemma removeTrivialTitles_props_keys l l' :
  removeTrivialTitles_props l = Ok l' → l'.*1 = l.*1.
Proof.
  rewrite removeTrivialTitles_props_Ok.
  induction 1 as [|kv kv' l l' [Hk _] _ IH]; [done|]. csimpl.
  by rewrite Hk, IH.
Qed.

(** X11. The Normalizer keeps the names: after [preProcessSchemas] the
    [properties] object of a schema of the list has the same property names
    in the same order, among them a property that is itself named [title];
    and the schema keeps its own top-level [title]. *)
Theorem preProcessSchemas_property_names (config : config)
    (schemas : list loc) (h h' : heap) (schema : loc) (s ps : props) :
  preProcessSchemas schemas config h = Ok h' →
  schema ∈ schemas →
  h !! schema = Some s →
  field "properties" s = Some (VObj ps) →
  ∃ s' ps',
    h' !! schema = Some s' ∧
    field "properties" s' = Some (VObj ps') ∧
    ps'.*1 = ps.*1 ∧
    field "title" s' = field "title" s.
Proof.
  intros Hrun Hin Hs Hps.
  destruct (preProcessSchemas_lookup _ _ _ _ _ _ Hrun Hin Hs) as (s' & Hs' & Hl).
  assert (field "title" s' = field "title" s) as Htitle.
  { by apply (preProcessSchema_field _ _ _ _ Hs'). }
  unfold preProcessSchema in Hs'. cbv zeta in Hs'.
  set (s1 := if noAdditionalProperties config
             then set_field "additionalProperties" (VBool false) s
             else s) in *.
  assert (field "properties" s1 = Some (VObj ps)) as Hps1.
  { unfold s1. destruct (noAdditionalProperties config); [|done].
    by rewrite field_set_field_ne. }
  destruct (noTrivialTypes config).
  - apply bind_Ok in Hs' as (s2 & Hproperties & Hdefinitions).
    unfold removeTrivialTitles_of, own in Hproperties. rewrite Hps1 in Hproperties.
    simpl in Hproperties. apply bind_Ok in Hproperties as (object' & Hrec & [= <-]).
    change (removeTrivialTitles (VObj ps) = Ok object') in Hrec.
    rewrite removeTrivialTitles_obj in Hrec.
    apply fmap_Ok in Hrec as (ps' & Hprops & ->).
    exists s', ps'. split_and!; [done| | |done].
    + rewrite (removeTrivialTitles_of_field_ne _ _ _ _ Hdefinitions) by done.
      apply field_set_field_eq.
    + by apply removeTrivialTitles_props_keys.
  - injection Hs' as <-. by exists s1, ps.
Qed.

(** ** Schema Normalizer: nothing but titles *)

Lemma erase_titles_props_delete_field l :
  erase_titles_props (delete_field "title" l) = erase_titles_props l.
Proof.
  induction l as [|[k e] l IH]; cbn [delete_field erase_titles_props]; [done|].
  destruct (String.eqb k "title") eqn:Hk; [done|].
  cbn [erase_titles_props]. by rewrite Hk, IH.
Qed.

Lemma erase_titles_props_set_field l k v v0 :
  field k l = Some v0 → erase_titles v = erase_titles v0 →
  erase_titles_props (set_field k v l) = erase_titles_props l.
Proof.
  intros Hfield Hsame. induction l as [|[k0 e] l IH]; [done|].
  cbn [field set_field erase_titles_props] in *.
  destruct (String.eqb k0 k).
  - injection Hfield as ->. cbn [erase_titles_props]. by rewrite Hsame.
  - cbn [erase_titles_props]. by rewrite IH.
Qed.

(** [removeTrivialTitles] and the body of its loop change nothing but
    [title] members. *)
Lemma removeTrivialTitles_erase_titles_both (v : value) :
  (∀ v', removeTrivialTitles v = Ok v' → erase_titles v' = erase_titles v) ∧
  (∀ v', removeTrivialTitles_property v = Ok v' →
         erase_titles v' = erase_titles v).
Proof.
  induction v as [| | b | n | s | elems IH | fields IH] using value_nested_ind;
    try (split; intros v'; simpl; by intros [= <-]); try done.
  - split; [|by intros v' [= <-]].
    intros v'. rewrite removeTrivialTitles_arr, fmap_Ok.
    intros (l' & Hl' & ->). apply removeTrivialTitles_elems_Ok in Hl'.
    change (VArr (erase_titles_elems l') = VArr (erase_titles_elems elems)).
    f_equal. induction Hl' as [|e e' l l' He _ IHl]; [done|].
    apply Forall_cons in IH as [[_ IHe] IH]. cbn [erase_titles_elems].
    by rewrite (IHe _ He), IHl.
  - split; intros v'.
    + rewrite removeTrivialTitles_obj, fmap_Ok.
      intros (l' & Hl' & ->). apply removeTrivialTitles_props_Ok in Hl'.
      change (VObj (erase_titles_props l') = VObj (erase_titles_props fields)).
      f_equal. induction Hl' as [|[k e] [k' e'] l l' [Hk He] _ IHl]; [done|].
      apply Forall_cons in IH as [[_ IHe] IH]. simpl in Hk, He, IHe. subst k'.
      cbn [erase_titles_props]. by rewrite (IHe _ He), IHl.
    + rewrite removeTrivialTitles_property_obj. cbv zeta.
      set (property := if truthy (own fields "$ref") then fields
                       else delete_field "title" fields).
      assert (erase_titles_props property = erase_titles_props fields)
        as Hproperty.
      { unfold property. destruct (truthy _); [done|].
        apply erase_titles_props_delete_field. }
      assert (own property "properties" = own fields "properties") as Hsub.
      { unfold property. destruct (truthy _); [done|].
        by rewrite own_delete_field_ne. }
      destruct (truthy (own property "properties")) eqn:Htruthy.
      * rewrite bind_Ok. intros (sub & Hrec & [= <-]).
        change (VObj (erase_titles_props (set_field "properties" sub property))
                = VObj (erase_titles_props fields)).
        f_equal. rewrite <- Hproperty.
        apply (erase_titles_props_set_field _ _ _ (own property "properties"));
          [by apply truthy_own_field|].
        rewrite Hsub in *. rewrite Forall_forall in IH.
        apply truthy_own_field, field_Some_elem in Htruthy.
        destruct (IH _ Htruthy) as [IHsub _]. by apply IHsub.
      * intros [= <-].
        change (VObj (erase_titles_props property)
                = VObj (erase_titles_props fields)).
        by f_equal.
Qed.

Lemma removeTrivialTitles_of_erase_titles key s s' :
  removeTrivialTitles_of key s = Ok s' →
  erase_titles_props s' = erase_titles_props s.
Proof.
  unfold removeTrivialTitles_of.
  destruct (truthy (own s key)) eqn:Htruthy; [|by intros [= <-]].
  rewrite bind_Ok. intros (object' & Hrec & [= <-]).
  apply (erase_titles_props_set_field _ _ _ (own s key));
    [by apply truthy_own_field|].
  by apply (proj1 (removeTrivialTitles_erase_titles_both (own s key))).
Qed.

(** X12. The Normalizer changes nothing but titles and
    [additionalProperties]: after [preProcessSchemas], a schema of the list
    without its [title] members, at any depth, is the schema it was (with
    [additionalProperties] set to [false] when that flag is enabled) without
    its [title] members: no type, format, reference, name or order of a
    property is changed. *)
Theorem preProcessSchemas_only_titles (config : config) (schemas : list loc)
    (h h' : heap) (schema : loc) (s : props) :
  preProcessSchemas schemas config h = Ok h' →
  schema ∈ schemas →
  h !! schema = Some s →
  ∃ s',
    h' !! schema = Some s' ∧
    erase_titles (VObj s')
    = erase_titles
        (VObj (if noAdditionalProperties config
               then set_field "additionalProperties" (VBool false) s
               else s)).
Proof.
  intros Hrun Hin Hs.
  destruct (preProcessSchemas_lookup _ _ _ _ _ _ Hrun Hin Hs) as (s' & Hs' & Hl).
  exists s'. split; [done|]. unfold preProcessSchema in Hs'. cbv zeta in Hs'.
  set (s1 := if noAdditionalProperties config
             then set_field "additionalProperties" (VBool false) s
             else s) in *.
  change (VObj (erase_titles_props s') = VObj (erase_titles_props s1)). f_equal.
  destruct (noTrivialTypes config); [|by injection Hs' as <-].
  apply bind_Ok in Hs' as (s2 & Hproperties & Hdefinitions).
  apply removeTrivialTitles_of_erase_titles in Hproperties, Hdefinitions.
  congruence.
Qed.

Lemma preProcessSchemas_only_titles_witness :
  ∃ s',
    [example_authors_stripped] !! 0%nat = Some s' ∧
    erase_titles (VObj s')
    = erase_titles
        (VObj (if noAdditionalProperties strip_titles
               then set_field "additionalProperties" (VBool false)
                      example_authors
               else example_authors)).
Proof.
  apply (preProcessSchemas_only_titles strip_titles [0%nat] [example_authors]
           [example_authors_stripped] 0%nat example_authors).
  - reflexivity.
  - repeat constructor.
  - reflexivity.
Defined.

(** ** Reference Resolver: the referenced [href] *)

Lemma lastIndexOf_from_absent c s i last :
  occurs c s = false → lastIndexOf_from c s i last = last.
Proof.
  revert i last. induction s as [|a s IH]; intros i last; simpl; [done|].
  intros [Ha Hs]%orb_false_elim. rewrite Ha. by apply IH.
Qed.

Lemma lastIndexOf_from_last c base frag i last :
  occurs c frag = false →
  lastIndexOf_from c (base +:+ String c frag) i last
    = i + Z.of_nat (String.length base).
Proof.
  intros Hfrag. revert i last.
  induction base as [|a base IH]; intros i last; simpl.
  - rewrite Ascii.eqb_refl, lastIndexOf_from_absent by done. lia.
  - change (lastIndexOf_from c (base +:+ String c frag) (i + 1)
              (if Ascii.eqb a c then i else last)
            = i + Z.of_nat (S (String.length base))).
    rewrite IH. lia.
Qed.

Lemma substring_prefix base rest :
  String.substring 0 (String.length base) (base +:+ rest) = base.
Proof.
  induction base as [|a base IH]; simpl; [by destruct rest|].
  f_equal. apply IH.
Qed.

Lemma strip_fragment_no_hash (s : string) :
  occurs "#" s = false → strip_fragment (VStr s) = Ok "".
Proof.
  intros Hs. unfold strip_fragment, lastIndexOf, substr.
  rewrite lastIndexOf_from_absent by done. by destruct s.
Qed.

(** X13. The referenced [href] is the [rt] of the descriptor up to its last
    [#]: for an [rt] made of [base], a [#] and a fragment without [#], it is
    [base], also when [base] itself holds a [#]. *)
Theorem strip_fragment_last_hash (base frag : string) :
  occurs "#" frag = false →
  strip_fragment (VStr (base +:+ String "#" frag)) = Ok base.
Proof.
  intros Hfrag. unfold strip_fragment, lastIndexOf, substr.
  rewrite lastIndexOf_from_last by done.
  change (0 + Z.of_nat (String.length base)) with (Z.of_nat (String.length base)).
  rewrite Nat2Z.id. simpl Z.to_nat. by rewrite substring_prefix.
Qed.

Lemma strip_fragment_last_hash_witness :
  occurs "#" "author-representation" = false ∧
  strip_fragment (VStr ("/api/v#2/authors" +:+ String "#" "author-representation"))
    = Ok "/api/v#2/authors".
Proof.
  split; [reflexivity|].
  apply (strip_fragment_last_hash "/api/v#2/authors" "author-representation").
  reflexivity.
Defined.

Lemma strict_eq_VStr v s : strict_eq v (VStr s) = true → v = VStr s.
Proof. destruct v; simpl; try done. by intros ->%String.eqb_eq. Qed.

Lemma findM_None {A} (p : A → result bool) l i :
  Forall (λ a, p a = Ok false) l → findM p l i = Ok None.
Proof.
  intros Hall. revert i. induction Hall as [|a l Ha _ IH]; intros i; simpl; [done|].
  rewrite Ha. cbn [mbind result_bind]. apply IH.
Qed.

Lemma referencedEntity_of_no_hash entityDescriptors entities k d rt :
  array_find (λ d, n ← get d "name"; Ok (strict_eq n (VStr k))) entityDescriptors
    = Ok d →
  get d "rt" = Ok (VStr rt) →
  occurs "#" rt = false →
  Forall (λ e, href e ≠ VStr "") entities →
  referencedEntity_of entityDescriptors entities k = Ok None.
Proof.
  intros Hd Hrt Hhash Hentities. unfold referencedEntity_of.
  rewrite Hd. cbn [mbind result_bind]. rewrite Hrt. cbn [mbind result_bind].
  rewrite strip_fragment_no_hash by done. cbn [mbind result_bind].
  apply findM_None. eapply Forall_impl; [done|]. intros e He. simpl in *.
  f_equal. destruct (strict_eq (href e) (VStr "")) eqn:Heq; [|done].
  by apply strict_eq_VStr in Heq.
Qed.

Section ResolverFragment.
Context {world : Type}.
Variable axios_get : world → value → option string → world * option value.

(** X14. An [rt] without a [#] is fatal.  [lastIndexOf] gives [-1] and
    [substr(0, -1)] the empty string: when the descriptor of a property of
    type [string] and format [uri] has an [rt] in which no [#] occurs, and no
    entity has the empty [href], the call ends the run with exit code 4. *)
Theorem resolveUrlStringReferences_rt_without_fragment
    (w w' : world) (data : value) (entity : EntityDescriptor) (schema : loc)
    (entities : list EntityDescriptor) (schemas : list loc) (h : heap)
    (s : props) (properties : value) (k : string) (p : value)
    (entityDescriptors d : value) (rt : string) :
  axios_get w (href entity) (Some "application/alps+json") = (w', Some data) →
  entityDescriptors_of data entity = Ok entityDescriptors →
  h !! schema = Some s →
  Forall (λ l : loc, is_Some (h !! l)) schemas →
  field "properties" s = Some properties →
  k ∈ (own_entries properties).*1 →
  get properties k = Ok p →
  is_uri_string p = Ok true →
  array_find (λ d, n ← get d "name"; Ok (strict_eq n (VStr k))) entityDescriptors
    = Ok d →
  get d "rt" = Ok (VStr rt) →
  occurs "#" rt = false →
  Forall (λ e, href e ≠ VStr "") entities →
  resolveUrlStringReferences axios_get w entity schema entities schemas h
    = (w', Exit 4 ("Could not collect schema references for '"
                   +:+ name entity +:+ "'.")).
Proof.
  intros Hget HeD Hs Hschemas Hproperties Hk Hp Huri Hd Hrt Hhash Hentities.
  unfold resolveUrlStringReferences. rewrite Hget. f_equal.
  pose proof (returns_or_throws_resolveUrlStringReferences_then
                data entity schema entities schemas h (mk_is_Some _ _ Hs) Hschemas)
    as Hends.
  destruct (resolveUrlStringReferences_then data entity schema entities schemas h)
    as [[h' refs]| | |] eqn:Hthen; try done.
  exfalso.
  apply resolveUrlStringReferences_then_Ok in Hthen
    as (eD & s1 & properties1 & ks & _ & HeD1 & Hs1 & Hproperties1 & Hks & Hfold & _).
  assert (eD = entityDescriptors) as -> by congruence.
  assert (s1 = s) as -> by congruence.
  assert (properties1 = properties) as -> by congruence.
  apply (resolve_properties_Ok _ _ _ _ h s Hs) in Hfold
    as (properties' & _ & _ & _ & _ & _ & Hnamed).
  destruct (Hnamed k) as (fields' & j & E & lE & sE & _ & Hfound & _).
  { apply relevantPropertyNames_of_Ok in Hks as [_ Hks]. apply Hks. eauto. }
  by rewrite (referencedEntity_of_no_hash _ _ _ _ _ Hd Hrt Hhash Hentities)
    in Hfound.
Qed.
End ResolverFragment.

(** ** Reference Resolver: what a call leaves as it was *)

Lemma resolved_property_other title fields k :
  k ≠ "type" → k ≠ "format" → k ≠ "title" →
  field k (resolved_property title fields) = field k fields.
Proof.
  intros Htype Hformat Htitle. unfold resolved_property.
  rewrite field_set_field_ne by done.
  rewrite field_delete_field_ne by done.
  by rewrite field_set_field_ne.
Qed.

Lemma Object_keys_put_entry container k fields v :
  get container k = Ok (VObj fields) →
  Object_keys (put_entry container k v) = Object_keys container.
Proof.
  intros Hget. pose proof (own_entries_put_entry _ _ _ v Hget) as Hkeys.
  apply get_obj_container in Hget as [(ps & -> & _)|(l & -> & _)];
    unfold Object_keys, put_entry in *; by rewrite Hkeys.
Qed.

Section ResolverKeeps.
Variable entityDescriptors : value.
Variable schema : loc.
Variable entities : list EntityDescriptor.
Variable schemas : list loc.
Variable h0 : heap.
Variable s0 : props.
Hypothesis Hschema : h0 !! schema = Some s0.

(** The outcome of [forEach], for the fields that it does not assign: a
    property that was an object is one, and its fields other than [type],
    [format] and [title] are what they were. *)
Lemma resolve_properties_other_fields ks properties refs h' refs' :
  foldM (resolve_property entityDescriptors schema entities schemas)
        (heap_with_properties h0 schema s0 properties, refs) ks
    = Ok (h', refs') →
  ∃ properties',
    h' = heap_with_properties h0 schema s0 properties' ∧
    Object_keys properties' = Object_keys properties ∧
    (∀ ps, properties = VObj ps → ∃ ps', properties' = VObj ps') ∧
    ∀ k fields, get properties k = Ok (VObj fields) →
      ∃ fields', get properties' k = Ok (VObj fields') ∧
        ∀ k', k' ≠ "type" → k' ≠ "format" → k' ≠ "title" →
              field k' fields' = field k' fields.
Proof.
  revert properties refs. induction ks as [|k0 ks IH]; intros properties refs.
  - intros [= <- <-]. exists properties. split_and!; eauto.
  - cbn [foldM]. rewrite bind_Ok. intros ([h1 refs1] & Hstep & Hrest).
    apply (resolve_property_Ok _ _ _ _ h0 s0 Hschema) in Hstep
      as (fields0 & j & E & lE & sE & Hget0 & _ & _ & _ & -> & ->).
    apply IH in Hrest as (properties' & -> & Hkeys & Hobj & Hfields).
    exists properties'. split_and!; [done| | |].
    + rewrite Hkeys. by eapply Object_keys_put_entry.
    + intros ps ->. by eapply Hobj.
    + intros k fields Hget. destruct (decide (k0 = k)) as [->|Hne].
      * assert (fields0 = fields) as -> by congruence.
        destruct (Hfields k (resolved_property (own sE "title") fields))
          as (fields' & Hget' & Hsame); [by eapply get_put_entry_eq|].
        exists fields'. split; [done|]. intros k' Htype Hformat Htitle.
        rewrite Hsame by done. by apply resolved_property_other.
      * apply Hfields. by erewrite get_put_entry_ne.
Qed.
End ResolverKeeps.

Lemma filterM_none {A} (p : A → result bool) l :
  Forall (λ a, p a = Ok false) l → filterM p l = Ok [].
Proof.
  induction 1 as [|a l Ha _ IH]; simpl; [done|].
  rewrite Ha. cbn [mbind result_bind]. by rewrite IH.
Qed.

Lemma is_uri_string_object fields :
  field "type" fields = Some (VStr "object") →
  is_uri_string (VObj fields) = Ok false.
Proof.
  intros Htype. unfold is_uri_string. cbn [get mbind result_bind].
  unfold own. by rewrite Htype.
Qed.

Section ResolverInvariants.
Context {world : Type}.
Variable axios_get : world → value → option string → world * option value.

(** X15. The Resolver writes to [schema.properties] only.  After a call that
    returns, the heap holds as many documents as before, every other
    document is the one it was (the schemas that are referred to are read,
    not written), and the schema has its top-level fields in the same order,
    each other than [properties] with the value it had. *)
Theorem resolveUrlStringReferences_heap_frame
    (w w' : world) (entity : EntityDescriptor) (schema : loc)
    (entities : list EntityDescriptor) (schemas : list loc) (h h' : heap)
    (refs : list loc) :
  resolveUrlStringReferences axios_get w entity schema entities schemas h
    = (w', Ok (h', refs)) →
  length h' = length h ∧
  (∀ l : loc, l ≠ schema → h' !! l = h !! l) ∧
  ∃ s s',
    h !! schema = Some s ∧ h' !! schema = Some s' ∧
    s'.*1 = s.*1 ∧
    ∀ k, k ≠ "properties" → field k s' = field k s.
Proof.
  intros (data & _ & Hthen)%resolveUrlStringReferences_Ok.
  apply resolveUrlStringReferences_then_Ok in Hthen
    as (eD & s & properties & ks & properties' & _ & Hs & Hproperties & _ & _ & ->).
  unfold heap_with_properties. split_and!.
  - apply length_insert.
  - intros l Hne. by apply list_lookup_insert_ne.
  - exists s, (set_field "properties" properties' s). split_and!.
    + done.
    + apply list_lookup_insert_eq. by eapply lookup_lt_Some.
    + apply set_field_keys. eauto.
    + intros k Hne. by apply field_set_field_ne.
Qed.

(** X16. The list that a call returns never holds the schema that is being
    resolved, and each of its members is the schema at the position of one
    of the entities, and a document of the heap. *)
Theorem resolveUrlStringReferences_references
    (w w' : world) (entity : EntityDescriptor) (schema : loc)
    (entities : list EntityDescriptor) (schemas : list loc) (h h' : heap)
    (refs : list loc) :
  resolveUrlStringReferences axios_get w entity schema entities schemas h
    = (w', Ok (h', refs)) →
  (schema ∉ refs) ∧
  (∀ l : loc, l ∈ refs →
     ∃ (j : nat) E,
       entities !! j = Some E ∧ schemas !! j = Some l ∧ is_Some (h !! l)).
Proof.
  intros (data & _ & Hthen)%resolveUrlStringReferences_Ok.
  apply resolveUrlStringReferences_then_Ok in Hthen
    as (eD & s & properties & ks & _ & _ & Hs & _ & _ & Hfold & _).
  apply (resolve_properties_Ok _ _ _ _ h s Hs) in Hfold
    as (properties' & _ & -> & _ & _ & _ & Hnamed).
  cbn [app]. split.
  - rewrite list_elem_of_In, filter_In, bool_decide_eq_true. by intros [_ ?].
  - intros l. rewrite list_elem_of_In, filter_In, <- list_elem_of_In.
    rewrite list_elem_of_omap. intros [(k & Hk & Hl) _].
    destruct (Hnamed k Hk) as (fields' & j & E & lE & sE & _ & Hfound & Hj & HsE & _).
    rewrite (referencedSchema_of_Some _ _ _ _ _ _ _ Hfound Hj) in Hl.
    injection Hl as <-. exists j, E. split_and!; [|done|eauto].
    by eapply referencedEntity_of_position.
Qed.

(** X17. A resolved property keeps its other fields.  After a call that
    returns, a property of the schema that was an object is an object, and
    each of its fields other than [type], [format] and [title] (a
    [description], [readOnly], ...) has the value it had, whether or not the
    property was of type [string] and format [uri]. *)
Theorem resolveUrlStringReferences_keeps_other_fields
    (w w' : world) (entity : EntityDescriptor) (schema : loc)
    (entities : list EntityDescriptor) (schemas : list loc) (h h' : heap)
    (refs : list loc) (s ps : props) (k : string) (fields : props) :
  resolveUrlStringReferences axios_get w entity schema entities schemas h
    = (w', Ok (h', refs)) →
  h !! schema = Some s →
  field "properties" s = Some (VObj ps) →
  field k ps = Some (VObj fields) →
  ∃ s' ps' fields',
    h' !! schema = Some s' ∧
    field "properties" s' = Some (VObj ps') ∧
    field k ps' = Some (VObj fields') ∧
    ∀ k', k' ≠ "type" → k' ≠ "format" → k' ≠ "title" →
          field k' fields' = field k' fields.
Proof.
  intros Hrun Hs Hps Hk.
  apply resolveUrlStringReferences_Ok in Hrun as (data & _ & Hthen).
  apply resolveUrlStringReferences_then_Ok in Hthen
    as (eD & s1 & properties & ks & _ & _ & Hs1 & Hproperties & _ & Hfold & _).
  assert (s1 = s) as -> by congruence.
  assert (properties = VObj ps) as -> by congruence.
  apply (resolve_properties_other_fields _ _ _ _ h s Hs) in Hfold
    as (properties' & -> & _ & Hobj & Hfields).
  destruct (Hobj ps eq_refl) as [ps' ->].
  destruct (Hfields k fields) as (fields' & Hget & Hsame).
  { cbn [get]. unfold own. by rewrite Hk. }
  exists (set_field "properties" (VObj ps') s), ps', fields'. split_and!.
  - by apply heap_with_properties_schema.
  - apply field_set_field_eq.
  - injection Hget as Hget. by apply own_obj_field.
  - done.
Qed.

(** X18. Resolving a schema a second time changes nothing.  After a call
    that returns, no property of the schema is of type [string] with format
    [uri]; a second call for the same entity and schema, when its request is
    answered with a document that lists descriptors for the entity, returns
    the heap as it is and an empty list. *)
Theorem resolveUrlStringReferences_again
    (w w1 w2 : world) (entity : EntityDescriptor) (schema : loc)
    (entities : list EntityDescriptor) (schemas : list loc) (h h1 : heap)
    (refs : list loc) (data2 entityDescriptors2 : value) :
  resolveUrlStringReferences axios_get w entity schema entities schemas h
    = (w1, Ok (h1, refs)) →
  axios_get w1 (href entity) (Some "application/alps+json") = (w2, Some data2) →
  entityDescriptors_of data2 entity = Ok entityDescriptors2 →
  resolveUrlStringReferences axios_get w1 entity schema entities schemas h1
    = (w2, Ok (h1, [])).
Proof.
  intros Hrun Hget2 HeD2.
  apply resolveUrlStringReferences_Ok in Hrun as (data & _ & Hthen).
  apply resolveUrlStringReferences_then_Ok in Hthen
    as (eD & s & properties & ks & _ & _ & Hs & Hproperties & Hks & Hfold & _).
  pose proof Hfold as Hfold'.
  apply (resolve_properties_Ok _ _ _ _ h s Hs) in Hfold
    as (properties' & -> & _ & _ & _ & Hother & Hnamed).
  apply (resolve_properties_other_fields _ _ _ _ h s Hs) in Hfold'
    as (properties'' & Heq & Hkeys & _).
  assert (properties'' = properties') as ->.
  { apply (f_equal (λ h : heap, h !! schema)) in Heq.
    rewrite !heap_with_properties_schema in Heq by done.
    injection Heq as Heq. apply (f_equal (λ s, own s "properties")) in Heq.
    by rewrite !own_set_field_eq in Heq. }
  assert (relevantPropertyNames_of properties' = Ok []) as Hnone.
  { unfold relevantPropertyNames_of in *. rewrite Hkeys.
    apply bind_Ok in Hks as (keys & -> & Hfilter). cbn [mbind result_bind].
    apply filterM_Ok in Hfilter as [Hmem Hall]. apply filterM_none.
    rewrite Forall_forall in Hall. apply Forall_forall. intros k Hk.
    destruct (Hall k Hk) as [b Hb]. simpl in *.
    destruct (decide (k ∈ ks)) as [Hin|Hout].
    - destruct (Hnamed k Hin)
        as (fields' & _ & _ & _ & _ & Hget' & _ & _ & _ & Htype & _).
      rewrite Hget'. cbn [mbind result_bind]. by apply is_uri_string_object.
    - rewrite (Hother k Hout), Hb. destruct b; [|done].
      destruct Hout. apply Hmem. by split. }
  unfold resolveUrlStringReferences. rewrite Hget2. f_equal.
  unfold resolveUrlStringReferences_then. rewrite HeD2. cbn [mbind result_bind].
  rewrite heap_with_properties_schema by done. rewrite own_set_field_eq.
  rewrite Hnone. done.
Qed.
End ResolverInvariants.

(** ** Authentication and the run up to the schemas *)

Lemma strict_eq_VStr_ne v s : v ≠ VStr s → strict_eq v (VStr s) = false.
Proof.
  intros Hne. destruct (strict_eq v (VStr s)) eqn:Heq; [|done].
  by apply strict_eq_VStr in Heq.
Qed.

Section GenerateEnds.
Context {world : Type}.
Variable axios_get : world → value → option string → world * option value.
Variable axios_post : world → value → value → value → world * option value.
Variable qs_stringify : props → string.
Variable set_authorization : world → value → world.

Lemma doLogin_outcome w options :
  (doLogin axios_post qs_stringify set_authorization w options).2 = Ok tt ∨
  (doLogin axios_post qs_stringify set_authorization w options).2 = Throw.
Proof.
  unfold doLogin, authenticateWithCookies, authenticateWithOAuth2.
  destruct (strict_eq (authMethod options) (VStr "COOKIE")).
  { destruct (axios_post w _ _ _) as [w1 [data|]]; simpl; eauto. }
  destruct (strict_eq (authMethod options) (VStr "OAUTH2")); [|by left].
  destruct (strict_eq (oauthFlow options) (VStr "PASSWORD")); [|by right].
  destruct (axios_post w _ _ _) as [w1 [data|]]; [|by right].
  destruct (get data "access_token"); simpl; eauto.
Qed.

Lemma collectEntities_outcome w :
  (∃ entities, (collectEntities axios_get w).2 = Ok entities) ∨
  (collectEntities axios_get w).2 = Exit 3 "Collecting entities failed." ∨
  (collectEntities axios_get w).2
    = Exit 4 "Response does not contain _links element. Could not collect entities.".
Proof.
  unfold collectEntities.
  destruct (axios_get w (VStr "profile") None) as [w1 [data|]]; cbn [snd];
    [|by right; left].
  unfold collectEntities_then.
  destruct (has_property "_links" data) as [[|]| | |] eqn:Hhas;
    cbn [mbind result_bind negb catch]; [|eauto|eauto|by destruct data..].
  pose proof (returns_or_throws_collect_links data) as Hrest.
  destruct (_ ≫= _); cbn [catch]; try done; eauto.
Qed.

Lemma collectSchemas_loop_outcome w entities acc :
  (∃ schemas, (collectSchemas_loop axios_get w entities acc).2 = Ok schemas) ∨
  (∃ entity, entity ∈ entities ∧
     (collectSchemas_loop axios_get w entities acc).2
       = Exit 4 ("Could not collect schema for '" +:+ name entity +:+ "'.")).
Proof.
  revert w acc. induction entities as [|e rest IH]; intros w acc; simpl; [eauto|].
  destruct (axios_get w (href e) (Some "application/schema+json"))
    as [w1 [data|]].
  - destruct (IH w1 (acc ++ [data])%list) as [?|(entity & Hin & Hexit)]; [by left|].
    right. exists entity. split; [by right|done].
  - right. exists e. split; [by left|done].
Qed.

(** What a run of [doGenerate] that reaches the schemas went through. *)
Lemma doGenerate_collect_Ok w options w' entities schemas :
  doGenerate_collect axios_get axios_post qs_stringify set_authorization w options
    = (w', Ok (entities, schemas)) →
  ∃ w1 w2,
    (if strict_eq (authMethod options) (VStr "NONE") then w1 = w
     else doLogin axios_post qs_stringify set_authorization w options
          = (w1, Ok tt)) ∧
    collectEntities axios_get w1 = (w2, Ok entities) ∧
    collectSchemas axios_get w2 entities = (w', Ok schemas).
Proof.
  unfold doGenerate_collect. intros Hrun.
  assert (∃ w1 : world,
    (if strict_eq (authMethod options) (VStr "NONE") then w1 = w
     else doLogin axios_post qs_stringify set_authorization w options
          = (w1, Ok tt)) ∧
    (let '(w2, collected) := collectEntities axios_get w1 in
     match collected with
     | Ok entities =>
         let '(w3, jsonSchemas) := collectSchemas axios_get w2 entities in
         (w3, (λ schemas, (entities, schemas)) <$> jsonSchemas)
     | Throw => (w2, Throw)
     | Exit code stderr => (w2, Exit code stderr)
     | Stuck => (w2, Stuck)
     end) = (w', Ok (entities, schemas))) as (w1 & Hlogin & Hrest).
  { destruct (strict_eq (authMethod options) (VStr "NONE")); simpl in Hrun.
    - by exists w.
    - destruct (doLogin axios_post qs_stringify set_authorization w options)
        as [w1 [[]| | |]]; try done.
      by exists w1. }
  exists w1.
  destruct (collectEntities axios_get w1) as [w2 [es| | |]] eqn:Hentities;
    try done.
  exists w2.
  destruct (collectSchemas axios_get w2 es) as [w3 [ss| | |]] eqn:Hschemas;
    try done.
  simpl in Hrest. injection Hrest as <- <- <-. done.
Qed.

(** X19. Up to the point where [doGenerate] has the schemas, no exception
    escapes it: the run has the entities and as many schemas, or it has
    ended with exit code 5 (authentication), 3 or 4 (the profile), or 4 with
    the message that names an entity whose schema was not fetched. *)
Theorem doGenerate_collect_ends (w w' : world) (options : options)
    (r : result (list EntityDescriptor * list value)) :
  doGenerate_collect axios_get axios_post qs_stringify set_authorization w options
    = (w', r) →
  (∃ entities schemas,
     r = Ok (entities, schemas) ∧ length schemas = length entities) ∨
  r = Exit 5 "Authentication failed." ∨
  r = Exit 3 "Collecting entities failed." ∨
  r = Exit 4 "Response does not contain _links element. Could not collect entities." ∨
  (∃ entity,
     r = Exit 4 ("Could not collect schema for '" +:+ name entity +:+ "'.")).
Proof.
  destruct r as [[entities schemas]| |code stderr|].
  - intros (w1 & w2 & _ & _ & Hschemas)%doGenerate_collect_Ok. left.
    exists entities, schemas. split; [done|].
    apply collectSchemas_loop_fetched in Hschemas
      as (ws & ds & [= ->] & _ & _ & _ & Hlen & _).
    done.
  - unfold doGenerate_collect.
    destruct (strict_eq (authMethod options) (VStr "NONE")); cbn [negb].
    + pose proof (collectEntities_outcome w) as Hentities.
      destruct (collectEntities axios_get w) as [w2 [es| | |]]; cbn [snd] in *;
        [|by destruct Hentities as [[? ?]|[?|?]]..].
      pose proof (collectSchemas_loop_outcome w2 es []) as Hschemas.
      unfold collectSchemas.
      destruct (collectSchemas_loop axios_get w2 es []) as [w3 [ss| | |]];
        cbn [snd] in *; [done|by destruct Hschemas as [[? ?]|(? & _ & ?)]..].
    + pose proof (doLogin_outcome w options) as Hlogin.
      destruct (doLogin axios_post qs_stringify set_authorization w options)
        as [w1 [[]| | |]]; cbn [snd catch] in *;
        [|by destruct Hlogin..].
      pose proof (collectEntities_outcome w1) as Hentities.
      destruct (collectEntities axios_get w1) as [w2 [es| | |]]; cbn [snd] in *;
        [|by destruct Hentities as [[? ?]|[?|?]]..].
      pose proof (collectSchemas_loop_outcome w2 es []) as Hschemas.
      unfold collectSchemas.
      destruct (collectSchemas_loop axios_get w2 es []) as [w3 [ss| | |]];
        cbn [snd] in *; [done|by destruct Hschemas as [[? ?]|(? & _ & ?)]..].
  - unfold doGenerate_collect.
    destruct (strict_eq (authMethod options) (VStr "NONE")); cbn [negb].
    + pose proof (collectEntities_outcome w) as Hentities.
      destruct (collectEntities axios_get w) as [w2 [es| | |]]; cbn [snd] in *.
      * pose proof (collectSchemas_loop_outcome w2 es []) as Hschemas.
        unfold collectSchemas.
        destruct (collectSchemas_loop axios_get w2 es []) as [w3 [ss| | |]];
          cbn [snd] in *; try done.
        destruct Hschemas as [[? ?]|(entity & _ & Hexit)]; [done|].
        intros [= <- <- <-]. injection Hexit as -> ->. do 4 right. eauto.
      * done.
      * intros [= <- <- <-].
        destruct Hentities as [[? ?]|[Hexit|Hexit]]; [done|..];
          injection Hexit as -> ->; eauto.
      * done.
    + pose proof (doLogin_outcome w options) as Hlogin.
      destruct (doLogin axios_post qs_stringify set_authorization w options)
        as [w1 [[]| | |]]; cbn [snd catch] in *.
      * pose proof (collectEntities_outcome w1) as Hentities.
        destruct (collectEntities axios_get w1) as [w2 [es| | |]]; cbn [snd] in *.
        -- pose proof (collectSchemas_loop_outcome w2 es []) as Hschemas.
           unfold collectSchemas.
           destruct (collectSchemas_loop axios_get w2 es []) as [w3 [ss| | |]];
             cbn [snd] in *; try done.
           destruct Hschemas as [[? ?]|(entity & _ & Hexit)]; [done|].
           intros [= <- <- <-]. injection Hexit as -> ->. do 4 right. eauto.
        -- done.
        -- intros [= <- <- <-].
           destruct Hentities as [[? ?]|[Hexit|Hexit]]; [done|..];
             injection Hexit as -> ->; eauto.
        -- done.
      * intros [= <- <- <-]. eauto.
      * by destruct Hlogin.
      * by destruct Hlogin.
  - unfold doGenerate_collect.
    destruct (strict_eq (authMethod options) (VStr "NONE")); cbn [negb].
    + pose proof (collectEntities_outcome w) as Hentities.
      destruct (collectEntities axios_get w) as [w2 [es| | |]]; cbn [snd] in *;
        [|by destruct Hentities as [[? ?]|[?|?]]..].
      pose proof (collectSchemas_loop_outcome w2 es []) as Hschemas.
      unfold collectSchemas.
      destruct (collectSchemas_loop axios_get w2 es []) as [w3 [ss| | |]];
        cbn [snd] in *; [done|by destruct Hschemas as [[? ?]|(? & _ & ?)]..].
    + pose proof (doLogin_outcome w options) as Hlogin.
      destruct (doLogin axios_post qs_stringify set_authorization w options)
        as [w1 [[]| | |]]; cbn [snd catch] in *;
        [|by destruct Hlogin..].
      pose proof (collectEntities_outcome w1) as Hentities.
      destruct (collectEntities axios_get w1) as [w2 [es| | |]]; cbn [snd] in *;
        [|by destruct Hentities as [[? ?]|[?|?]]..].
      pose proof (collectSchemas_loop_outcome w2 es []) as Hschemas.
      unfold collectSchemas.
      destruct (collectSchemas_loop axios_get w2 es []) as [w3 [ss| | |]];
        cbn [snd] in *; [done|by destruct Hschemas as [[? ?]|(? & _ & ?)]..].
Qed.

(** X20. Exit code 5 is the failed login and nothing else: the run ends with
    code 5 exactly when [authMethod] is not ['NONE'] and [doLogin] throws or
    its promise is rejected; the message is then [Authentication failed.],
    and the run ends in the state the login left, before any [GET]. *)
Theorem doGenerate_collect_authentication_failed (w w' : world)
    (options : options) (stderr : string) :
  doGenerate_collect axios_get axios_post qs_stringify set_authorization w options
    = (w', Exit 5 stderr) ↔
  stderr = "Authentication failed." ∧
  strict_eq (authMethod options) (VStr "NONE") = false ∧
  doLogin axios_post qs_stringify set_authorization w options = (w', Throw).
Proof.
  unfold doGenerate_collect.
  assert (∀ w1,
    (let '(w2, collected) := collectEntities axios_get w1 in
     match collected with
     | Ok entities =>
         let '(w3, jsonSchemas) := collectSchemas axios_get w2 entities in
         (w3, (λ schemas, (entities, schemas)) <$> jsonSchemas)
     | Throw => (w2, Throw)
     | Exit code stderr => (w2, Exit code stderr)
     | Stuck => (w2, Stuck)
     end) ≠ (w', Exit 5 stderr)) as Hcollect.
  { intros w1. pose proof (collectEntities_outcome w1) as Hentities.
    destruct (collectEntities axios_get w1) as [w2 [es| | |]]; cbn [snd] in *;
      [|by destruct Hentities as [[? ?]|[?|?]]| |done].
    - pose proof (collectSchemas_loop_outcome w2 es []) as Hschemas.
      unfold collectSchemas.
      destruct (collectSchemas_loop axios_get w2 es []) as [w3 [ss| | |]];
        cbn [snd] in *; try done.
      destruct Hschemas as [[? ?]|(entity & _ & Hexit)]; [done|].
      injection Hexit as -> ->. simpl. congruence.
    - destruct Hentities as [[? ?]|[Hexit|Hexit]]; [done|..];
        injection Hexit as -> ->; congruence. }
  destruct (strict_eq (authMethod options) (VStr "NONE")); cbn [negb].
  - split; [by intros ?%Hcollect|by intros (_ & ? & _)].
  - pose proof (doLogin_outcome w options) as Hlogin.
    destruct (doLogin axios_post qs_stringify set_authorization w options)
      as [w1 [[]| | |]]; cbn [snd catch] in *.
    + split; [by intros ?%Hcollect|by intros (_ & _ & ?)].
    + split; [by intros [= <- <-]|by intros (-> & _ & [= <-])].
    + by destruct Hlogin.
    + by destruct Hlogin.
Qed.

(** X21. OAuth2 with a flow other than ['PASSWORD'] cannot log in:
    [authenticateWithOAuth2] returns [undefined], the call of [then] on it
    throws, and the run ends with exit code 5 in the state it started in,
    without a request. *)
Theorem doGenerate_collect_unsupported_flow (w : world) (options : options) :
  authMethod options = VStr "OAUTH2" →
  oauthFlow options ≠ VStr "PASSWORD" →
  doGenerate_collect axios_get axios_post qs_stringify set_authorization w options
    = (w, Exit 5 "Authentication failed.").
Proof.
  intros Hmethod Hflow%strict_eq_VStr_ne.
  unfold doGenerate_collect, doLogin, authenticateWithOAuth2.
  by rewrite Hmethod, Hflow.
Qed.

(** X22. An [authMethod] that is none of ['NONE'], ['COOKIE'] and ['OAUTH2']
    (a misspelt one, or none at all) skips the login: [doLogin] returns
    [undefined], which [await] accepts, and the run goes on as with
    ['NONE']. *)
Theorem doGenerate_collect_unknown_method (w : world) (options : options) :
  authMethod options ≠ VStr "COOKIE" →
  authMethod options ≠ VStr "OAUTH2" →
  doGenerate_collect axios_get axios_post qs_stringify set_authorization w options
  = doGenerate_collect axios_get axios_post qs_stringify set_authorization w
      {| authMethod := VStr "NONE";
         authEndpoint := authEndpoint options;
         username := username options;
         password := password options;
         oauthFlow := oauthFlow options;
         clientId := clientId options;
         clientPassword := clientPassword options |}.
Proof.
  intros Hcookie%strict_eq_VStr_ne Hoauth%strict_eq_VStr_ne.
  unfold doGenerate_collect, doLogin. rewrite Hcookie, Hoauth. cbn [authMethod].
  by destruct (strict_eq (authMethod options) (VStr "NONE")).
Qed.

(** X23. The two lists that [doGenerate] passes on are aligned: the profile
    is requested in the state the login left, the schemas are requested one
    after the other in the order of the entities, and the schema at a
    position is the answer to the request for the [href] of the entity at
    that position. *)
Theorem doGenerate_collect_aligned (w w' : world) (options : options)
    (entities : list EntityDescriptor) (schemas : list value) :
  doGenerate_collect axios_get axios_post qs_stringify set_authorization w options
    = (w', Ok (entities, schemas)) →
  ∃ w1 w2 ws,
    (if strict_eq (authMethod options) (VStr "NONE") then w1 = w
     else doLogin axios_post qs_stringify set_authorization w options
          = (w1, Ok tt)) ∧
    collectEntities axios_get w1 = (w2, Ok entities) ∧
    fetched_in_order axios_get w2 entities ws schemas w'.
Proof.
  intros (w1 & w2 & Hlogin & Hentities & Hschemas)%doGenerate_collect_Ok.
  apply collectSchemas_loop_fetched in Hschemas as (ws & ds & [= ->] & Hfetched).
  by exists w1, w2, ws.
Qed.
End GenerateEnds.

(** ** The further properties on the example documents *)

Lemma collectEntities_names_witness :
  name <$> example_entities
    = List.filter (λ k, negb (String.eqb k "self"))
        (own_entries (VObj example_links)).*1 ∧
  Forall (λ e, name e ≠ "self") example_entities ∧
  Forall (λ e, ∃ link, get (VObj example_links) (name e) = Ok link ∧
                       get link "href" = Ok (href e)) example_entities.
Proof.
  apply (collectEntities_names example_server tt tt example_entities
           example_profile (VObj example_links)).
  - reflexivity.
  - reflexivity.
  - reflexivity.
  - discriminate.
Defined.

Lemma collectEntities_null_links_witness :
  ((∀ k, k ∈ example_links.*1 → k ≠ "self" →
         own example_links k ≠ VNull ∧ own example_links k ≠ VUndefined) →
   ∃ entities, collectEntities example_server tt = (tt, Ok entities)) ∧
  ((∃ k, k ∈ example_links.*1 ∧ k ≠ "self" ∧
         (own example_links k = VNull ∨ own example_links k = VUndefined)) →
   collectEntities example_server tt
     = (tt, Exit 3 "Collecting entities failed.")).
Proof.
  apply (collectEntities_null_links example_server tt tt
           [("_links", VObj example_links)] example_links).
  - reflexivity.
  - reflexivity.
Defined.

Lemma preProcessSchemas_total_witness :
  ∃ h', preProcessSchemas [0%nat; 1%nat] strip_titles
          [example_with_ref; example_authors] = Ok h'.
Proof.
  apply (preProcessSchemas_total strip_titles [0%nat; 1%nat]
           [example_with_ref; example_authors]).
  repeat constructor.
  - exists example_with_ref. split; reflexivity.
  - exists example_authors. split; reflexivity.
Defined.

Lemma preProcessSchemas_null_property_witness :
  preProcessSchemas [0%nat] strip_titles [example_null_property] = Throw.
Proof.
  apply (preProcessSchemas_null_property strip_titles [0%nat]
           [example_null_property] 0%nat example_null_property
           [("name", VNull)] "properties" "name").
  - reflexivity.
  - repeat constructor. by exists example_null_property.
  - repeat constructor.
  - reflexivity.
  - by left.
  - reflexivity.
  - repeat constructor.
Defined.

Lemma preProcessSchemas_additionalProperties_witness :
  ∃ s',
    [(example_authors ++ [("additionalProperties", VBool false)])%list]
      !! 0%nat = Some s' ∧
    field "additionalProperties" s' = Some (VBool false) ∧
    (noTrivialTypes no_additional = false →
     s' = set_field "additionalProperties" (VBool false) example_authors).
Proof.
  apply (preProcessSchemas_additionalProperties no_additional [0%nat]
           [example_authors]
           [(example_authors ++ [("additionalProperties", VBool false)])%list]
           0%nat example_authors).
  - reflexivity.
  - reflexivity.
  - repeat constructor.
  - reflexivity.
Defined.

Lemma preProcessSchemas_permutation_witness :
  preProcessSchemas [1%nat; 0%nat] strip_titles
    [example_authors; example_authors]
  = Ok [example_authors_stripped; example_authors_stripped].
Proof.
  apply (preProcessSchemas_permutation strip_titles [0%nat; 1%nat]
           [1%nat; 0%nat] [example_authors; example_authors]
           [example_authors_stripped; example_authors_stripped]).
  - apply perm_swap.
  - reflexivity.
Defined.

Lemma preProcessSchemas_property_names_witness :
  ∃ s' ps',
    [example_authors_stripped] !! 0%nat = Some s' ∧
    field "properties" s' = Some (VObj ps') ∧
    ps'.*1 = [("name", VObj [("title", VStr "Name"); ("type", VStr "string")])].*1 ∧
    field "title" s' = field "title" example_authors.
Proof.
  apply (preProcessSchemas_property_names strip_titles [0%nat]
           [example_authors] [example_authors_stripped] 0%nat example_authors
           [("name", VObj [("title", VStr "Name"); ("type", VStr "string")])]).
  - reflexivity.
  - repeat constructor.
  - reflexivity.
  - reflexivity.
Defined.

Lemma resolveUrlStringReferences_rt_without_fragment_witness :
  resolveUrlStringReferences
    (λ (w : unit) (_ : value) (_ : option string),
       (w, Some example_alps_no_fragment))
    tt example_books_entity 0%nat example_entities [0%nat; 1%nat]
    [example_books; example_authors]
  = (tt, Exit 4 ("Could not collect schema references for '"
                 +:+ name example_books_entity +:+ "'.")).
Proof.
  eapply (resolveUrlStringReferences_rt_without_fragment
            (λ (w : unit) (_ : value) (_ : option string),
               (w, Some example_alps_no_fragment))
            tt tt example_alps_no_fragment example_books_entity 0%nat
            example_entities [0%nat; 1%nat] [example_books; example_authors]
            example_books (VObj example_books_properties) "author" _ _ _
            "/api/authors").
  - reflexivity.
  - reflexivity.
  - reflexivity.
  - repeat constructor; eauto.
  - reflexivity.
  - repeat constructor.
  - reflexivity.
  - reflexivity.
  - reflexivity.
  - reflexivity.
  - reflexivity.
  - repeat constructor; discriminate.
Defined.

Lemma resolveUrlStringReferences_heap_frame_witness :
  length [example_books_resolved; example_authors]
    = length [example_books; example_authors] ∧
  (∀ l : loc, l ≠ 0%nat →
     [example_books_resolved; example_authors] !! l
       = [example_books; example_authors] !! l) ∧
  ∃ s s',
    [example_books; example_authors] !! 0%nat = Some s ∧
    [example_books_resolved; example_authors] !! 0%nat = Some s' ∧
    s'.*1 = s.*1 ∧
    ∀ k, k ≠ "properties" → field k s' = field k s.
Proof.
  apply (resolveUrlStringReferences_heap_frame example_server tt tt
           example_books_entity 0%nat example_entities [0%nat; 1%nat]
           [example_books; example_authors]
           [example_books_resolved; example_authors] [1%nat; 1%nat]).
  reflexivity.
Defined.

Lemma resolveUrlStringReferences_references_witness :
  (0%nat ∉ [1%nat; 1%nat]) ∧
  (∀ l : loc, l ∈ [1%nat; 1%nat] →
     ∃ (j : nat) E,
       example_entities !! j = Some E ∧ [0%nat; 1%nat] !! j = Some l ∧
       is_Some ([example_books; example_authors] !! l)).
Proof.
  apply (resolveUrlStringReferences_references example_server tt tt
           example_books_entity 0%nat example_entities [0%nat; 1%nat]
           [example_books; example_authors]
           [example_books_resolved; example_authors] [1%nat; 1%nat]).
  reflexivity.
Defined.

Lemma resolveUrlStringReferences_keeps_other_fields_witness :
  ∃ s' ps' fields',
    [example_books_resolved; example_authors] !! 0%nat = Some s' ∧
    field "properties" s' = Some (VObj ps') ∧
    field "author" ps' = Some (VObj fields') ∧
    ∀ k', k' ≠ "type" → k' ≠ "format" → k' ≠ "title" →
          field k' fields'
          = field k' [("title", VStr "Author"); ("type", VStr "string");
                      ("format", VStr "uri")].
Proof.
  apply (resolveUrlStringReferences_keeps_other_fields example_server tt tt
           example_books_entity 0%nat example_entities [0%nat; 1%nat]
           [example_books; example_authors]
           [example_books_resolved; example_authors] [1%nat; 1%nat]
           example_books example_books_properties "author").
  - reflexivity.
  - reflexivity.
  - reflexivity.
  - reflexivity.
Defined.

Lemma resolveUrlStringReferences_again_witness :
  resolveUrlStringReferences example_server tt example_books_entity 0%nat
    example_entities [0%nat; 1%nat] [example_books_resolved; example_authors]
  = (tt, Ok ([example_books_resolved; example_authors], [])).
Proof.
  apply (resolveUrlStringReferences_again example_server tt tt tt
           example_books_entity 0%nat example_entities [0%nat; 1%nat]
           [example_books; example_authors]
           [example_books_resolved; example_authors] [1%nat; 1%nat]
           example_alps_books example_books_descriptors).
  - reflexivity.
  - reflexivity.
  - reflexivity.
Defined.

Lemma doGenerate_collect_ends_witness :
  (∃ entities schemas,
     @Ok (list EntityDescriptor * list value)
       (example_entities, [VObj example_books; VObj example_authors])
     = Ok (entities, schemas) ∧ length schemas = length entities) ∨
  @Ok (list EntityDescriptor * list value)
    (example_entities, [VObj example_books; VObj example_authors])
  = Exit 5 "Authentication failed." ∨
  @Ok (list EntityDescriptor * list value)
    (example_entities, [VObj example_books; VObj example_authors])
  = Exit 3 "Collecting entities failed." ∨
  @Ok (list EntityDescriptor * list value)
    (example_entities, [VObj example_books; VObj example_authors])
  = Exit 4 "Response does not contain _links element. Could not collect entities." ∨
  (∃ entity,
     @Ok (list EntityDescriptor * list value)
       (example_entities, [VObj example_books; VObj example_authors])
     = Exit 4 ("Could not collect schema for '" +:+ name entity +:+ "'.")).
Proof.
  apply (doGenerate_collect_ends example_server example_token_endpoint
           example_qs_stringify example_set_authorization tt tt
           example_options).
  reflexivity.
Defined.

Lemma doGenerate_collect_unsupported_flow_witness :
  doGenerate_collect example_server example_token_endpoint
    example_qs_stringify example_set_authorization tt example_options_implicit
  = (tt, Exit 5 "Authentication failed.").
Proof.
  apply (doGenerate_collect_unsupported_flow example_server
           example_token_endpoint example_qs_stringify
           example_set_authorization tt example_options_implicit).
  - reflexivity.
  - discriminate.
Defined.

Lemma doGenerate_collect_unknown_method_witness :
  doGenerate_collect example_server example_token_endpoint
    example_qs_stringify example_set_authorization tt example_options_basic
  = doGenerate_collect example_server example_token_endpoint
      example_qs_stringify example_set_authorization tt
      {| authMethod := VStr "NONE";
         authEndpoint := authEndpoint example_options_basic;
         username := username example_options_basic;
         password := password example_options_basic;
         oauthFlow := oauthFlow example_options_basic;
         clientId := clientId example_options_basic;
         clientPassword := clientPassword example_options_basic |}.
Proof.
  apply (doGenerate_collect_unknown_method example_server
           example_token_endpoint example_qs_stringify
           example_set_authorization tt example_options_basic).
  - discriminate.
  - discriminate.
Defined.

Lemma doGenerate_collect_aligned_witness :
  ∃ w1 w2 ws,
    (if strict_eq (authMethod example_options) (VStr "NONE") then w1 = tt
     else doLogin example_token_endpoint example_qs_stringify
            example_set_authorization tt example_options = (w1, Ok tt)) ∧
    collectEntities example_server w1 = (w2, Ok example_entities) ∧
    fetched_in_order example_server w2 example_entities ws
      [VObj example_books; VObj example_authors] tt.
Proof.
  apply (doGenerate_collect_aligned example_server example_token_endpoint
           example_qs_stringify example_set_authorization tt tt
           example_options example_entities
           [VObj example_books; VObj example_authors]).
  reflexivity.
Defined.

(** * The Normalizer at every position of a schema *)

Lemma removeTrivialTitles_elems_field l l' i k p :
  removeTrivialTitles_elems l = Ok l' → field k (indexed_from i l) = Some p →
  p ∈ l ∧
  ∃ p', removeTrivialTitles_property p = Ok p' ∧
        field k (indexed_from i l') = Some p'.
Proof.
  rewrite removeTrivialTitles_elems_Ok. intros Hall. revert i.
  induction Hall as [|p0 p0' l l' Hp _ IH]; intros i; simpl; [done|].
  destruct (String.eqb (pretty i) k).
  - intros [= ->]. split; [left|eauto].
  - intros [Hin Hrest]%IH. split; [by right|done].
Qed.

Lemma value_at_member_truthy v k path fields :
  (c ← member v k; value_at c path) = Some (VObj fields) → truthy v = true.
Proof. by destruct v. Qed.

(** What [removeTrivialTitles], on a map, and the body of its loop, on a
    member of a map, do to the objects in and below them, other than the
    maps that the loop iterates over and the titles of the properties it
    visits: an object stays where it is; it keeps its title when its [$ref]
    is truthy, and loses it when it is a property that the loop visits and
    its [$ref] is not. *)
Lemma removeTrivialTitles_value_at_both (v : value) :
  (∀ v' path fields,
     removeTrivialTitles v = Ok v' →
     position_of true path ≠ Map → position_of true path ≠ Title →
     value_at v path = Some (VObj fields) →
     ∃ fields',
       value_at v' path = Some (VObj fields') ∧
       (truthy (own fields "$ref") = true →
        field "title" fields' = field "title" fields) ∧
       (position_of true path = Property →
        truthy (own fields "$ref") = false → field "title" fields' = None)) ∧
  (∀ v' path fields,
     removeTrivialTitles_property v = Ok v' →
     position_of false path ≠ Map → position_of false path ≠ Title →
     value_at v path = Some (VObj fields) →
     ∃ fields',
       value_at v' path = Some (VObj fields') ∧
       (truthy (own fields "$ref") = true →
        field "title" fields' = field "title" fields) ∧
       (position_of false path = Property →
        truthy (own fields "$ref") = false → field "title" fields' = None)).
Proof.
  induction v as [| | b | n | s | elems IH | fields0 IH] using value_nested_ind.
  - split; intros v' path fields; [by intros [= <-]; destruct path|done].
  - split; intros v' path fields; [by intros [= <-]; destruct path|done].
  - split; intros v' path fields; intros [= <-]; by destruct path.
  - split; intros v' path fields; intros [= <-]; by destruct path.
  - split; intros v' path fields; intros [= <-]; by destruct path.
  - split; intros v' path fields.
    + rewrite removeTrivialTitles_arr, fmap_Ok. intros (l' & Hl' & ->).
      destruct path as [|k path]; [done|]. cbn [position_of value_at member].
      intros Hmap Htitle.
      destruct (field k (indexed elems)) as [p|] eqn:Hk; [|done].
      cbn [mbind option_bind]. intros Hat.
      destruct (removeTrivialTitles_elems_field _ _ _ _ _ Hl' Hk)
        as (Hin & p' & Hp' & Hk').
      unfold indexed. rewrite Hk'. cbn [mbind option_bind].
      rewrite Forall_forall in IH. destruct (IH _ Hin) as [_ IHp].
      by apply (IHp _ _ _ Hp' Hmap Htitle Hat).
    + intros [= <-] _ _ Hat. exists fields. split; [done|].
      split; [done|]. intros Hvisited Href. exfalso.
      destruct path as [|k path]; [done|]. cbn [position_of] in Hvisited.
      destruct (String.eqb k "title"); [done|].
      destruct (String.eqb_spec k "properties") as [->|_]; [|done].
      cbn [value_at member] in Hat. unfold indexed in Hat.
      rewrite (field_indexed_from_name "p" "roperties") in Hat; [done|].
      intros n. unfold pretty_N_char. by repeat case_match.
  - split; intros v' path fields.
    + rewrite removeTrivialTitles_obj, fmap_Ok. intros (l' & Hl' & ->).
      destruct path as [|k path]; [done|]. cbn [position_of value_at member].
      intros Hmap Htitle.
      destruct (field k fields0) as [p|] eqn:Hk; [|done].
      cbn [mbind option_bind]. intros Hat.
      destruct (removeTrivialTitles_props_field _ _ _ _ Hl' Hk)
        as (p' & Hp' & Hk').
      rewrite Hk'. cbn [mbind option_bind].
      rewrite Forall_forall in IH.
      destruct (IH _ (field_Some_elem _ _ _ Hk)) as [_ IHp].
      by apply (IHp _ _ _ Hp' Hmap Htitle Hat).
    + intros Hrun Hmap Htitle Hat.
      destruct path as [|k path].
      { injection Hat as <-.
        apply removeTrivialTitles_property_fields in Hrun
          as (fields' & -> & Hfields' & _).
        exists fields'. split; [done|].
        split; intros; destruct (truthy (own fields0 "$ref")); congruence. }
      cbn [position_of] in *.
      destruct (String.eqb_spec k "title") as [->|Hnotitle]; [done|].
      cbn [value_at member] in Hat.
      destruct (field k fields0) as [c|] eqn:Hk; [|done].
      cbn [mbind option_bind] in Hat.
      destruct (String.eqb_spec k "properties") as [->|Hne].
      * assert (truthy c = true) as Htruthy.
        { destruct path; [done|]. by eapply value_at_member_truthy. }
        rewrite removeTrivialTitles_property_obj in Hrun. cbv zeta in Hrun.
        set (property := if truthy (own fields0 "$ref") then fields0
                         else delete_field "title" fields0) in *.
        assert (own property "properties" = c) as Hown.
        { unfold property. destruct (truthy _);
            [|rewrite own_delete_field_ne by done]; unfold own; by rewrite Hk. }
        rewrite Hown, Htruthy in Hrun.
        apply bind_Ok in Hrun as (sub & Hrec & [= <-]).
        cbn [value_at member]. rewrite field_set_field_eq.
        cbn [mbind option_bind]. rewrite Forall_forall in IH.
        destruct (IH _ (field_Some_elem _ _ _ Hk)) as [IHc _].
        by apply (IHc _ _ _ Hrec Hmap Htitle Hat).
      * apply removeTrivialTitles_property_fields in Hrun
          as (fields' & -> & _ & Hother).
        exists fields. cbn [value_at member]. rewrite Hother, Hk by done.
        by split_and!.
Qed.

(** The maps [properties] and [definitions] of a schema after the loop body
    of [preProcessSchemas]. *)
Lemma preProcessSchema_map config schema schema' root c :
  noTrivialTypes config = true →
  preProcessSchema config schema = Ok schema' →
  root = "properties" ∨ root = "definitions" →
  field root schema = Some c → truthy c = true →
  ∃ c', removeTrivialTitles c = Ok c' ∧ field root schema' = Some c'.
Proof.
  unfold preProcessSchema. intros -> Hrun Hroot Hc Htruthy. cbv zeta in Hrun.
  apply bind_Ok in Hrun as (schema2 & Hproperties & Hdefinitions).
  set (schema1 := if noAdditionalProperties config
                  then set_field "additionalProperties" (VBool false) schema
                  else schema) in *.
  assert (field root schema1 = Some c) as Hc1.
  { unfold schema1. destruct (noAdditionalProperties config); [|done].
    rewrite field_set_field_ne; [done|]. by destruct Hroot as [-> | ->]. }
  assert (∀ key s s' c0, removeTrivialTitles_of key s = Ok s' →
            field key s = Some c0 → truthy c0 = true →
            ∃ c', removeTrivialTitles c0 = Ok c' ∧ field key s' = Some c')
    as Hof.
  { intros key s s' c0. unfold removeTrivialTitles_of, own.
    intros Hs' Hfield Hc0. rewrite Hfield in Hs'. simpl in Hs'.
    rewrite Hc0 in Hs'. apply bind_Ok in Hs' as (c' & Hc' & [= <-]).
    exists c'. by rewrite field_set_field_eq. }
  destruct Hroot as [-> | ->].
  - destruct (Hof _ _ _ _ Hproperties Hc1 Htruthy) as (c' & Hc' & Hfield).
    exists c'. split; [done|].
    by rewrite (removeTrivialTitles_of_field_ne _ _ _ _ Hdefinitions).
  - apply (Hof _ _ _ _ Hdefinitions); [|done].
    by rewrite (removeTrivialTitles_of_field_ne _ _ _ _ Hproperties).
Qed.

Lemma preProcessSchema_other_field config schema schema' k :
  preProcessSchema config schema = Ok schema' →
  k ≠ "properties" → k ≠ "definitions" →
  (noAdditionalProperties config = true → k ≠ "additionalProperties") →
  field k schema' = field k schema.
Proof.
  unfold preProcessSchema. intros Hrun Hp Hd Ha. cbv zeta in Hrun.
  assert (field k (if noAdditionalProperties config
                   then set_field "additionalProperties" (VBool false) schema
                   else schema) = field k schema) as Hfirst.
  { destruct (noAdditionalProperties config); [|done].
    rewrite field_set_field_ne; [done|]. intros <-. by apply Ha. }
  destruct (noTrivialTypes config); [|by injection Hrun as <-].
  by rewrite (removeTrivialTitles_both_field_ne _ _ _ Hrun).
Qed.

(** C6, as the code has it.  With the strip-trivial-titles flag enabled, the
    Normalizer keeps the title of every object whose [$ref] is truthy (for a
    string: not empty), wherever the object lies in the schema, and the
    object stays at its position: a property in a [properties] or
    [definitions] map at any depth, below [items] or another key, in an
    array, or the schema itself.  The positions set aside are not
    properties: the maps that the loop iterates over (in which a member
    named [title] is a property), what lies in or below the [title] of a
    property that the loop visits, and the subschema [additionalProperties]
    of the schema when the other flag overwrites it.  A property that the
    loop visits and whose [$ref] is not truthy loses its title. *)
Theorem preProcessSchemas_keeps_ref_titles (config : config)
    (schemas : list loc) (h h' : heap) (schema : loc) (s : props)
    (path : list string) (fields : props) :
  noTrivialTypes config = true →
  preProcessSchemas schemas config h = Ok h' →
  schema ∈ schemas →
  h !! schema = Some s →
  value_at (VObj s) path = Some (VObj fields) →
  position_in_schema path ≠ Map →
  position_in_schema path ≠ Title →
  (noAdditionalProperties config = true →
   head path ≠ Some "additionalProperties") →
  ∃ s' fields',
    h' !! schema = Some s' ∧
    value_at (VObj s') path = Some (VObj fields') ∧
    (truthy (own fields "$ref") = true →
     field "title" fields' = field "title" fields) ∧
    (position_in_schema path = Property →
     truthy (own fields "$ref") = false → field "title" fields' = None).
Proof.
  intros Hflag Hrun Hin Hs Hat Hmap Htitle Hadditional.
  destruct (preProcessSchemas_lookup _ _ _ _ _ _ Hrun Hin Hs) as (s' & Hs' & Hl).
  exists s'. destruct path as [|k path].
  { injection Hat as <-. exists s'. split_and!; [done|done| |done].
    intros _. by apply (preProcessSchema_other_field _ _ _ _ Hs'). }
  cbn [value_at member] in Hat. cbn [position_in_schema] in *.
  destruct (field k s) as [c|] eqn:Hk; [|done]. cbn [mbind option_bind] in Hat.
  destruct (String.eqb k "properties" || String.eqb k "definitions") eqn:Hroot.
  - assert (k = "properties" ∨ k = "definitions") as Hroot'.
    { apply orb_prop in Hroot as [?%String.eqb_eq|?%String.eqb_eq]; eauto. }
    assert (truthy c = true) as Htruthy.
    { destruct path; [done|]. by eapply value_at_member_truthy. }
    destruct (preProcessSchema_map _ _ _ _ _ Hflag Hs' Hroot' Hk Htruthy)
      as (c' & Hc' & Hk').
    destruct (proj1 (removeTrivialTitles_value_at_both c) _ _ _
                Hc' Hmap Htitle Hat) as (fields' & Hat' & Hkeep & Hlose).
    exists fields'. cbn [value_at member]. rewrite Hk'. by split_and!.
  - apply orb_false_elim in Hroot as [Hp%String.eqb_neq Hd%String.eqb_neq].
    exists fields. cbn [value_at member].
    rewrite (preProcessSchema_other_field _ _ _ _ Hs' Hp Hd), Hk.
    + by split_and!.
    + intros Hon ->. by apply (Hadditional Hon).
Qed.

Lemma preProcessSchemas_keeps_ref_titles_witness :
  ∃ s' fields',
    [example_items_ref_stripped] !! 0%nat = Some s' ∧
    value_at (VObj s') ["properties"; "pets"; "items"; "properties"; "owner"]
      = Some (VObj fields') ∧
    (truthy (own [("$ref", VStr "#/definitions/person"); ("title", VStr "Owner")]
                 "$ref") = true →
     field "title" fields'
     = field "title" [("$ref", VStr "#/definitions/person");
                      ("title", VStr "Owner")]) ∧
    (position_in_schema ["properties"; "pets"; "items"; "properties"; "owner"]
       = Property →
     truthy (own [("$ref", VStr "#/definitions/person"); ("title", VStr "Owner")]
                 "$ref") = false →
     field "title" fields' = None).
Proof.
  apply (preProcessSchemas_keeps_ref_titles strip_titles [0%nat]
           [example_items_ref] [example_items_ref_stripped] 0%nat
           example_items_ref
           ["properties"; "pets"; "items"; "properties"; "owner"]).
  - reflexivity.
  - reflexivity.
  - apply list_elem_of_here.
  - reflexivity.
  - reflexivity.
  - discriminate.
  - discriminate.
  - discriminate.
Defined.

(** * The entity that an [rt] designates *)

(** ** What [find] finds *)

Lemma findM_first {A} (p : A → result bool) l (i j : nat) a :
  findM p l i = Ok (Some (j, a)) →
  ∀ (n : nat) b, (n < j - i)%nat → l !! n = Some b → p b = Ok false.
Proof.
  revert i. induction l as [|x l IH]; intros i; simpl; [done|].
  rewrite bind_Ok. intros ([|] & Hx & Hrest).
  - injection Hrest as <- <-. intros n b Hn. lia.
  - pose proof (findM_Some _ _ _ _ _ Hrest) as (Hle & _ & _).
    intros [|n] b Hn; [by intros [= <-]|]. simpl.
    apply (IH _ Hrest). lia.
Qed.

Lemma findM_first_such {A} (p : A → result bool) (P : A → Prop) l
    (i0 j : nat) a0 a :
  (∀ x, p x = Ok true → P x) → (∀ x, P x → p x ≠ Ok false) →
  findM p l 0 = Ok (Some (i0, a0)) → first_such P l j a →
  i0 = j ∧ a0 = a.
Proof.
  intros Htrue Hfalse Hfind (Hj & HP & Hfirst).
  pose proof (findM_first _ _ _ _ _ Hfind) as Hbefore.
  apply findM_Some in Hfind as (_ & Hi0 & Hp0). rewrite Nat.sub_0_r in *.
  destruct (lt_eq_lt_dec i0 j) as [[Hlt| ->]|Hgt].
  - destruct (Hfirst _ _ Hlt Hi0). by apply Htrue.
  - split; [done|congruence].
  - destruct (Hfalse _ HP). by eapply Hbefore.
Qed.

Lemma findM_None_inv {A} (p : A → result bool) l i :
  findM p l i = Ok None → Forall (λ b, p b = Ok false) l.
Proof.
  revert i. induction l as [|x l IH]; intros i; simpl; [constructor|].
  rewrite bind_Ok. intros ([|] & Hx & Hrest); [done|].
  constructor; [done|by eapply IH].
Qed.

Lemma array_find_found (p : value → result bool) l d r :
  array_find p (VArr l) = Ok d → get d r ≠ Throw →
  ∃ i : nat, findM p l 0 = Ok (Some (i, d)).
Proof.
  unfold array_find. rewrite bind_Ok. intros ([[i d0]|] & Hfind & [= <-]) Hget.
  - eauto.
  - done.
Qed.

Lemma name_test_true k d :
  (n ← get d "name"; Ok (strict_eq n (VStr k))) = Ok true →
  get d "name" = Ok (VStr k).
Proof.
  rewrite bind_Ok. intros (n & -> & [= Heq]). f_equal.
  by apply strict_eq_VStr.
Qed.

Lemma name_test_false k d :
  get d "name" = Ok (VStr k) →
  (n ← get d "name"; Ok (strict_eq n (VStr k))) ≠ Ok false.
Proof.
  intros ->. cbn [mbind result_bind strict_eq]. by rewrite String.eqb_refl.
Qed.

Lemma strip_fragment_base rt base frag :
  rt = base +:+ String "#" frag → occurs "#" frag = false →
  strip_fragment (VStr rt) = Ok base.
Proof.
  intros -> Hfrag. unfold strip_fragment, lastIndexOf, substr.
  rewrite lastIndexOf_from_last by done.
  change (0 + Z.of_nat (String.length base)) with (Z.of_nat (String.length base)).
  rewrite Nat2Z.id. simpl Z.to_nat. by rewrite substring_prefix.
Qed.

(** The descriptors that the code reads for the entity are those of the
    first document of [alps.descriptors] with the [href] of the entity. *)
Lemma entityDescriptors_of_first data entity u alps documents (iD : nat) D eD :
  href entity = VStr u →
  get data "alps" = Ok alps →
  get alps "descriptors" = Ok (VArr documents) →
  first_such (λ D, get D "href" = Ok (VStr u)) documents iD D →
  entityDescriptors_of data entity = Ok eD →
  get D "descriptors" = Ok eD.
Proof.
  intros Hhref Halps Hdocuments Hfirst. unfold entityDescriptors_of.
  rewrite Halps. cbn [mbind result_bind]. rewrite Hdocuments.
  cbn [mbind result_bind]. rewrite bind_Ok. intros (D0 & Hfind & HeD).
  destruct (array_find_found _ _ _ "descriptors" Hfind) as [i0 Hfound];
    [congruence|].
  assert (D0 = D) as ->; [|done].
  eapply (findM_first_such _ (λ D, get D "href" = Ok (VStr u)));
    [| |exact Hfound|exact Hfirst].
  - intros x. rewrite bind_Ok, Hhref. intros (dh & -> & [= Heq]). f_equal.
    by apply strict_eq_VStr.
  - intros x Hx. simpl. rewrite Hx, Hhref. cbn [mbind result_bind strict_eq].
    by rewrite String.eqb_refl.
Qed.

(** The entity that the code finds for a property is the first entity whose
    [href] is the [rt] of the first descriptor named as the property, cut at
    its last [#]. *)
Lemma referencedEntity_of_first ds entities k (id : nat) d base frag found :
  first_such (λ d, get d "name" = Ok (VStr k)) ds id d →
  get d "rt" = Ok (VStr (base +:+ String "#" frag)) →
  occurs "#" frag = false →
  referencedEntity_of (VArr ds) entities k = Ok found →
  findM (λ e, Ok (strict_eq (href e) (VStr base))) entities 0 = Ok found.
Proof.
  intros Hfirst Hrt Hfrag. unfold referencedEntity_of.
  rewrite bind_Ok. intros (d0 & Hfind & Hrest).
  apply bind_Ok in Hrest as (rt & Hrt0 & Hrest).
  destruct (array_find_found _ _ _ "rt" Hfind) as [i0 Hfound]; [congruence|].
  destruct (findM_first_such _ (λ d, get d "name" = Ok (VStr k)) _ _ _ _ _
              (name_test_true k) (name_test_false k) Hfound Hfirst) as [_ ->].
  rewrite Hrt in Hrt0. injection Hrt0 as <-.
  by rewrite (strip_fragment_base _ base frag) in Hrest.
Qed.

Lemma referencedEntity_of_designated ds entities k (id : nat) d base frag
    (j' j : nat) E' E :
  first_such (λ d, get d "name" = Ok (VStr k)) ds id d →
  get d "rt" = Ok (VStr (base +:+ String "#" frag)) →
  occurs "#" frag = false →
  first_such (λ E, href E = VStr base) entities j E →
  referencedEntity_of (VArr ds) entities k = Ok (Some (j', E')) →
  j' = j ∧ E' = E.
Proof.
  intros Hd Hrt Hfrag HE Hfound.
  apply (referencedEntity_of_first _ _ _ _ _ _ _ _ Hd Hrt Hfrag) in Hfound.
  eapply (findM_first_such _ (λ E, href E = VStr base));
    [| |exact Hfound|exact HE].
  - intros x [= Heq]. by apply strict_eq_VStr.
  - intros x Hx. simpl. rewrite Hx. cbn [strict_eq]. by rewrite String.eqb_refl.
Qed.



(** ** Properties of type [string] and format [uri] *)

Lemma is_uri_string_fields fields :
  field "type" fields = Some (VStr "string") →
  field "format" fields = Some (VStr "uri") →
  is_uri_string (VObj fields) = Ok true.
Proof.
  intros Htype Hformat. unfold is_uri_string. cbn [get mbind result_bind].
  unfold own. by rewrite Htype, Hformat.
Qed.

Lemma relevantPropertyNames_of_uri ps k fields ks :
  relevantPropertyNames_of (VObj ps) = Ok ks →
  field k ps = Some (VObj fields) →
  field "type" fields = Some (VStr "string") →
  field "format" fields = Some (VStr "uri") →
  k ∈ ks.
Proof.
  intros [_ Hks]%relevantPropertyNames_of_Ok Hk Htype Hformat. apply Hks.
  split; [by eapply field_key|]. exists (VObj fields).
  split; [|by apply is_uri_string_fields]. cbn [get]. unfold own. by rewrite Hk.
Qed.

Lemma filter_omap_cons {A B} (f : A → option B) (g : B → bool) a l y :
  f a = Some y → g y = true →
  List.filter g (omap f (a :: l)) = y :: List.filter g (omap f l).
Proof.
  intros Hf Hg.
  change (omap f (a :: l)) with
    (match f a with Some y => y :: omap f l | None => omap f l end).
  rewrite Hf. cbn [List.filter]. by rewrite Hg.
Qed.

Lemma filter_omap_twice {A B} (f : A → option B) (g : B → bool) l x1 x2 y :
  x1 ∈ l → x2 ∈ l → x1 ≠ x2 →
  f x1 = Some y → f x2 = Some y → g y = true →
  ∃ l1 l2 l3, List.filter g (omap f l) = (l1 ++ y :: l2 ++ y :: l3)%list.
Proof.
  assert (∀ a b l1 l2 l3, f a = Some y → f b = Some y → g y = true →
            ∃ r1 r2 r3,
              List.filter g (omap f (l1 ++ a :: l2 ++ b :: l3)%list)
              = (r1 ++ y :: r2 ++ y :: r3)%list) as Hsplit.
  { intros a b l1 l2 l3 Ha Hb Hg.
    exists (List.filter g (omap f l1)), (List.filter g (omap f l2)),
      (List.filter g (omap f l3)).
    rewrite omap_app, List.filter_app, (filter_omap_cons _ _ a _ y) by done.
    by rewrite omap_app, List.filter_app, (filter_omap_cons _ _ b _ y). }
  intros H1 H2 Hne Hf1 Hf2 Hg.
  apply list_elem_of_split in H1 as (l1 & l2 & ->).
  apply elem_of_app in H2 as [H2|H2].
  - apply list_elem_of_split in H2 as (l11 & l12 & ->).
    rewrite <- app_assoc. cbn [app]. by apply Hsplit.
  - apply elem_of_cons in H2 as [->|H2]; [done|].
    apply list_elem_of_split in H2 as (l21 & l22 & ->). by apply Hsplit.
Qed.

Section ResolverDesignation.
Context {world : Type}.
Variable axios_get : world → value → option string → world * option value.

(** C1. Postcondition of the Reference Resolver.  The entity being resolved
    and its schema are at the position [i] of the two lists, and the list of
    schemas holds distinct documents.  Let [k] be a property of the schema
    with type [string] and format [uri].  In the document that is fetched,
    [alps.descriptors] lists, first under the [href] of the entity, the
    descriptors of the entity; the first of these named [k] has an [rt] made
    of [base], a [#] and a fragment; and [E], at the position [j], is the
    first entity whose [href] is [base], with the schema [sE].  After a call
    that returns, the property has type [object], no [format], and the title
    of [sE]; and the schema of [E] is in the list that is returned if and
    only if [E] is not the entity being resolved. *)
Theorem resolveUrlStringReferences_postcondition
    (w w' : world) (data : value) (entity : EntityDescriptor) (schema : loc)
    (entities : list EntityDescriptor) (schemas : list loc) (h h' : heap)
    (refs : list loc) (i : nat) (s ps : props) (k : string) (fields : props)
    (u : string) (alps : value) (documents : list value) (iD : nat) (D : value)
    (ds : list value) (id : nat) (d : value) (base frag : string)
    (j : nat) (E : EntityDescriptor) (lE : loc) (sE : props) :
  resolveUrlStringReferences axios_get w entity schema entities schemas h
    = (w', Ok (h', refs)) →
  axios_get w (href entity) (Some "application/alps+json") = (w', Some data) →
  entities !! i = Some entity →
  schemas !! i = Some schema →
  NoDup schemas →
  h !! schema = Some s →
  field "properties" s = Some (VObj ps) →
  field k ps = Some (VObj fields) →
  field "type" fields = Some (VStr "string") →
  field "format" fields = Some (VStr "uri") →
  href entity = VStr u →
  get data "alps" = Ok alps →
  get alps "descriptors" = Ok (VArr documents) →
  first_such (λ D, get D "href" = Ok (VStr u)) documents iD D →
  get D "descriptors" = Ok (VArr ds) →
  first_such (λ d, get d "name" = Ok (VStr k)) ds id d →
  get d "rt" = Ok (VStr (base +:+ String "#" frag)) →
  occurs "#" frag = false →
  first_such (λ E, href E = VStr base) entities j E →
  schemas !! j = Some lE →
  h !! lE = Some sE →
  ∃ s' ps' fields',
    h' !! schema = Some s' ∧
    field "properties" s' = Some (VObj ps') ∧
    field k ps' = Some (VObj fields') ∧
    field "type" fields' = Some (VStr "object") ∧
    field "format" fields' = None ∧
    field "title" fields' = Some (own sE "title") ∧
    (lE ∈ refs ↔ j ≠ i).
Proof.
  intros Hrun Hget Hentity Hi Hnodup Hs Hps Hk Htype Hformat Hhref Halps
    Hdocuments HD Hds Hd Hrt Hfrag HE Hj HsE.
  apply resolveUrlStringReferences_Ok in Hrun as (data' & Hget' & Hthen).
  assert (data' = data) as -> by congruence.
  apply resolveUrlStringReferences_then_Ok in Hthen
    as (eD & s1 & properties & ks & _ & HeD & Hs1 & Hproperties & Hks & Hfold & _).
  assert (s1 = s) as -> by congruence.
  assert (properties = VObj ps) as -> by congruence.
  assert (eD = VArr ds) as ->.
  { pose proof (entityDescriptors_of_first _ _ _ _ _ _ _ _ Hhref Halps
                  Hdocuments HD HeD). congruence. }
  pose proof (relevantPropertyNames_of_uri _ _ _ _ Hks Hk Htype Hformat) as Hin.
  apply (resolve_properties_Ok _ _ _ _ h s Hs) in Hfold
    as (properties' & -> & -> & _ & Hobj & _ & Hnamed).
  destruct (Hobj ps eq_refl) as [ps' ->].
  destruct (Hnamed k Hin)
    as (fields' & j' & E' & lE' & sE' & Hk' & Hfound' & Hj' & HsE' & Hfields).
  destruct (referencedEntity_of_designated _ _ _ _ _ _ _ _ _ _ _
              Hd Hrt Hfrag HE Hfound') as [-> ->].
  assert (lE' = lE) as -> by congruence.
  assert (sE' = sE) as -> by congruence.
  exists (set_field "properties" (VObj ps') s), ps', fields'.
  split_and!; try apply Hfields.
  - by apply heap_with_properties_schema.
  - apply field_set_field_eq.
  - injection Hk' as Hk'. by apply own_obj_field.
  - cbn [app]. rewrite list_elem_of_In, filter_In, <- list_elem_of_In.
    rewrite bool_decide_eq_true, list_elem_of_omap. split.
    + intros [_ Hne] ->. congruence.
    + intros Hne. split.
      * exists k. split; [done|]. by eapply referencedSchema_of_Some.
      * intros ->. apply Hne. by eapply NoDup_lookup.
Qed.


(** C9. The list that is returned is not deduplicated.  With the entity and
    its schema at the position [i] of the two lists and distinct schema
    documents: when two properties [k1] and [k2] of the schema, of type
    [string] and format [uri], have descriptors whose [rt]s, cut at the last
    [#], are both the [href] of the entity [E], which is not the entity
    being resolved, the list that a call returns holds the schema of [E]
    twice. *)
Theorem resolveUrlStringReferences_duplicates
    (w w' : world) (data : value) (entity : EntityDescriptor) (schema : loc)
    (entities : list EntityDescriptor) (schemas : list loc) (h h' : heap)
    (refs : list loc) (i : nat) (s ps : props)
    (k1 k2 : string) (fields1 fields2 : props)
    (u : string) (alps : value) (documents : list value) (iD : nat) (D : value)
    (ds : list value) (id1 id2 : nat) (d1 d2 : value) (base frag1 frag2 : string)
    (j : nat) (E : EntityDescriptor) (lE : loc) :
  resolveUrlStringReferences axios_get w entity schema entities schemas h
    = (w', Ok (h', refs)) →
  axios_get w (href entity) (Some "application/alps+json") = (w', Some data) →
  entities !! i = Some entity →
  schemas !! i = Some schema →
  NoDup schemas →
  h !! schema = Some s →
  field "properties" s = Some (VObj ps) →
  k1 ≠ k2 →
  field k1 ps = Some (VObj fields1) →
  field "type" fields1 = Some (VStr "string") →
  field "format" fields1 = Some (VStr "uri") →
  field k2 ps = Some (VObj fields2) →
  field "type" fields2 = Some (VStr "string") →
  field "format" fields2 = Some (VStr "uri") →
  href entity = VStr u →
  get data "alps" = Ok alps →
  get alps "descriptors" = Ok (VArr documents) →
  first_such (λ D, get D "href" = Ok (VStr u)) documents iD D →
  get D "descriptors" = Ok (VArr ds) →
  first_such (λ d, get d "name" = Ok (VStr k1)) ds id1 d1 →
  get d1 "rt" = Ok (VStr (base +:+ String "#" frag1)) →
  occurs "#" frag1 = false →
  first_such (λ d, get d "name" = Ok (VStr k2)) ds id2 d2 →
  get d2 "rt" = Ok (VStr (base +:+ String "#" frag2)) →
  occurs "#" frag2 = false →
  first_such (λ E, href E = VStr base) entities j E →
  j ≠ i →
  schemas !! j = Some lE →
  ∃ l1 l2 l3, refs = (l1 ++ lE :: l2 ++ lE :: l3)%list.
Proof.
  intros Hrun Hget Hentity Hi Hnodup Hs Hps Hne Hk1 Htype1 Hformat1
    Hk2 Htype2 Hformat2 Hhref Halps Hdocuments HD Hds Hd1 Hrt1 Hfrag1
    Hd2 Hrt2 Hfrag2 HE Hji Hj.
  apply resolveUrlStringReferences_Ok in Hrun as (data' & Hget' & Hthen).
  assert (data' = data) as -> by congruence.
  apply resolveUrlStringReferences_then_Ok in Hthen
    as (eD & s1 & properties & ks & _ & HeD & Hs1 & Hproperties & Hks & Hfold & _).
  assert (s1 = s) as -> by congruence.
  assert (properties = VObj ps) as -> by congruence.
  assert (eD = VArr ds) as ->.
  { pose proof (entityDescriptors_of_first _ _ _ _ _ _ _ _ Hhref Halps
                  Hdocuments HD HeD). congruence. }
  pose proof (relevantPropertyNames_of_uri _ _ _ _ Hks Hk1 Htype1 Hformat1)
    as Hin1.
  pose proof (relevantPropertyNames_of_uri _ _ _ _ Hks Hk2 Htype2 Hformat2)
    as Hin2.
  apply (resolve_properties_Ok _ _ _ _ h s Hs) in Hfold
    as (properties' & _ & -> & _ & _ & _ & Hnamed).
  cbn [app].
  assert (∀ k (id : nat) d frag,
            k ∈ ks →
            first_such (λ d, get d "name" = Ok (VStr k)) ds id d →
            get d "rt" = Ok (VStr (base +:+ String "#" frag)) →
            occurs "#" frag = false →
            referencedSchema_of (VArr ds) entities schemas k = Some lE)
    as Hreferenced.
  { intros k id d frag Hin Hd Hrt Hfrag.
    destruct (Hnamed k Hin) as (_ & j' & E' & _ & _ & _ & Hfound & _).
    destruct (referencedEntity_of_designated _ _ _ _ _ _ _ _ _ _ _
                Hd Hrt Hfrag HE Hfound) as [-> ->].
    by eapply referencedSchema_of_Some. }
  apply (filter_omap_twice _ _ _ k1 k2); try done.
  - by eapply Hreferenced.
  - by eapply Hreferenced.
  - apply bool_decide_eq_true. intros ->. apply Hji. by eapply NoDup_lookup.
Qed.
End ResolverDesignation.

Lemma resolveUrlStringReferences_postcondition_witness :
  ∃ s' ps' fields',
    [example_books_resolved; example_authors] !! 0%nat = Some s' ∧
    field "properties" s' = Some (VObj ps') ∧
    field "author" ps' = Some (VObj fields') ∧
    field "type" fields' = Some (VStr "object") ∧
    field "format" fields' = None ∧
    field "title" fields' = Some (own example_authors "title") ∧
    (1%nat ∈ [1%nat; 1%nat] ↔ 1%nat ≠ 0%nat).
Proof.
  eapply (resolveUrlStringReferences_postcondition example_server tt tt
            example_alps_books example_books_entity 0%nat example_entities
            [0%nat; 1%nat] [example_books; example_authors]
            [example_books_resolved; example_authors] [1%nat; 1%nat]
            0%nat example_books example_books_properties "author" _
            "/api/books" _ _ 0%nat _ _ 1%nat _
            "/api/authors" "author-representation"
            1%nat example_authors_entity 1%nat example_authors).
  - reflexivity.
  - reflexivity.
  - reflexivity.
  - reflexivity.
  - apply NoDup_cons. split; [|apply NoDup_singleton].
    apply not_elem_of_cons. split; [discriminate|apply not_elem_of_nil].
  - reflexivity.
  - reflexivity.
  - reflexivity.
  - reflexivity.
  - reflexivity.
  - reflexivity.
  - reflexivity.
  - reflexivity.
  - split; [reflexivity|]. split; [reflexivity|]. intros i' a' Hlt. lia.
  - reflexivity.
  - split; [reflexivity|]. split; [reflexivity|].
    intros [|i'] a' Hlt; [intros [= <-]; discriminate|lia].
  - reflexivity.
  - reflexivity.
  - split; [reflexivity|]. split; [reflexivity|].
    intros [|i'] a' Hlt; [intros [= <-]; discriminate|lia].
  - reflexivity.
  - reflexivity.
Defined.

Lemma resolveUrlStringReferences_duplicates_witness :
  ∃ l1 l2 l3, [1%nat; 1%nat] = (l1 ++ 1%nat :: l2 ++ 1%nat :: l3)%list.
Proof.
  eapply (resolveUrlStringReferences_duplicates example_server tt tt
            example_alps_books example_books_entity 0%nat example_entities
            [0%nat; 1%nat] [example_books; example_authors]
            [example_books_resolved; example_authors] [1%nat; 1%nat]
            0%nat example_books example_books_properties "author" "editor" _ _
            "/api/books" _ _ 0%nat _ _ 1%nat 2%nat _ _
            "/api/authors" "author-representation" "author-representation"
            1%nat example_authors_entity 1%nat).
  - reflexivity.
  - reflexivity.
  - reflexivity.
  - reflexivity.
  - apply NoDup_cons. split; [|apply NoDup_singleton].
    apply not_elem_of_cons. split; [discriminate|apply not_elem_of_nil].
  - reflexivity.
  - reflexivity.
  - discriminate.
  - reflexivity.
  - reflexivity.
  - reflexivity.
  - reflexivity.
  - reflexivity.
  - reflexivity.
  - reflexivity.
  - reflexivity.
  - reflexivity.
  - split; [reflexivity|]. split; [reflexivity|]. intros i' a' Hlt. lia.
  - reflexivity.
  - split; [reflexivity|]. split; [reflexivity|].
    intros [|i'] a' Hlt; [intros [= <-]; discriminate|lia].
  - reflexivity.
  - reflexivity.
  - split; [reflexivity|]. split; [reflexivity|].
    intros [|[|i']] a' Hlt; [intros [= <-]; discriminate..|lia].
  - reflexivity.
  - reflexivity.
  - split; [reflexivity|]. split; [reflexivity|].
    intros [|i'] a' Hlt; [intros [= <-]; discriminate|lia].
  - discriminate.
  - reflexivity.
Defined.

